(** * traffic-control.py: billing cycle, usage sampler, rate controller and
      failure supervisor

    A shallow embedding of the control loop of [traffic-control.py].

    Conventions of the embedding:
    - Python [int] is [Z]; Python [float] is idealised as an exact rational
      [Q] (no rounding, no NaN or infinity); comparisons of [Q] values are
      [Qle]/[Qlt] and equal values are related by [==].
    - The module-level configuration constants are the fields of [Config];
      [default_config] carries the values written in the script.
    - The state dictionary is the record [State]; a key the script reads with
      [state.get(key, default)] is an [option] field, a key it reads with
      [state[key]] is a plain field.
    - Everything the script obtains from the host (clock readings, interface
      listing, counter sources, whether spawning [tc] works) is an input,
      gathered in [Env]; calls to the enforcement functions, to
      [send_telegram], [save_state] and [time.sleep] are recorded in a trace
      of [event]s. *)

From Stdlib Require Import ZArith QArith Qminmax Lia Lqa Bool.
From stdpp Require Import gmap strings list.

Local Open Scope Z_scope.

(** ** Configuration constants (lines 31-73) *)

Record Config := {
  TOTAL_QUOTA_GB : Q;
  THRESHOLD_PERCENT : Q;
  BUFFER_PERCENT : Q;
  SAFETY_FACTOR : Q;
  HARD_LIMIT_GB : Q;
  UPDATE_INTERVAL_SEC : Z;
  MIN_RATE_KBPS : Q;
  CYCLE_START_DAY : Z;
  TRAFFIC_DIRECTION : string;
  DAILY_REPORT_HOUR : Z;
  TELEGRAM_ENABLED : bool;
  TELEGRAM_BOT_TOKEN : string;
  TELEGRAM_CHAT_ID : string;
  VNSTAT_FAILURE_LIMIT : Z;
  SYSFS_FAILURE_LIMIT : Z;
  MAX_CONSECUTIVE_FAILURES : Z
}.

Definition default_config : Config := {|
  TOTAL_QUOTA_GB := 1000;
  THRESHOLD_PERCENT := 90;
  BUFFER_PERCENT := 1;
  SAFETY_FACTOR := 99 # 100;
  HARD_LIMIT_GB := 1;
  UPDATE_INTERVAL_SEC := 300;
  MIN_RATE_KBPS := 256;
  CYCLE_START_DAY := 1;
  TRAFFIC_DIRECTION := "out";
  DAILY_REPORT_HOUR := 8;
  TELEGRAM_ENABLED := false;
  TELEGRAM_BOT_TOKEN := "YOUR_BOT_TOKEN";
  TELEGRAM_CHAT_ID := "YOUR_CHAT_ID";
  VNSTAT_FAILURE_LIMIT := 5;
  SYSFS_FAILURE_LIMIT := 3;
  MAX_CONSECUTIVE_FAILURES := 10
|}.

(** Python's [max(a, b)]: the first argument unless the second is strictly
    greater. *)
Definition py_max (a b : Q) : Q := if Qle_bool b a then a else b.

(** ** Naive datetimes ([datetime], [timedelta], [calendar.monthrange]) *)

Module Calendar.

Record datetime := {
  year : Z; month : Z; day : Z;
  hour : Z; minute : Z; second : Z
}.

Definition isleap (y : Z) : bool :=
  (y mod 4 =? 0) && (negb (y mod 100 =? 0) || (y mod 400 =? 0)).

(** [calendar.monthrange(y, m)[1]] *)
Definition monthrange (y m : Z) : Z :=
  if m =? 2 then (if isleap y then 29 else 28)
  else if (m =? 4) || (m =? 6) || (m =? 9) || (m =? 11) then 30
  else 31.

Definition midnight (y m d : Z) : datetime :=
  {| year := y; month := m; day := d; hour := 0; minute := 0; second := 0 |}.

(** [datetime(y, m, d)]; [None] stands for the [ValueError] of a day that
    the month does not have. *)
Definition datetime_ymd (y m d : Z) : option datetime :=
  if (1 <=? d) && (d <=? monthrange y m) then Some (midnight y m d) else None.

(** [dt.replace(day=d)], [None] for [ValueError]. *)
Definition replace_day (dt : datetime) (d : Z) : option datetime :=
  if (1 <=? d) && (d <=? monthrange (year dt) (month dt))
  then Some {| year := year dt; month := month dt; day := d;
               hour := hour dt; minute := minute dt; second := second dt |}
  else None.

Definition next_day (dt : datetime) : datetime :=
  if day dt <? monthrange (year dt) (month dt) then
    {| year := year dt; month := month dt; day := day dt + 1;
       hour := hour dt; minute := minute dt; second := second dt |}
  else if month dt =? 12 then
    {| year := year dt + 1; month := 1; day := 1;
       hour := hour dt; minute := minute dt; second := second dt |}
  else
    {| year := year dt; month := month dt + 1; day := 1;
       hour := hour dt; minute := minute dt; second := second dt |}.

Definition prev_day (dt : datetime) : datetime :=
  if 1 <? day dt then
    {| year := year dt; month := month dt; day := day dt - 1;
       hour := hour dt; minute := minute dt; second := second dt |}
  else if month dt =? 1 then
    {| year := year dt - 1; month := 12; day := 31;
       hour := hour dt; minute := minute dt; second := second dt |}
  else
    {| year := year dt; month := month dt - 1;
       day := monthrange (year dt) (month dt - 1);
       hour := hour dt; minute := minute dt; second := second dt |}.

(** [dt + timedelta(days=n)] *)
Definition add_days (n : nat) (dt : datetime) : datetime :=
  Nat.iter n next_day dt.

(** [dt - timedelta(seconds=1)] *)
Definition sub_second (dt : datetime) : datetime :=
  if 0 <? second dt then
    {| year := year dt; month := month dt; day := day dt;
       hour := hour dt; minute := minute dt; second := second dt - 1 |}
  else if 0 <? minute dt then
    {| year := year dt; month := month dt; day := day dt;
       hour := hour dt; minute := minute dt - 1; second := 59 |}
  else if 0 <? hour dt then
    {| year := year dt; month := month dt; day := day dt;
       hour := hour dt - 1; minute := 59; second := 59 |}
  else
    let p := prev_day dt in
    {| year := year p; month := month p; day := day p;
       hour := 23; minute := 59; second := 59 |}.

(** Days between 1970-01-01 and the civil date [y]-[m]-[d] of the
    proleptic Gregorian calendar. *)
Definition days_from_civil (y m d : Z) : Z :=
  let y' := if m <=? 2 then y - 1 else y in
  let era := y' / 400 in
  let yoe := y' - era * 400 in
  let mp := if 2 <? m then m - 3 else m + 9 in
  let doy := (153 * mp + 2) / 5 + d - 1 in
  let doe := yoe * 365 + yoe / 4 - yoe / 100 + doy in
  era * 146097 + doe - 719468.

(** [int(dt.timestamp())] of a naive datetime: its fields are read in the
    host's local zone, [tz] seconds east of UTC. *)
Definition timestamp (tz : Z) (dt : datetime) : Z :=
  days_from_civil (year dt) (month dt) (day dt) * 86400
  + hour dt * 3600 + minute dt * 60 + second dt - tz.

End Calendar.

Import Calendar.

(** ** get_cycle_timestamps (lines 264-311) *)

Record Cycle := { cycle_start : Z; cycle_end : Z }.

(** The two naive datetimes [start_date] and [end_date] the function builds
    from the clock reading [now]. *)
Definition cycle_dates (cfg : Config) (now : datetime) : datetime * datetime :=
  let year := year now in
  let month := month now in
  let start_day := Z.max 1 (Z.min 31 (CYCLE_START_DAY cfg)) in
  let start_date :=
    if start_day <=? day now then
      match datetime_ymd year month start_day with
      | Some d => d
      | None => midnight year month (monthrange year month)
      end
    else
      let prev_month := month - 1 in
      let prev_year := year in
      let '(prev_month, prev_year) :=
        if prev_month =? 0 then (12, year - 1) else (prev_month, prev_year) in
      match datetime_ymd prev_year prev_month start_day with
      | Some d => d
      | None => midnight prev_year prev_month (monthrange prev_year prev_month)
      end in
  let next_start := add_days 32 start_date in
  let next_start :=
    match replace_day next_start start_day with
    | Some d => d
    | None =>
        let last_day := monthrange (Calendar.year next_start) (Calendar.month next_start) in
        {| year := Calendar.year next_start; month := Calendar.month next_start;
           day := last_day; hour := hour next_start;
           minute := minute next_start; second := second next_start |}
    end in
  let end_date := sub_second next_start in
  (start_date, end_date).

Definition get_cycle_timestamps (cfg : Config) (tz : Z) (now : datetime) : Cycle :=
  let '(start_date, end_date) := cycle_dates cfg now in
  {| cycle_start := timestamp tz start_date;
     cycle_end := timestamp tz end_date |}.

(** ** Persistent state (the dictionary of [load_state], lines 502-526) *)

Record State := {
  version : option Z;
  cycle_start_ts : Z;
  is_limiting : bool;
  is_blocked : bool;
  last_rate_kbps : Q;
  last_daily_report : option Q;
  last_event_notification : option Q;
  last_status_notification : option Q;
  last_failure_notification : option Q;
  detected_interfaces : list string;
  vnstat_failures : option Z;
  sysfs_failures : option Z
}.

Definition default_state : State := {|
  version := Some 1;
  cycle_start_ts := 0;
  is_limiting := false;
  is_blocked := false;
  last_rate_kbps := 0%Q;
  last_daily_report := Some 0%Q;
  last_event_notification := Some 0%Q;
  last_status_notification := Some 0%Q;
  last_failure_notification := Some 0%Q;
  detected_interfaces := [];
  vnstat_failures := Some 0;
  sysfs_failures := Some 0
|}.

(** [load_state()]: [file] is what [json.load] yields, [None] when the file
    is absent or unreadable. *)
Definition load_state (file : option State) : State :=
  match file with
  | Some s => s
  | None => default_state
  end.

(** [state[key] = v] for the keys the loop assigns. *)
Definition set_is_limiting (b : bool) (s : State) : State :=
  {| version := version s; cycle_start_ts := cycle_start_ts s;
     is_limiting := b; is_blocked := is_blocked s;
     last_rate_kbps := last_rate_kbps s;
     last_daily_report := last_daily_report s;
     last_event_notification := last_event_notification s;
     last_status_notification := last_status_notification s;
     last_failure_notification := last_failure_notification s;
     detected_interfaces := detected_interfaces s;
     vnstat_failures := vnstat_failures s;
     sysfs_failures := sysfs_failures s |}.

Definition set_is_blocked (b : bool) (s : State) : State :=
  {| version := version s; cycle_start_ts := cycle_start_ts s;
     is_limiting := is_limiting s; is_blocked := b;
     last_rate_kbps := last_rate_kbps s;
     last_daily_report := last_daily_report s;
     last_event_notification := last_event_notification s;
     last_status_notification := last_status_notification s;
     last_failure_notification := last_failure_notification s;
     detected_interfaces := detected_interfaces s;
     vnstat_failures := vnstat_failures s;
     sysfs_failures := sysfs_failures s |}.

Definition set_last_rate_kbps (r : Q) (s : State) : State :=
  {| version := version s; cycle_start_ts := cycle_start_ts s;
     is_limiting := is_limiting s; is_blocked := is_blocked s;
     last_rate_kbps := r;
     last_daily_report := last_daily_report s;
     last_event_notification := last_event_notification s;
     last_status_notification := last_status_notification s;
     last_failure_notification := last_failure_notification s;
     detected_interfaces := detected_interfaces s;
     vnstat_failures := vnstat_failures s;
     sysfs_failures := sysfs_failures s |}.

Definition set_last_daily_report (t : Q) (s : State) : State :=
  {| version := version s; cycle_start_ts := cycle_start_ts s;
     is_limiting := is_limiting s; is_blocked := is_blocked s;
     last_rate_kbps := last_rate_kbps s;
     last_daily_report := Some t;
     last_event_notification := last_event_notification s;
     last_status_notification := last_status_notification s;
     last_failure_notification := last_failure_notification s;
     detected_interfaces := detected_interfaces s;
     vnstat_failures := vnstat_failures s;
     sysfs_failures := sysfs_failures s |}.

Definition set_detected_interfaces (l : list string) (s : State) : State :=
  {| version := version s; cycle_start_ts := cycle_start_ts s;
     is_limiting := is_limiting s; is_blocked := is_blocked s;
     last_rate_kbps := last_rate_kbps s;
     last_daily_report := last_daily_report s;
     last_event_notification := last_event_notification s;
     last_status_notification := last_status_notification s;
     last_failure_notification := last_failure_notification s;
     detected_interfaces := l;
     vnstat_failures := vnstat_failures s;
     sysfs_failures := sysfs_failures s |}.

Definition set_vnstat_failures (n : Z) (s : State) : State :=
  {| version := version s; cycle_start_ts := cycle_start_ts s;
     is_limiting := is_limiting s; is_blocked := is_blocked s;
     last_rate_kbps := last_rate_kbps s;
     last_daily_report := last_daily_report s;
     last_event_notification := last_event_notification s;
     last_status_notification := last_status_notification s;
     last_failure_notification := last_failure_notification s;
     detected_interfaces := detected_interfaces s;
     vnstat_failures := Some n;
     sysfs_failures := sysfs_failures s |}.

Definition set_sysfs_failures (n : Z) (s : State) : State :=
  {| version := version s; cycle_start_ts := cycle_start_ts s;
     is_limiting := is_limiting s; is_blocked := is_blocked s;
     last_rate_kbps := last_rate_kbps s;
     last_daily_report := last_daily_report s;
     last_event_notification := last_event_notification s;
     last_status_notification := last_status_notification s;
     last_failure_notification := last_failure_notification s;
     detected_interfaces := detected_interfaces s;
     vnstat_failures := vnstat_failures s;
     sysfs_failures := Some n |}.

(** The three-state mode of the specification, read off the two flags. *)
Inductive ControlState := NORMAL | LIMITING | BLOCKED.

Definition control_state (s : State) : ControlState :=
  if is_blocked s then BLOCKED
  else if is_limiting s then LIMITING
  else NORMAL.

(** ** Calls that leave the loop *)

Inductive notice :=
| StartedNotice
| NewCycleNotice
| DailyReportNotice
| BlockNotice
| ThresholdNotice
| LimitRemovedNotice
| LoopErrorNotice (failures : Z)
| FatalNotice.

Inductive event :=
| VnstatRead (interface : string)
| SysfsRead (interface : string)
| SetupTc (interface : string)
| UpdateTcLimit (interface : string) (rate_kbps : Q)
| DisableTcLimit (interface : string)
| BlockNetwork (interface : string)
| UnblockNetwork (interface : string)
| Telegram (n : notice)
| SaveState (s : State)
| Sleep (seconds : Z).

(** An enforcement call: a rate change or a firewall change. *)
Definition is_enforcement (e : event) : bool :=
  match e with
  | UpdateTcLimit _ _ | DisableTcLimit _ | BlockNetwork _ | UnblockNetwork _ => true
  | _ => false
  end.

(** ** Usage sampler (lines 202-262) *)

(** What the body of a [try] block produced. *)
Inductive reading := Raises | Returns (v : Z).

Record Probe := {
  vnstat_installed : bool;   (* shutil.which("vnstat") *)
  vnstat_read : reading;     (* the try block of get_vnstat_data *)
  sysfs_tx : reading;        (* reading statistics/tx_bytes *)
  sysfs_rx : reading         (* reading statistics/rx_bytes *)
}.

Definition get_vnstat_data (p : Probe) : option Z :=
  match vnstat_read p with
  | Returns v => Some v
  | Raises => None
  end.

Definition get_sysfs_data (cfg : Config) (p : Probe) : option Z :=
  match sysfs_tx p with
  | Raises => None
  | Returns tx_bytes =>
      if String.eqb (TRAFFIC_DIRECTION cfg) "both" then
        match sysfs_rx p with
        | Raises => None
        | Returns rx_bytes => Some (tx_bytes + rx_bytes)
        end
      else Some tx_bytes
  end.

(** The fallback half of [get_current_bytes] (lines 255-262). *)
Definition sysfs_fallback (cfg : Config) (p : Probe) (interface : string)
    (s : State) : Z * State * list event :=
  match get_sysfs_data cfg p with
  | Some data => (data, set_sysfs_failures 0 s, [SysfsRead interface])
  | None =>
      (0, set_sysfs_failures (default 0 (sysfs_failures s) + 1) s,
       [SysfsRead interface])
  end.

Definition get_current_bytes (cfg : Config) (p : Probe) (interface : string)
    (s : State) : Z * State * list event :=
  if vnstat_installed p then
    match get_vnstat_data p with
    | Some data => (data, set_vnstat_failures 0 s, [VnstatRead interface])
    | None =>
        let s1 := set_vnstat_failures (default 0 (vnstat_failures s) + 1) s in
        let '(data, s2, t) := sysfs_fallback cfg p interface s1 in
        (data, s2, VnstatRead interface :: t)
    end
  else
    let s1 := set_vnstat_failures (default 0 (vnstat_failures s) + 1) s in
    sysfs_fallback cfg p interface s1.

(** Sampling one interface repeatedly: the values returned, the final state
    and the source reads, for a list of successive host conditions. *)
Fixpoint sample_run (cfg : Config) (interface : string) (ps : list Probe)
    (s : State) : list Z * State * list event :=
  match ps with
  | [] => ([], s, [])
  | p :: ps' =>
      let '(v, s1, t1) := get_current_bytes cfg p interface s in
      let '(vs, s2, t2) := sample_run cfg interface ps' s1 in
      (v :: vs, s2, t1 ++ t2)
  end.

(** ** Rate formula (lines 678-680 and 713-718) *)

Definition GiB : Q := inject_Z (1024 ^ 3).

Definition total_gb_used (total_bytes_used : Z) : Q :=
  (inject_Z total_bytes_used / GiB)%Q.

Definition used_percent (cfg : Config) (total_bytes_used : Z) : Q :=
  ((total_gb_used total_bytes_used / TOTAL_QUOTA_GB cfg) * 100)%Q.

Definition remaining_gb (cfg : Config) (total_bytes_used : Z) : Q :=
  (TOTAL_QUOTA_GB cfg - total_gb_used total_bytes_used)%Q.

Definition time_remaining_sec (cycle : Cycle) (current_time : Z) : Z :=
  Z.max 1 (cycle_end cycle - current_time).

Definition safe_remaining_gb (cfg : Config) (remaining_gb : Q) : Q :=
  py_max 0 (remaining_gb - (TOTAL_QUOTA_GB cfg * BUFFER_PERCENT cfg / 100))%Q.

Definition target_rate_bps (cfg : Config) (remaining_gb : Q)
    (time_remaining_sec : Z) : Q :=
  let safe_remaining_bytes := (safe_remaining_gb cfg remaining_gb * GiB)%Q in
  ((safe_remaining_bytes * 8 * SAFETY_FACTOR cfg) / inject_Z time_remaining_sec)%Q.

Definition target_rate_kbps (cfg : Config) (remaining_gb : Q)
    (time_remaining_sec : Z) : Q :=
  py_max (MIN_RATE_KBPS cfg)
         (target_rate_bps cfg remaining_gb time_remaining_sec / 1000)%Q.

(** ** Effects of the loop body: memory, trace, exceptions *)

(** The loop's variables: the state dictionary and the [tc_initialized]
    dictionary (not persisted). *)
Record Mem := { state : State; tc_initialized : gmap string bool }.

Inductive result (A : Type) := Done (a : A) | Raised.
Arguments Done {A} a.
Arguments Raised {A}.

Record Run (A : Type) := {
  mem_of : Mem;
  trace_of : list event;
  result_of : result A
}.
Arguments mem_of {A} r.
Arguments trace_of {A} r.
Arguments result_of {A} r.

Definition M (A : Type) : Type := Mem -> Run A.

Definition ret {A} (a : A) : M A :=
  fun m => {| mem_of := m; trace_of := []; result_of := Done a |}.

Definition raise {A} : M A :=
  fun m => {| mem_of := m; trace_of := []; result_of := Raised |}.

Definition bind {A B} (c : M A) (k : A -> M B) : M B :=
  fun m =>
    let r := c m in
    match result_of r with
    | Raised =>
        {| mem_of := mem_of r; trace_of := trace_of r; result_of := Raised |}
    | Done a =>
        let r' := k a (mem_of r) in
        {| mem_of := mem_of r'; trace_of := trace_of r ++ trace_of r';
           result_of := result_of r' |}
    end.

Declare Scope loop_scope.
Delimit Scope loop_scope with loop.
Notation "x <- c ;; k" := (bind c (fun x => k))
  (at level 100, c at next level, right associativity) : loop_scope.
Notation "c ;; k" := (bind c (fun _ => k))
  (at level 100, right associativity) : loop_scope.
Local Open Scope loop_scope.

Definition get_state : M State :=
  fun m => {| mem_of := m; trace_of := []; result_of := Done (state m) |}.

Definition put_state (s : State) : M unit :=
  fun m => {| mem_of := {| state := s; tc_initialized := tc_initialized m |};
              trace_of := []; result_of := Done tt |}.

Definition modify_state (f : State -> State) : M unit :=
  fun m => {| mem_of := {| state := f (state m);
                            tc_initialized := tc_initialized m |};
              trace_of := []; result_of := Done tt |}.

Definition get_tc_initialized : M (gmap string bool) :=
  fun m => {| mem_of := m; trace_of := []; result_of := Done (tc_initialized m) |}.

Definition set_tc_initialized (interface : string) (b : bool) : M unit :=
  fun m => {| mem_of := {| state := state m;
                            tc_initialized := <[interface := b]> (tc_initialized m) |};
              trace_of := []; result_of := Done tt |}.

Definition emit (e : event) : M unit :=
  fun m => {| mem_of := m; trace_of := [e]; result_of := Done tt |}.

Fixpoint for_each {X} (l : list X) (body : X -> M unit) : M unit :=
  match l with
  | [] => ret tt
  | x :: l' => body x ;; for_each l' body
  end.

(** ** Host inputs of one loop iteration *)

Record Env := {
  interfaces : list string;        (* get_all_interfaces() *)
  tc_found : bool;                 (* shutil.which("tc") *)
  tc_oserror : string -> bool;     (* spawning tc for the interface raises *)
  tz : Z;                          (* local zone, seconds east of UTC *)
  clock_cycle : datetime;          (* utcnow()/now() in get_cycle_timestamps *)
  clock_tick : Z;                  (* int(time.time()), line 609 *)
  clock_report_hour : Z;           (* now.hour in should_send_daily_report *)
  clock_report : Q;                (* time.time() in should_send_daily_report *)
  clock_report_sent : Q;           (* time.time(), line 666 *)
  report_probe : string -> Probe;  (* counter sources during the daily report *)
  probe : string -> Probe          (* counter sources during the control pass *)
}.

(** ** Collaborators *)

(** [send_telegram]: a request thread is started only when notifications are
    configured. *)
Definition telegram_ready (cfg : Config) : bool :=
  TELEGRAM_ENABLED cfg
  && negb (String.eqb (TELEGRAM_BOT_TOKEN cfg) "")
  && negb (String.eqb (TELEGRAM_CHAT_ID cfg) "").

Definition send_telegram (cfg : Config) (n : notice) : M bool :=
  if telegram_ready cfg then emit (Telegram n) ;; ret true
  else ret false.

(** [setup_tc], [update_tc_limit], [disable_tc_limit] run [tc] with
    [check=False] and catch only [CalledProcessError]: they return [True]
    unless spawning raises, and then the exception leaves the function. *)
Definition setup_tc (env : Env) (interface : string) : M bool :=
  if tc_oserror env interface then raise
  else emit (SetupTc interface) ;; ret true.

Definition update_tc_limit (env : Env) (interface : string) (rate_kbps : Q) : M bool :=
  if tc_oserror env interface then raise
  else emit (UpdateTcLimit interface rate_kbps) ;; ret true.

Definition disable_tc_limit (env : Env) (interface : string) : M bool :=
  if tc_oserror env interface then raise
  else emit (DisableTcLimit interface) ;; ret true.

(** [block_network], [unblock_network] catch every exception; the loop
    ignores what they return. *)
Definition block_network (interface : string) : M unit :=
  emit (BlockNetwork interface).

Definition unblock_network (interface : string) : M unit :=
  emit (UnblockNetwork interface).

(** [save_state] catches the errors of writing the file; [os.makedirs] is
    taken to succeed. *)
Definition save_state : M unit :=
  s <- get_state ;; emit (SaveState s).

Definition sleep (seconds : Z) : M unit := emit (Sleep seconds).

(** [get_current_bytes(interface, state)] on the loop's state dictionary. *)
Definition sample (cfg : Config) (p : Probe) (interface : string) : M Z :=
  fun m =>
    let '(data, s, t) := get_current_bytes cfg p interface (state m) in
    {| mem_of := {| state := s; tc_initialized := tc_initialized m |};
       trace_of := t; result_of := Done data |}.

(** [generate_report]: only its division by [TOTAL_QUOTA_GB] matters to the
    loop, the text does not. *)
Definition generate_report (cfg : Config) : M unit :=
  if Qeq_bool (TOTAL_QUOTA_GB cfg) 0 then raise else ret tt.

Definition should_send_daily_report (cfg : Config) (env : Env) (s : State) : bool :=
  let current_hour := clock_report_hour env in
  let last_report := default 0%Q (last_daily_report s) in
  let time_diff := (clock_report env - last_report)%Q in
  let late := negb (Qle_bool time_diff (inject_Z (23 * 3600))) in
  if current_hour =? DAILY_REPORT_HOUR cfg then late
  else late && (DAILY_REPORT_HOUR cfg <=? current_hour).

(** ** main (lines 539-775) *)

(** Start-up, lines 551-583; [main_interface] is what
    [get_default_interface()] returned. *)
Definition init_tc (env : Env) (interface : string) : M unit :=
  if tc_found env then
    (ok <- setup_tc env interface ;; set_tc_initialized interface ok)
  else set_tc_initialized interface false.

Definition startup (cfg : Config) (env : Env) (main_interface : string) : M unit :=
  s <- get_state ;;
  (match detected_interfaces s with
   | [] => modify_state (set_detected_interfaces [main_interface])
   | _ => ret tt
   end) ;;
  s <- get_state ;;
  for_each (detected_interfaces s) (init_tc env) ;;
  (if TELEGRAM_ENABLED cfg then (_ <- send_telegram cfg StartedNotice ;; ret tt)
   else ret tt).

(** Lines 590-605. *)
Definition detect_new_interfaces (env : Env) : M unit :=
  for_each (interfaces env) (fun iface =>
    s <- get_state ;;
    if bool_decide (iface ∈ detected_interfaces s) then ret tt
    else
      modify_state (fun s => set_detected_interfaces (detected_interfaces s ++ [iface]) s) ;;
      init_tc env iface).

(** The trigger of line 613. *)
Definition rollover_due (cycle : Cycle) (current_time : Z) (s : State) : bool :=
  (cycle_end cycle <? current_time) || negb (cycle_start_ts s =? cycle_start cycle).

(** The dictionary literal of lines 630-643. *)
Definition fresh_state (cycle : Cycle) (s : State) : State := {|
  version := Some (default 1 (version s));
  cycle_start_ts := cycle_start cycle;
  is_limiting := false;
  is_blocked := false;
  last_rate_kbps := 0%Q;
  last_daily_report := Some (default 0%Q (last_daily_report s));
  last_event_notification := Some (default 0%Q (last_event_notification s));
  last_status_notification := Some (default 0%Q (last_status_notification s));
  last_failure_notification := Some (default 0%Q (last_failure_notification s));
  detected_interfaces := detected_interfaces s;
  vnstat_failures := Some 0;
  sysfs_failures := Some 0
|}.

(** The body of the loop of lines 617-621. *)
Definition release (env : Env) (interface : string) : M unit :=
  s <- get_state ;;
  (if is_blocked s then unblock_network interface else ret tt) ;;
  s <- get_state ;;
  tc <- get_tc_initialized ;;
  if is_limiting s && default false (tc !! interface)
  then (_ <- disable_tc_limit env interface ;; ret tt)
  else ret tt.

(** Lines 613-643. *)
Definition cycle_reset (cfg : Config) (env : Env) (cycle : Cycle)
    (current_time : Z) : M unit :=
  s <- get_state ;;
  if rollover_due cycle current_time s then
    for_each (detected_interfaces s) (release env) ;;
    (if TELEGRAM_ENABLED cfg then (_ <- send_telegram cfg NewCycleNotice ;; ret tt)
     else ret tt) ;;
    s <- get_state ;;
    put_state (fresh_state cycle s)
  else ret tt.

(** Lines 645-666. *)
Definition daily_report (cfg : Config) (env : Env) : M unit :=
  s <- get_state ;;
  if should_send_daily_report cfg env s then
    for_each (detected_interfaces s) (fun interface =>
      _ <- sample cfg (report_probe env interface) interface ;;
      generate_report cfg) ;;
    sent <- send_telegram cfg DailyReportNotice ;;
    (if sent then modify_state (set_last_daily_report (clock_report_sent env))
     else ret tt)
  else ret tt.

(** Lines 669-676: the sum of the per-interface readings. *)
Fixpoint sample_all (cfg : Config) (pr : string -> Probe) (l : list string) : M Z :=
  match l with
  | [] => ret 0
  | interface :: l' =>
      bytes_used <- sample cfg (pr interface) interface ;;
      rest <- sample_all cfg pr l' ;;
      ret (bytes_used + rest)
  end.

(** Lines 685-693. *)
Definition block_check (cfg : Config) (remaining : Q) : M unit :=
  s <- get_state ;;
  if negb (is_blocked s) && Qle_bool remaining (HARD_LIMIT_GB cfg) then
    modify_state (set_is_blocked true) ;;
    for_each (detected_interfaces s) block_network ;;
    _ <- send_telegram cfg BlockNotice ;;
    ret tt
  else ret tt.

(** Lines 702-744. *)
Definition limit_control (cfg : Config) (env : Env) (used remaining : Q)
    (time_remaining : Z) : M unit :=
  s <- get_state ;;
  (if negb (is_limiting s) && Qle_bool (THRESHOLD_PERCENT cfg) used then
     modify_state (set_is_limiting true) ;;
     _ <- send_telegram cfg ThresholdNotice ;;
     ret tt
   else ret tt) ;;
  s <- get_state ;;
  if is_limiting s then
    let rate := target_rate_kbps cfg remaining time_remaining in
    for_each (detected_interfaces s) (fun interface =>
      tc <- get_tc_initialized ;;
      if default false (tc !! interface) then
        ok <- update_tc_limit env interface rate ;;
        (if ok then modify_state (set_last_rate_kbps rate) else ret tt)
      else ret tt) ;;
    (if negb (Qle_bool (THRESHOLD_PERCENT cfg) used) then
       for_each (detected_interfaces s) (fun interface =>
         tc <- get_tc_initialized ;;
         if default false (tc !! interface)
         then (_ <- disable_tc_limit env interface ;; ret tt)
         else ret tt) ;;
       modify_state (set_is_limiting false) ;;
       _ <- send_telegram cfg LimitRemovedNotice ;;
       ret tt
     else ret tt)
  else
    for_each (detected_interfaces s) (fun interface =>
      tc <- get_tc_initialized ;;
      if default false (tc !! interface)
      then (_ <- disable_tc_limit env interface ;; ret tt)
      else ret tt).

(** Lines 668-749: the control pass. *)
Definition control (cfg : Config) (env : Env) (time_remaining : Z) : M unit :=
  s <- get_state ;;
  total_bytes_used <- sample_all cfg (probe env) (detected_interfaces s) ;;
  if Qeq_bool (TOTAL_QUOTA_GB cfg) 0 then raise   (* ZeroDivisionError *)
  else
    let used := used_percent cfg total_bytes_used in
    let remaining := remaining_gb cfg total_bytes_used in
    block_check cfg remaining ;;
    s <- get_state ;;
    if is_blocked s then
      save_state ;; sleep (UPDATE_INTERVAL_SEC cfg)
    else
      limit_control cfg env used remaining time_remaining ;;
      save_state ;; sleep (UPDATE_INTERVAL_SEC cfg).

(** The body of the [try] (lines 590-752). *)
Definition tick (cfg : Config) (env : Env) : M unit :=
  detect_new_interfaces env ;;
  let cycle := get_cycle_timestamps cfg (tz env) (clock_cycle env) in
  let current_time := clock_tick env in
  let time_remaining := time_remaining_sec cycle current_time in
  cycle_reset cfg env cycle current_time ;;
  daily_report cfg env ;;
  control cfg env time_remaining.

(** ** Failure supervisor (lines 586-588 and 749-775) *)

Record Loop := { mem : Mem; consecutive_failures : Z }.

Inductive control_flow :=
| Continue (l : Loop)
| Exit (status : Z).

(** The [except Exception] handler, lines 757-775, entered with the counter
    value before the increment. *)
Definition on_error (cfg : Config) (m : Mem) (failures : Z)
    : list event * control_flow :=
  let consecutive_failures := failures + 1 in
  let notify :=
    if (consecutive_failures mod 3 =? 0) && TELEGRAM_ENABLED cfg
    then trace_of (send_telegram cfg (LoopErrorNotice consecutive_failures) m)
    else [] in
  if MAX_CONSECUTIVE_FAILURES cfg <=? consecutive_failures then
    (notify ++ trace_of (send_telegram cfg FatalNotice m), Exit 1)
  else
    let sleep_time := Z.min 600 (2 ^ consecutive_failures) in
    (notify ++ [Sleep sleep_time],
     Continue {| mem := m; consecutive_failures := consecutive_failures |}).

(** One pass through [while True]. *)
Definition loop_iteration (cfg : Config) (env : Env) (l : Loop)
    : list event * control_flow :=
  let r := tick cfg env (mem l) in
  match result_of r with
  | Done _ =>
      (trace_of r, Continue {| mem := mem_of r; consecutive_failures := 0 |})
  | Raised =>
      let '(t, flow) := on_error cfg (mem_of r) (consecutive_failures l) in
      (trace_of r ++ t, flow)
  end.

(** Several passes, one host input per pass; stops at [sys.exit]. *)
Fixpoint run_loop (cfg : Config) (envs : list Env) (l : Loop)
    : list event * control_flow :=
  match envs with
  | [] => ([], Continue l)
  | env :: envs' =>
      match loop_iteration cfg env l with
      | (t, Continue l') =>
          let '(t', flow) := run_loop cfg envs' l' in (t ++ t', flow)
      | (t, Exit status) => (t, Exit status)
      end
  end.

(** ** Vocabulary of the statements *)

(** The rate formula as section 4.3 of the specification writes it. *)
Definition spec_target_kbps (cfg : Config) (remaining_gb : Q)
    (cycle_end now : Z) : Q :=
  let safe_remaining_gb :=
    Qmax 0 (remaining_gb - TOTAL_QUOTA_GB cfg * BUFFER_PERCENT cfg / 100)%Q in
  let time_remaining_sec := Z.max 1 (cycle_end - now) in
  let target_bps :=
    (safe_remaining_gb * GiB * 8 * SAFETY_FACTOR cfg / inject_Z time_remaining_sec)%Q in
  Qmax (MIN_RATE_KBPS cfg) (target_bps / 1000)%Q.

(** The tick of [env] lies in the billing cycle that starts at [start_ts]:
    the trigger of line 613 is off for a state of that cycle. *)
Definition in_cycle (cfg : Config) (env : Env) (start_ts : Z) : Prop :=
  let cycle := get_cycle_timestamps cfg (tz env) (clock_cycle env) in
  clock_tick env <= cycle_end cycle /\ start_ts = cycle_start cycle.

(** [c] keeps the state property [J] and emits only events satisfying [P],
    whether it completes or raises. *)
Definition inv (J : State -> Prop) (P : event -> Prop) {A} (c : M A) : Prop :=
  forall m, J (state m) ->
    J (state (mem_of (c m))) /\ Forall P (trace_of (c m)).

(** What the sampler leaves alone. *)
Definition same_control (s s' : State) : Prop :=
  is_blocked s' = is_blocked s /\ is_limiting s' = is_limiting s
  /\ last_rate_kbps s' = last_rate_kbps s
  /\ cycle_start_ts s' = cycle_start_ts s
  /\ detected_interfaces s' = detected_interfaces s.

Definition is_read (e : event) : Prop :=
  match e with VnstatRead _ | SysfsRead _ => True | _ => False end.

(** A blocked state with the given limiting flag, last rate and cycle. *)
Definition blocked_with (b0 : bool) (r0 : Q) (c0 : Z) (s : State) : Prop :=
  is_blocked s = true /\ is_limiting s = b0
  /\ last_rate_kbps s = r0 /\ cycle_start_ts s = c0.

Definition no_enforcement (e : event) : Prop := is_enforcement e = false.

(** The primary source fails on [p]: [vnstat] is absent or its read raises. *)
Definition primary_fails (p : Probe) : Prop :=
  vnstat_installed p = false \/ get_vnstat_data p = None.

(** Spawning [tc] raises for none of the tracked interfaces. *)
Definition tc_spawns (env : Env) (s : State) : Prop :=
  forall i, i ∈ detected_interfaces s -> tc_oserror env i = false.

(** Every rate handed to [update_tc_limit] is [r]. *)
Definition rate_is (r : Q) (e : event) : Prop :=
  match e with UpdateTcLimit _ r' => r' = r | _ => True end.

Definition not_vnstat_read (e : event) : Prop :=
  match e with VnstatRead _ => False | _ => True end.

Definition not_sysfs_read (e : event) : Prop :=
  match e with SysfsRead _ => False | _ => True end.

Definition not_sleep (e : event) : Prop :=
  match e with Sleep _ => False | _ => True end.

(** [c] sleeps exactly once, for [u] seconds and as its last step, when it
    completes, and not at all when it raises. *)
Definition paced (u : Z) (c : M unit) : Prop :=
  forall m,
    match result_of (c m) with
    | Done _ => exists t', trace_of (c m) = t' ++ [Sleep u] /\ Forall not_sleep t'
    | Raised => Forall not_sleep (trace_of (c m))
    end.

Definition no_tc_change (e : event) : Prop :=
  match e with UpdateTcLimit _ _ | DisableTcLimit _ => False | _ => True end.

(** The script's configuration with another [CYCLE_START_DAY]. *)
Definition with_cycle_start_day (d : Z) (cfg : Config) : Config := {|
  TOTAL_QUOTA_GB := TOTAL_QUOTA_GB cfg;
  THRESHOLD_PERCENT := THRESHOLD_PERCENT cfg;
  BUFFER_PERCENT := BUFFER_PERCENT cfg;
  SAFETY_FACTOR := SAFETY_FACTOR cfg;
  HARD_LIMIT_GB := HARD_LIMIT_GB cfg;
  UPDATE_INTERVAL_SEC := UPDATE_INTERVAL_SEC cfg;
  MIN_RATE_KBPS := MIN_RATE_KBPS cfg;
  CYCLE_START_DAY := d;
  TRAFFIC_DIRECTION := TRAFFIC_DIRECTION cfg;
  DAILY_REPORT_HOUR := DAILY_REPORT_HOUR cfg;
  TELEGRAM_ENABLED := TELEGRAM_ENABLED cfg;
  TELEGRAM_BOT_TOKEN := TELEGRAM_BOT_TOKEN cfg;
  TELEGRAM_CHAT_ID := TELEGRAM_CHAT_ID cfg;
  VNSTAT_FAILURE_LIMIT := VNSTAT_FAILURE_LIMIT cfg;
  SYSFS_FAILURE_LIMIT := SYSFS_FAILURE_LIMIT cfg;
  MAX_CONSECUTIVE_FAILURES := MAX_CONSECUTIVE_FAILURES cfg
|}.

(** The script's configuration with Telegram switched on; the token and the
    chat id are the non-empty texts of lines 66-67. *)
Definition with_telegram_enabled (cfg : Config) : Config := {|
  TOTAL_QUOTA_GB := TOTAL_QUOTA_GB cfg;
  THRESHOLD_PERCENT := THRESHOLD_PERCENT cfg;
  BUFFER_PERCENT := BUFFER_PERCENT cfg;
  SAFETY_FACTOR := SAFETY_FACTOR cfg;
  HARD_LIMIT_GB := HARD_LIMIT_GB cfg;
  UPDATE_INTERVAL_SEC := UPDATE_INTERVAL_SEC cfg;
  MIN_RATE_KBPS := MIN_RATE_KBPS cfg;
  CYCLE_START_DAY := CYCLE_START_DAY cfg;
  TRAFFIC_DIRECTION := TRAFFIC_DIRECTION cfg;
  DAILY_REPORT_HOUR := DAILY_REPORT_HOUR cfg;
  TELEGRAM_ENABLED := true;
  TELEGRAM_BOT_TOKEN := TELEGRAM_BOT_TOKEN cfg;
  TELEGRAM_CHAT_ID := TELEGRAM_CHAT_ID cfg;
  VNSTAT_FAILURE_LIMIT := VNSTAT_FAILURE_LIMIT cfg;
  SYSFS_FAILURE_LIMIT := SYSFS_FAILURE_LIMIT cfg;
  MAX_CONSECUTIVE_FAILURES := MAX_CONSECUTIVE_FAILURES cfg
|}.

(** The days of year [y], for exhaustive checks over a calendar year. *)
Definition days_of_year (y : Z) : list datetime :=
  Nat.iter (if isleap y then 365 else 364)
    (fun acc => match acc with d :: _ => next_day d :: acc | [] => [] end)
    [midnight y 1 1].

(** On day [now] with anchor day [a] (UTC host): the window contains the
    clock reading, the same window is computed on its last day, and the
    window computed one second after its end starts at that second. *)
Definition window_consistent (a : Z) (now : datetime) : bool :=
  let cfg := with_cycle_start_day a default_config in
  let '(_, e) := cycle_dates cfg now in
  let c := get_cycle_timestamps cfg 0 now in
  let c_last := get_cycle_timestamps cfg 0 e in
  let c_next := get_cycle_timestamps cfg 0 (next_day (midnight (year e) (month e) (day e))) in
  (cycle_start c <=? timestamp 0 now) && (timestamp 0 now <=? cycle_end c)
  && (cycle_start c_last =? cycle_start c) && (cycle_end c_last =? cycle_end c)
  && (cycle_start c_next =? cycle_end c + 1).

(** A host in January 2023 (UTC) with the single interface eth0, [tc]
    working, and [vnstat] reporting [bytes] for the month; the clock reads
    noon of day [d]. *)
Definition january_host (d : Z) (bytes : Z) : Env :=
  let p := {| vnstat_installed := true; vnstat_read := Returns bytes;
              sysfs_tx := Raises; sysfs_rx := Raises |} in
  {| interfaces := ["eth0"]; tc_found := true; tc_oserror := fun _ => false;
     tz := 0;
     clock_cycle := {| year := 2023; month := 1; day := d;
                       hour := 12; minute := 0; second := 0 |};
     clock_tick := 1672531200 + (d - 1) * 86400 + 12 * 3600;
     clock_report_hour := 12; clock_report := 0%Q; clock_report_sent := 0%Q;
     report_probe := fun _ => p; probe := fun _ => p |}.

(** The loop variables after start-up on that host without a state file. *)
Definition january_boot : Loop :=
  {| mem := mem_of (startup default_config (january_host 1 0) "eth0"
                      {| state := load_state None; tc_initialized := ∅ |});
     consecutive_failures := 0 |}.

(** ** Vocabulary of the calendar statements *)

(** A date that exists, and a time of day. *)
Definition valid_date (dt : datetime) : Prop :=
  1 <= month dt <= 12 /\ 1 <= day dt <= monthrange (year dt) (month dt).

Definition valid_time (dt : datetime) : Prop :=
  0 <= hour dt <= 23 /\ 0 <= minute dt <= 59 /\ 0 <= second dt <= 59.

Definition with_day (dt : datetime) (d : Z) : datetime :=
  {| year := year dt; month := month dt; day := d;
     hour := hour dt; minute := minute dt; second := second dt |}.

Definition next_month (y m : Z) : Z * Z :=
  if m =? 12 then (y + 1, 1) else (y, m + 1).

Definition prev_month (y m : Z) : Z * Z :=
  if m - 1 =? 0 then (y - 1, 12) else (y, m - 1).

(** The first day of the following month, at the same time of day. *)
Definition first_of_next (dt : datetime) : datetime :=
  {| year := fst (next_month (year dt) (month dt));
     month := snd (next_month (year dt) (month dt)); day := 1;
     hour := hour dt; minute := minute dt; second := second dt |}.

Definition dfc (dt : datetime) : Z :=
  days_from_civil (year dt) (month dt) (day dt).

(** [start_day] of line 271. *)
Definition anchor (cfg : Config) : Z :=
  Z.max 1 (Z.min 31 (CYCLE_START_DAY cfg)).

(** The day replaced by the anchor day, or by the month's last day when the
    month is shorter (lines 299-304). *)
Definition clamp_day (dt : datetime) (a : Z) : datetime :=
  with_day dt (Z.min a (monthrange (year dt) (month dt))).

(** ** The integer rate of the [tc] command (line 343) *)

(** [int(rate_kbps)] of line 343: truncation towards zero. *)
Definition tc_rate_arg (rate_kbps : Q) : Z :=
  Z.quot (Qnum rate_kbps) (Zpos (Qden rate_kbps)).

(** ** The firewall rules (lines 367-445 and 811-842, [USE_IPTABLES] set)

    The rule table is the list of rules in the order [iptables] keeps them.
    [iptables -C] succeeds when the rule is in the table, [-A] adds the rule
    at the end, [-D] removes the first copy of the rule and fails when there
    is none.  The [while True] loops take a bound on their iterations and
    give [None] when it is used up. *)

Module Iptables.

Inductive chain := INPUT | OUTPUT.

Inductive rule :=
| Drop (c : chain) (interface : string)
| Other (c : chain) (text : string).

#[export] Instance chain_eq_dec : EqDecision chain.
Proof. solve_decision. Defined.

#[export] Instance rule_eq_dec : EqDecision rule.
Proof. solve_decision. Defined.

Definition table := list rule.

Definition check (r : rule) (t : table) : bool := bool_decide (r ∈ t).

Definition append (r : rule) (t : table) : table := t ++ [r].

Fixpoint delete (r : rule) (t : table) : option table :=
  match t with
  | [] => None
  | x :: t' =>
      if decide (x = r) then Some t'
      else match delete r t' with
           | Some t'' => Some (x :: t'')
           | None => None
           end
  end.

Definition block_network (interface : string) (t : table) : table :=
  let t1 := if check (Drop INPUT interface) t then t
            else append (Drop INPUT interface) t in
  if check (Drop OUTPUT interface) t1 then t1
  else append (Drop OUTPUT interface) t1.

Fixpoint delete_loop (fuel : nat) (r : rule) (t : table) : option table :=
  match fuel with
  | O => None
  | S fuel' =>
      match delete r t with
      | None => Some t
      | Some t' => delete_loop fuel' r t'
      end
  end.

Definition unblock_network (fuel : nat) (interface : string) (t : table)
    : option table :=
  match delete_loop fuel (Drop INPUT interface) t with
  | None => None
  | Some t1 => delete_loop fuel (Drop OUTPUT interface) t1
  end.

Definition possible_interfaces : list string :=
  ["eth0"; "ens3"; "enp0s3"; "wlan0"; "eth1"]%string.

Fixpoint reset_loop (fuel : nat) (iface : string) (t : table) : option table :=
  match fuel with
  | O => None
  | S fuel' =>
      match delete (Drop INPUT iface) t with
      | None => Some t
      | Some t1 =>
          match delete (Drop OUTPUT iface) t1 with
          | None => Some t1
          | Some t2 => reset_loop fuel' iface t2
          end
      end
  end.

Fixpoint force_reset_over (fuel : nat) (l : list string) (t : table) : option table :=
  match l with
  | [] => Some t
  | iface :: l' =>
      match reset_loop fuel iface t with
      | None => None
      | Some t' => force_reset_over fuel l' t'
      end
  end.

Definition force_reset (fuel : nat) (t : table) : option table :=
  force_reset_over fuel possible_interfaces t.

Fixpoint occurrences (r : rule) (t : table) : nat :=
  match t with
  | [] => O
  | x :: t' => if decide (x = r) then S (occurrences r t') else occurrences r t'
  end.

Fixpoint without (r : rule) (t : table) : table :=
  match t with
  | [] => []
  | x :: t' => if decide (x = r) then without r t' else x :: without r t'
  end.

End Iptables.

(** ** The document printed by [vnstat --json m] (lines 202-222)

    The parsed document, with [None] for a key that is missing; the numbers
    are integers.  [None] as the whole document stands for output that
    [json.loads] rejects.  [year] and [month] are those of the clock. *)

Module Vnstat.

Record month_data := {
  date_year : option Z;
  date_month : option Z;
  tx : option Z;
  rx : option Z
}.

Record iface_data := {
  name : option string;
  months : list month_data
}.

Definition document := option (list iface_data).

Inductive scanned := Falls_through | Leaves (r : reading).

Definition month_value (cfg : Config) (md : month_data) : reading :=
  if String.eqb (TRAFFIC_DIRECTION cfg) "both" then
    match tx md, rx md with
    | Some t, Some r => Returns ((t + r) * 1024)
    | _, _ => Raises
    end
  else
    match tx md with
    | Some t => Returns (t * 1024)
    | None => Raises
    end.

Fixpoint scan_months (cfg : Config) (year month : Z) (l : list month_data) : scanned :=
  match l with
  | [] => Falls_through
  | md :: l' =>
      match date_year md with
      | None => Leaves Raises
      | Some y =>
          if y =? year then
            match date_month md with
            | None => Leaves Raises
            | Some m =>
                if m =? month then Leaves (month_value cfg md)
                else scan_months cfg year month l'
            end
          else scan_months cfg year month l'
      end
  end.

Fixpoint scan_interfaces (cfg : Config) (interface : string) (year month : Z)
    (l : list iface_data) : reading :=
  match l with
  | [] => Returns 0
  | d :: l' =>
      match name d with
      | None => Raises
      | Some n =>
          if String.eqb n interface then
            match scan_months cfg year month (months d) with
            | Leaves r => r
            | Falls_through => scan_interfaces cfg interface year month l'
            end
          else scan_interfaces cfg interface year month l'
      end
  end.

Definition read (cfg : Config) (doc : document) (interface : string)
    (year month : Z) : reading :=
  match doc with
  | None => Raises
  | Some l => scan_interfaces cfg interface year month l
  end.

Definition in_month (year month : Z) (md : month_data) : Prop :=
  date_year md = Some year /\ date_month md = Some month.

(** A month entry dated in another month than ([year], [month]). *)
Definition other_month (year month : Z) (md : month_data) : Prop :=
  exists y m, date_year md = Some y /\ date_month md = Some m
    /\ (y <> year \/ m <> month).

(** An interface entry that has a name and, if the name is [interface], no
    month entry dated ([year], [month]). *)
Definition no_record (interface : string) (year month : Z) (d : iface_data) : Prop :=
  exists n, name d = Some n
    /\ (n = interface -> Forall (other_month year month) (months d)).

End Vnstat.

(** ** The default interface (lines 144-171) *)

Module DefaultInterface.

(** [needle in line]. *)
Definition contains (needle line : string) : bool :=
  match String.index 0 needle line with
  | Some _ => true
  | None => false
  end.

Definition is_space (c : Ascii.ascii) : bool :=
  let n := Ascii.nat_of_ascii c in
  (n =? 32)%nat || ((9 <=? n)%nat && (n <=? 13)%nat)
  || ((28 <=? n)%nat && (n <=? 31)%nat).

(** [line.split()]: the maximal runs of characters that are not white space;
    [word] is the run being read, last character first. *)
Fixpoint split_from (word : string) (line : string) : list string :=
  let flush := match word with
               | EmptyString => []
               | _ => [String.rev word]
               end in
  match line with
  | EmptyString => flush
  | String c rest =>
      if is_space c then flush ++ split_from EmptyString rest
      else split_from (String c word) rest
  end.

Definition split (line : string) : list string := split_from EmptyString line.

(** [parts[parts.index("dev") + 1]]; [None] when either step raises. *)
Fixpoint after_dev (parts : list string) : option string :=
  match parts with
  | [] => None
  | p :: rest =>
      if String.eqb p "dev" then head rest else after_dev rest
  end.

Inductive routed := Failed | Returned (iface : string) | Fell_through.

(** The [for line in ...] loop of lines 157-162. *)
Fixpoint scan_routes (interfaces : list string) (lines : list string) : routed :=
  match lines with
  | [] => Fell_through
  | line :: rest =>
      if contains "dev" line then
        match after_dev (split line) with
        | None => Failed
        | Some iface =>
            if bool_decide (iface ∈ interfaces) then Returned iface
            else scan_routes interfaces rest
        end
      else scan_routes interfaces rest
  end.

(** What [ip route show default] gave: [None] when starting it raised,
    otherwise the return code and the lines of its output. *)
Definition get_default_interface (interfaces : list string)
    (ip_route : option (Z * list string)) : string :=
  match ip_route with
  | None => "eth0"
  | Some (returncode, lines) =>
      let scanned :=
        if (returncode =? 0) && negb (bool_decide (lines = []))
        then scan_routes interfaces lines
        else Fell_through in
      match scanned with
      | Returned iface => iface
      | Failed => "eth0"
      | Fell_through =>
          match interfaces with
          | first :: _ => first
          | [] => "eth0"
          end
      end
  end.

End DefaultInterface.

(** ** Vocabulary of the statements about a tick *)

(** [c] keeps the memory property [J] and emits only events satisfying [P],
    whether it completes or raises. *)
Definition keeps (J : Mem -> Prop) (P : event -> Prop) {A} (c : M A) : Prop :=
  forall m, J m -> J (mem_of (c m)) /\ Forall P (trace_of (c m)).

(** All fields but the two failure counters agree. *)
Definition counters_only (s s' : State) : Prop :=
  version s' = version s /\ cycle_start_ts s' = cycle_start_ts s
  /\ is_limiting s' = is_limiting s /\ is_blocked s' = is_blocked s
  /\ last_rate_kbps s' = last_rate_kbps s
  /\ last_daily_report s' = last_daily_report s
  /\ last_event_notification s' = last_event_notification s
  /\ last_status_notification s' = last_status_notification s
  /\ last_failure_notification s' = last_failure_notification s
  /\ detected_interfaces s' = detected_interfaces s.

(** No [tc] command is run for interface [i]. *)
Definition no_tc_for (i : string) (e : event) : Prop :=
  match e with
  | SetupTc j | UpdateTcLimit j _ | DisableTcLimit j => j <> i
  | _ => True
  end.

(** Interface [i] is tracked and not marked as initialised for [tc]. *)
Definition tc_less (i : string) (m : Mem) : Prop :=
  i ∈ detected_interfaces (state m)
  /\ default false (tc_initialized m !! i) = false.

(** If [c] completes from a memory satisfying [pre], its value and the
    memory it leaves satisfy [post]. *)
Definition hoare (pre : Mem -> Prop) {A} (c : M A) (post : A -> Mem -> Prop) : Prop :=
  forall m, pre m -> forall a, result_of (c m) = Done a -> post a (mem_of (c m)).

(** No state is written to the state file. *)
Definition nothing_saved (e : event) : Prop :=
  match e with SaveState _ => False | _ => True end.

(** When [c] completes, its last two steps are saving the state it ends
    with and sleeping [u] seconds, and nothing was saved before; when it
    raises, nothing was saved. *)
Definition persists_last (u : Z) (c : M unit) : Prop :=
  forall m,
    match result_of (c m) with
    | Done _ =>
        exists t', trace_of (c m) = t' ++ [SaveState (state (mem_of (c m))); Sleep u]
                   /\ Forall nothing_saved t'
    | Raised => Forall nothing_saved (trace_of (c m))
    end.

(** The body of the loop of lines 592-605. *)
Definition track (env : Env) (iface : string) : M unit :=
  s <- get_state ;;
  if bool_decide (iface ∈ detected_interfaces s) then ret tt
  else
    modify_state (fun s => set_detected_interfaces (detected_interfaces s ++ [iface]) s) ;;
    init_tc env iface.

(** The time of the last daily report, as the loop reads it (line 491). *)
Definition last_report_is (x : Q) (s : State) : Prop :=
  default 0%Q (last_daily_report s) = x.

(** * Properties *)

(** ** The rate formula *)

Section RateFormula.
Variable cfg : Config.

Lemma py_max_spec (a b : Q) : (py_max a b == Qmax a b)%Q.
Proof.
  unfold py_max. destruct (Qle_bool b a) eqn:E.
  - apply Qle_bool_iff in E. symmetry. apply Q.max_l. exact E.
  - symmetry. apply Q.max_r. apply Qnot_lt_le. intros H.
    apply Qlt_le_weak in H. apply Qle_bool_iff in H. congruence.
Qed.

Lemma py_max_lower_l (a b : Q) : (a <= py_max a b)%Q.
Proof.
  unfold py_max. destruct (Qle_bool b a) eqn:E.
  - apply Qle_refl.
  - apply Qnot_lt_le. intros H. apply Qlt_le_weak in H.
    apply Qle_bool_iff in H. congruence.
Qed.

Lemma py_max_mono (a b b' : Q) : (b <= b' -> py_max a b <= py_max a b')%Q.
Proof.
  intros H. rewrite !py_max_spec. apply Q.max_le_compat_l. exact H.
Qed.

Lemma GiB_pos : (0 < GiB)%Q.
Proof. reflexivity. Qed.

Lemma inject_Z_pos (t : Z) : 1 <= t -> (0 < inject_Z t)%Q.
Proof. intros H. change 0%Q with (inject_Z 0). rewrite <- Zlt_Qlt. lia. Qed.

Lemma time_remaining_sec_pos cycle now : 1 <= time_remaining_sec cycle now.
Proof. unfold time_remaining_sec. lia. Qed.

Lemma safe_remaining_gb_nonneg (r : Q) : (0 <= safe_remaining_gb cfg r)%Q.
Proof. apply py_max_lower_l. Qed.

Lemma safe_remaining_gb_mono (r1 r2 : Q) :
  (r1 <= r2 -> safe_remaining_gb cfg r1 <= safe_remaining_gb cfg r2)%Q.
Proof. intros H. apply py_max_mono. lra. Qed.

Lemma target_rate_bps_nonneg (r : Q) (t : Z) :
  (0 <= SAFETY_FACTOR cfg)%Q -> 1 <= t -> (0 <= target_rate_bps cfg r t)%Q.
Proof.
  intros Hsf Ht. unfold target_rate_bps.
  apply Qle_shift_div_l; [now apply inject_Z_pos|].
  pose proof (safe_remaining_gb_nonneg r) as Hs.
  pose proof GiB_pos as Hg.
  rewrite Qmult_0_l.
  repeat apply Qmult_le_0_compat; try assumption; try lra.
Qed.

Lemma target_rate_bps_mono_remaining (r1 r2 : Q) (t : Z) :
  (0 <= SAFETY_FACTOR cfg)%Q -> 1 <= t -> (r1 <= r2)%Q ->
  (target_rate_bps cfg r1 t <= target_rate_bps cfg r2 t)%Q.
Proof.
  intros Hsf Ht Hr. unfold target_rate_bps, Qdiv.
  pose proof (safe_remaining_gb_mono r1 r2 Hr) as Hs.
  pose proof GiB_pos as Hg.
  apply Qmult_le_compat_r.
  - apply Qmult_le_compat_r; [|exact Hsf].
    apply Qmult_le_compat_r; [|lra].
    apply Qmult_le_compat_r; [exact Hs|lra].
  - apply Qinv_le_0_compat. apply Qlt_le_weak. now apply inject_Z_pos.
Qed.

Lemma target_rate_bps_anti_time (r : Q) (t1 t2 : Z) :
  (0 <= SAFETY_FACTOR cfg)%Q -> 1 <= t1 -> t1 <= t2 ->
  (target_rate_bps cfg r t2 <= target_rate_bps cfg r t1)%Q.
Proof.
  intros Hsf H1 H12.
  assert (Ht1 : (0 < inject_Z t1)%Q) by now apply inject_Z_pos.
  assert (Ht2 : (0 < inject_Z t2)%Q) by (apply inject_Z_pos; lia).
  pose proof (target_rate_bps_nonneg r t1 Hsf H1) as Hn.
  unfold target_rate_bps in *.
  set (x := (safe_remaining_gb cfg r * GiB * 8 * SAFETY_FACTOR cfg)%Q) in *.
  apply Qle_shift_div_r; [exact Ht2|].
  assert (Hle : (inject_Z t1 <= inject_Z t2)%Q) by now rewrite <- Zle_Qle.
  assert (Hx : (x == x / inject_Z t1 * inject_Z t1)%Q).
  { field. intros E. rewrite E in Ht1. now apply Qlt_irrefl in Ht1. }
  rewrite Hx at 1.
  rewrite !(Qmult_comm (x / inject_Z t1)).
  apply Qmult_le_compat_r; assumption.
Qed.

Lemma used_percent_le_remaining (b1 b2 : Z) :
  (0 < TOTAL_QUOTA_GB cfg)%Q ->
  (used_percent cfg b1 <= used_percent cfg b2)%Q ->
  (remaining_gb cfg b2 <= remaining_gb cfg b1)%Q.
Proof.
  unfold used_percent, remaining_gb. intros Hq H.
  set (g1 := total_gb_used b1) in *. set (g2 := total_gb_used b2) in *.
  assert (Hg : (g1 <= g2)%Q).
  { apply Qmult_le_r with (z := (/ TOTAL_QUOTA_GB cfg * 100)%Q).
    - apply Qmult_lt_0_compat; [now apply Qinv_lt_0_compat | reflexivity].
    - unfold Qdiv in H. rewrite !Qmult_assoc. exact H. }
  lra.
Qed.

Lemma div_1000_mono (x y : Q) : (x <= y -> x / 1000 <= y / 1000)%Q.
Proof. intros H. unfold Qdiv. apply Qmult_le_compat_r; [exact H | discriminate]. Qed.

End RateFormula.

(** ** Invariants of monadic code *)

Section Invariants.
Variable J : State -> Prop.
Variable P : event -> Prop.

Lemma inv_ret {A} (a : A) : inv J P (ret a).
Proof. intros m Hm. split; [exact Hm | constructor]. Qed.

Lemma inv_raise {A} : inv J P (@raise A).
Proof. intros m Hm. split; [exact Hm | constructor]. Qed.

Lemma inv_bind {A B} (c : M A) (k : A -> M B) :
  inv J P c -> (forall a, inv J P (k a)) -> inv J P (bind c k).
Proof.
  intros Hc Hk m Hm. unfold bind.
  destruct (Hc m Hm) as [H1 H2].
  destruct (result_of (c m)) as [a|]; simpl.
  - destruct (Hk a _ H1) as [H3 H4]. split; [exact H3|].
    apply Forall_app. split; assumption.
  - split; assumption.
Qed.

Lemma inv_get_state : inv J P get_state.
Proof. intros m Hm. split; [exact Hm | constructor]. Qed.

Lemma inv_get_tc_initialized : inv J P get_tc_initialized.
Proof. intros m Hm. split; [exact Hm | constructor]. Qed.

Lemma inv_set_tc_initialized i b : inv J P (set_tc_initialized i b).
Proof. intros m Hm. split; [exact Hm | constructor]. Qed.

Lemma inv_emit e : P e -> inv J P (emit e).
Proof. intros He m Hm. split; [exact Hm | repeat constructor; exact He]. Qed.

Lemma inv_modify_state f : (forall s, J s -> J (f s)) -> inv J P (modify_state f).
Proof. intros Hf m Hm. split; [apply Hf; exact Hm | constructor]. Qed.

Lemma inv_for_each {X} (l : list X) (body : X -> M unit) :
  (forall x, inv J P (body x)) -> inv J P (for_each l body).
Proof.
  intros Hb. induction l as [|x l IH]; simpl.
  - apply inv_ret.
  - apply inv_bind; [apply Hb | intros _; exact IH].
Qed.

Lemma inv_if {A} (b : bool) (c1 c2 : M A) :
  inv J P c1 -> inv J P c2 -> inv J P (if b then c1 else c2).
Proof. destruct b; auto. Qed.

Lemma inv_send_telegram cfg n : P (Telegram n) -> inv J P (send_telegram cfg n).
Proof.
  intros Hn. unfold send_telegram. apply inv_if.
  - apply inv_bind; [apply inv_emit; exact Hn | intros; apply inv_ret].
  - apply inv_ret.
Qed.

Lemma inv_disable_tc_limit env i :
  P (DisableTcLimit i) -> inv J P (disable_tc_limit env i).
Proof.
  intros Hd. unfold disable_tc_limit. apply inv_if; [apply inv_raise|].
  apply inv_bind; [apply inv_emit; exact Hd | intros; apply inv_ret].
Qed.

Lemma inv_update_tc_limit env i r :
  P (UpdateTcLimit i r) -> inv J P (update_tc_limit env i r).
Proof.
  intros Hd. unfold update_tc_limit. apply inv_if; [apply inv_raise|].
  apply inv_bind; [apply inv_emit; exact Hd | intros; apply inv_ret].
Qed.

End Invariants.

(** Every [update_tc_limit] call of the limiting pass carries the rate of
    the formula. *)
Lemma limit_control_rate cfg env used remaining t :
  inv (fun _ => True) (rate_is (target_rate_kbps cfg remaining t))
      (limit_control cfg env used remaining t).
Proof.
  unfold limit_control.
  apply inv_bind; [apply inv_get_state|]. intros s.
  apply inv_bind.
  { apply inv_if; [|apply inv_ret].
    apply inv_bind; [apply inv_modify_state; auto|]. intros _.
    apply inv_bind; [apply inv_send_telegram; exact I | intros; apply inv_ret]. }
  intros _. apply inv_bind; [apply inv_get_state|]. intros s'.
  assert (Hdis : forall l, inv (fun _ => True) (rate_is (target_rate_kbps cfg remaining t))
            (for_each l (fun interface =>
               tc <- get_tc_initialized ;;
               if default false (tc !! interface)
               then (_ <- disable_tc_limit env interface ;; ret tt)
               else ret tt))).
  { intros l. apply inv_for_each. intros i.
    apply inv_bind; [apply inv_get_tc_initialized|]. intros tc.
    apply inv_if; [|apply inv_ret].
    apply inv_bind; [apply inv_disable_tc_limit; exact I | intros; apply inv_ret]. }
  apply inv_if; [|apply Hdis].
  apply inv_bind.
  - apply inv_for_each. intros i.
    apply inv_bind; [apply inv_get_tc_initialized|]. intros tc.
    apply inv_if; [|apply inv_ret].
    apply inv_bind; [apply inv_update_tc_limit; reflexivity|]. intros ok.
    apply inv_if; [apply inv_modify_state; auto | apply inv_ret].
  - intros _. apply inv_if; [|apply inv_ret].
    apply inv_bind; [apply Hdis|]. intros _.
    apply inv_bind; [apply inv_modify_state; auto|]. intros _.
    apply inv_bind; [apply inv_send_telegram; exact I | intros; apply inv_ret].
Qed.

(** C2. In a limiting tick the rate computed by lines 713-718 is the
    formula of the specification: the floor, or the remaining quota less the
    buffer, clamped at zero, spread over the seconds left (at least one);
    it is never below [MIN_RATE_KBPS], whatever the remaining quota, the
    clamped quota is never negative, and this rate is the one handed to
    every [update_tc_limit] call.  With a non-negative safety factor the
    rate in bits per second is not negative either, and an exhausted quota
    gives exactly the floor. *)
Theorem target_rate_formula_and_floor (cfg : Config) (remaining : Q)
    (cycle : Cycle) (now : Z) :
  let t := time_remaining_sec cycle now in
  (target_rate_kbps cfg remaining t
   == spec_target_kbps cfg remaining (cycle_end cycle) now)%Q
  /\ (MIN_RATE_KBPS cfg <= target_rate_kbps cfg remaining t)%Q
  /\ (0 <= safe_remaining_gb cfg remaining)%Q
  /\ (forall env used m,
        Forall (rate_is (target_rate_kbps cfg remaining t))
               (trace_of (limit_control cfg env used remaining t m)))
  /\ ((0 <= SAFETY_FACTOR cfg)%Q -> (0 <= target_rate_bps cfg remaining t)%Q)
  /\ ((remaining <= 0)%Q ->
      (0 <= TOTAL_QUOTA_GB cfg * BUFFER_PERCENT cfg)%Q ->
      (0 <= MIN_RATE_KBPS cfg)%Q ->
      target_rate_kbps cfg remaining t = MIN_RATE_KBPS cfg).
Proof.
  intros t. repeat split.
  - unfold target_rate_kbps, target_rate_bps, safe_remaining_gb,
      spec_target_kbps, t, time_remaining_sec.
    rewrite py_max_spec. apply Q.max_compat; [reflexivity|].
    rewrite py_max_spec. reflexivity.
  - apply py_max_lower_l.
  - apply safe_remaining_gb_nonneg.
  - intros env used m. apply (limit_control_rate cfg env used remaining t m I).
  - intros Hsf. apply target_rate_bps_nonneg; [exact Hsf|].
    apply time_remaining_sec_pos.
  - intros Hr Hb Hmin.
    assert (Hsafe : safe_remaining_gb cfg remaining = 0%Q).
    { unfold safe_remaining_gb, py_max.
      destruct (Qle_bool _ 0) eqn:E; [reflexivity|].
      assert (Hle : (remaining - TOTAL_QUOTA_GB cfg * BUFFER_PERCENT cfg / 100 <= 0)%Q).
      { assert ((0 <= TOTAL_QUOTA_GB cfg * BUFFER_PERCENT cfg / 100)%Q).
        { apply Qle_shift_div_l; [reflexivity | lra]. }
        lra. }
      apply Qle_bool_iff in Hle. congruence. }
    unfold target_rate_kbps, target_rate_bps. rewrite Hsafe.
    unfold py_max.
    destruct (Qle_bool _ (MIN_RATE_KBPS cfg)) eqn:E; [reflexivity|].
    assert (Hle : (0 * GiB * 8 * SAFETY_FACTOR cfg / inject_Z t / 1000
                   <= MIN_RATE_KBPS cfg)%Q).
    { unfold Qdiv. rewrite !Qmult_0_l. exact Hmin. }
    apply Qle_bool_iff in Hle. congruence.
Qed.

Lemma target_rate_formula_and_floor_witness :
  (0 <= SAFETY_FACTOR default_config)%Q
  /\ (0 <= target_rate_bps default_config (-5)
            (time_remaining_sec {| cycle_start := 0; cycle_end := 432000 |} 0))%Q
  /\ target_rate_kbps default_config (-5)
       (time_remaining_sec {| cycle_start := 0; cycle_end := 432000 |} 0)
     = MIN_RATE_KBPS default_config.
Proof.
  pose proof (target_rate_formula_and_floor default_config (-5)
                {| cycle_start := 0; cycle_end := 432000 |} 0) as H.
  destruct H as (_ & _ & _ & _ & Hbps & Hfloor).
  split; [discriminate|]. split.
  - apply Hbps. discriminate.
  - apply Hfloor; discriminate.
Defined.

(** C4, as amended.  With a positive quota and a non-negative safety
    factor the rate of lines 713-718 does not increase when the used
    percentage increases and the time remaining is fixed; with the usage
    fixed it does not decrease when the time remaining decreases, since the
    same quota is spread over fewer seconds. *)
Theorem target_rate_monotone (cfg : Config) :
  (0 < TOTAL_QUOTA_GB cfg)%Q -> (0 <= SAFETY_FACTOR cfg)%Q ->
  (forall (b1 b2 t : Z), 1 <= t ->
     (used_percent cfg b1 <= used_percent cfg b2)%Q ->
     (target_rate_kbps cfg (remaining_gb cfg b2) t
      <= target_rate_kbps cfg (remaining_gb cfg b1) t)%Q)
  /\ (forall (b t1 t2 : Z), 1 <= t1 -> t1 <= t2 ->
     (target_rate_kbps cfg (remaining_gb cfg b) t2
      <= target_rate_kbps cfg (remaining_gb cfg b) t1)%Q).
Proof.
  intros Hq Hsf. split.
  - intros b1 b2 t Ht Hu. unfold target_rate_kbps.
    apply py_max_mono, div_1000_mono.
    apply target_rate_bps_mono_remaining; [exact Hsf | exact Ht |].
    apply used_percent_le_remaining; assumption.
  - intros b t1 t2 H1 H12. unfold target_rate_kbps.
    apply py_max_mono, div_1000_mono.
    apply target_rate_bps_anti_time; assumption.
Qed.

Lemma target_rate_monotone_witness :
  (target_rate_kbps default_config (remaining_gb default_config (950 * 1024 ^ 3)) 432000
   <= target_rate_kbps default_config (remaining_gb default_config (905 * 1024 ^ 3)) 432000)%Q
  /\ (target_rate_kbps default_config (remaining_gb default_config (905 * 1024 ^ 3)) 432000
      <= target_rate_kbps default_config (remaining_gb default_config (905 * 1024 ^ 3)) 216000)%Q.
Proof.
  destruct (target_rate_monotone default_config) as [Husage Htime];
    [reflexivity | discriminate |].
  split.
  - apply Husage; [lia | vm_compute; discriminate].
  - apply Htime; lia.
Defined.

(** C4 as the specification states it fails on the time axis: at 905 GB
    used of 1000 GB, halving the time remaining from 432000 s to 216000 s
    raises the rate. *)
Lemma target_rate_rises_as_time_runs_out :
  let b := 905 * 1024 ^ 3 in
  216000 <= 432000
  /\ ~ (target_rate_kbps default_config (remaining_gb default_config b) 216000
        <= target_rate_kbps default_config (remaining_gb default_config b) 432000)%Q.
Proof.
  split; [lia|]. apply Qlt_not_le. reflexivity.
Qed.

(** ** The usage sampler *)

Section Sampler.
Variable cfg : Config.

Lemma sysfs_fallback_frame p i s :
  same_control s (sysfs_fallback cfg p i s).1.2
  /\ Forall is_read (sysfs_fallback cfg p i s).2.
Proof.
  unfold sysfs_fallback, same_control.
  destruct (get_sysfs_data cfg p); simpl; repeat split; repeat constructor.
Qed.

Lemma get_current_bytes_frame p i s :
  same_control s (get_current_bytes cfg p i s).1.2
  /\ Forall is_read (get_current_bytes cfg p i s).2.
Proof.
  unfold get_current_bytes.
  destruct (vnstat_installed p).
  - destruct (get_vnstat_data p).
    + simpl. unfold same_control. repeat split; repeat constructor.
    + pose proof (sysfs_fallback_frame p i
        (set_vnstat_failures (default 0 (vnstat_failures s) + 1) s)) as [H1 H2].
      destruct (sysfs_fallback cfg p i _) as [[v s'] t]. simpl in *.
      split; [exact H1 | constructor; [exact I | exact H2]].
  - apply (sysfs_fallback_frame p i
        (set_vnstat_failures (default 0 (vnstat_failures s) + 1) s)).
Qed.

(** One sample when the primary source fails. *)
Lemma get_current_bytes_primary_fails p i s :
  primary_fails p ->
  let r := get_current_bytes cfg p i s in
  r.1.1 = default 0 (get_sysfs_data cfg p)
  /\ vnstat_failures r.1.2 = Some (default 0 (vnstat_failures s) + 1)
  /\ sysfs_failures r.1.2 =
       match get_sysfs_data cfg p with
       | Some _ => Some 0
       | None => Some (default 0 (sysfs_failures s) + 1)
       end
  /\ SysfsRead i ∈ r.2.
Proof.
  intros Hp. unfold get_current_bytes, sysfs_fallback.
  destruct (vnstat_installed p) eqn:Ev.
  - destruct Hp as [Hp|Hp]; [congruence|]. rewrite Hp.
    destruct (get_sysfs_data cfg p); simpl; repeat split;
      apply list_elem_of_In; simpl; auto.
  - destruct (get_sysfs_data cfg p); simpl; repeat split;
      apply list_elem_of_In; simpl; auto.
Qed.

(** One sample when [vnstat] is not installed: no primary read at all. *)
Lemma get_current_bytes_vnstat_absent p i s :
  vnstat_installed p = false ->
  Forall not_vnstat_read (get_current_bytes cfg p i s).2.
Proof.
  intros Hp. unfold get_current_bytes, sysfs_fallback. rewrite Hp.
  destruct (get_sysfs_data cfg p); simpl; repeat constructor.
Qed.

(** Repeated samples while the primary source keeps failing. *)
Lemma sample_run_primary_fails i ps : forall s,
  Forall primary_fails ps ->
  let r := sample_run cfg i ps s in
  default 0 (vnstat_failures r.1.2)
    = default 0 (vnstat_failures s) + Z.of_nat (length ps)
  /\ r.1.1 = map (fun p => default 0 (get_sysfs_data cfg p)) ps.
Proof.
  induction ps as [|p ps IH]; intros s Hps.
  - simpl. split; [lia | reflexivity].
  - apply Forall_cons in Hps as [Hp Hps'].
    pose proof (get_current_bytes_primary_fails p i s Hp) as (Hv & Hn & _).
    cbn [sample_run].
    destruct (get_current_bytes cfg p i s) as [[v s1] t1]. simpl in Hv, Hn.
    specialize (IH s1 Hps').
    destruct (sample_run cfg i ps s1) as [[vs s2] t2]. simpl in *.
    destruct IH as [IH1 IH2]. rewrite IH1, Hn, Hv, IH2. simpl.
    split; [lia | reflexivity].
Qed.

Lemma sample_run_fallback_counter i ps : forall s,
  Forall (fun p => primary_fails p /\ is_Some (get_sysfs_data cfg p)) ps ->
  default 0 (sysfs_failures s) = 0 ->
  default 0 (sysfs_failures (sample_run cfg i ps s).1.2) = 0.
Proof.
  induction ps as [|p ps IH]; intros s Hps H0.
  - exact H0.
  - apply Forall_cons in Hps as [[Hp [v Hv]] Hps'].
    pose proof (get_current_bytes_primary_fails p i s Hp) as (_ & _ & Hn & _).
    cbn [sample_run].
    destruct (get_current_bytes cfg p i s) as [[v1 s1] t1]. simpl in Hn.
    rewrite Hv in Hn.
    specialize (IH s1 Hps').
    destruct (sample_run cfg i ps s1) as [[vs s2] t2]. simpl in *.
    apply IH. rewrite Hn. reflexivity.
Qed.

Lemma sample_run_vnstat_absent i ps : forall s,
  Forall (fun p => vnstat_installed p = false) ps ->
  Forall not_vnstat_read (sample_run cfg i ps s).2.
Proof.
  induction ps as [|p ps IH]; intros s Hps.
  - constructor.
  - apply Forall_cons in Hps as [Hp Hps'].
    pose proof (get_current_bytes_vnstat_absent p i s Hp) as Ht.
    cbn [sample_run].
    destruct (get_current_bytes cfg p i s) as [[v1 s1] t1]. simpl in Ht.
    specialize (IH s1 Hps').
    destruct (sample_run cfg i ps s1) as [[vs s2] t2]. simpl in *.
    apply Forall_app. split; assumption.
Qed.

End Sampler.

(** C5. [get_current_bytes]: when the primary source succeeds its counter
    is reset to zero and its value returned, the fallback is not read and
    its counter is untouched; when the primary source fails its counter
    grows by one and the fallback is read, whose success resets the
    fallback counter and returns its value, and whose failure adds one to
    the fallback counter and returns zero; a sample never raises.  If the
    primary source fails on every one of N samples while the fallback
    succeeds, then, starting from zero counters, the primary counter ends at
    N, the fallback counter at zero, and each value is the fallback's. *)
Theorem sampler_fallback_policy (cfg : Config) :
  (forall p i s v,
     vnstat_installed p = true -> get_vnstat_data p = Some v ->
     let r := get_current_bytes cfg p i s in
     r.1.1 = v /\ vnstat_failures r.1.2 = Some 0
     /\ sysfs_failures r.1.2 = sysfs_failures s
     /\ Forall not_sysfs_read r.2)
  /\ (forall p i s,
     primary_fails p ->
     let r := get_current_bytes cfg p i s in
     vnstat_failures r.1.2 = Some (default 0 (vnstat_failures s) + 1)
     /\ SysfsRead i ∈ r.2
     /\ match get_sysfs_data cfg p with
        | Some v => r.1.1 = v /\ sysfs_failures r.1.2 = Some 0
        | None =>
            r.1.1 = 0
            /\ sysfs_failures r.1.2 = Some (default 0 (sysfs_failures s) + 1)
        end)
  /\ (forall p i m, exists v, result_of (sample cfg p i m) = Done v)
  /\ (forall i ps s,
     Forall (fun p => primary_fails p /\ is_Some (get_sysfs_data cfg p)) ps ->
     default 0 (vnstat_failures s) = 0 ->
     default 0 (sysfs_failures s) = 0 ->
     let r := sample_run cfg i ps s in
     default 0 (vnstat_failures r.1.2) = Z.of_nat (length ps)
     /\ default 0 (sysfs_failures r.1.2) = 0
     /\ Forall2 (fun p v => get_sysfs_data cfg p = Some v) ps r.1.1).
Proof.
  split; [|split; [|split]].
  - intros p i s v Hi Hv. unfold get_current_bytes. rewrite Hi, Hv. simpl.
    repeat split. repeat constructor.
  - intros p i s Hp.
    pose proof (get_current_bytes_primary_fails cfg p i s Hp) as (Hv & Hn & Hs & Ht).
    simpl. split; [exact Hn|]. split; [exact Ht|].
    destruct (get_sysfs_data cfg p); simpl in Hv; split; assumption.
  - intros p i m. unfold sample.
    destruct (get_current_bytes cfg p i (state m)) as [[v s'] t].
    exists v. reflexivity.
  - intros i ps s Hps Hv0 Hs0.
    assert (Hpf : Forall primary_fails ps).
    { eapply Forall_impl; [exact Hps | intros p [Hp _]; exact Hp]. }
    pose proof (sample_run_primary_fails cfg i ps s Hpf) as [Hn Hvals].
    pose proof (sample_run_fallback_counter cfg i ps s Hps Hs0) as Hs.
    simpl. split; [lia|]. split; [exact Hs|].
    rewrite Hvals. clear -Hps.
    induction ps as [|p ps IH]; [constructor|].
    apply Forall_cons in Hps as [[_ [v Hv]] Hps'].
    simpl. constructor; [rewrite Hv; reflexivity | apply IH; exact Hps'].
Qed.

Lemma sampler_fallback_policy_witness :
  let p v := {| vnstat_installed := true; vnstat_read := Raises;
                sysfs_tx := Returns v; sysfs_rx := Raises |} in
  let r := sample_run default_config "eth0" [p 10; p 20; p 30; p 40; p 50]
                      default_state in
  default 0 (vnstat_failures r.1.2) = 5
  /\ default 0 (sysfs_failures r.1.2) = 0
  /\ Forall2 (fun p v => get_sysfs_data default_config p = Some v)
             [p 10; p 20; p 30; p 40; p 50] r.1.1.
Proof.
  intros p r.
  destruct (sampler_fallback_policy default_config) as (_ & _ & _ & H).
  apply (H "eth0" [p 10; p 20; p 30; p 40; p 50] default_state).
  - repeat constructor; try (right; reflexivity); eexists; reflexivity.
  - reflexivity.
  - reflexivity.
Defined.

(** C10. While [vnstat] is not installed every sample adds one to the
    primary failure counter without any primary read, so after more samples
    than [VNSTAT_FAILURE_LIMIT] the counter is above the limit although no
    [vnstat] invocation failed. *)
Theorem vnstat_absent_counts_as_failure (cfg : Config) (i : string)
    (ps : list Probe) (s : State) :
  Forall (fun p => vnstat_installed p = false) ps ->
  let r := sample_run cfg i ps s in
  default 0 (vnstat_failures r.1.2)
    = default 0 (vnstat_failures s) + Z.of_nat (length ps)
  /\ Forall not_vnstat_read r.2
  /\ (0 <= default 0 (vnstat_failures s) ->
      VNSTAT_FAILURE_LIMIT cfg < Z.of_nat (length ps) ->
      VNSTAT_FAILURE_LIMIT cfg < default 0 (vnstat_failures r.1.2)).
Proof.
  intros Hps r.
  assert (Hpf : Forall primary_fails ps).
  { eapply Forall_impl; [exact Hps | intros p Hp; left; exact Hp]. }
  pose proof (sample_run_primary_fails cfg i ps s Hpf) as [Hn _].
  fold r in Hn. split; [exact Hn|]. split.
  - apply sample_run_vnstat_absent. exact Hps.
  - intros H0 Hlim. lia.
Qed.

Lemma vnstat_absent_counts_as_failure_witness :
  let p := {| vnstat_installed := false; vnstat_read := Returns 7;
              sysfs_tx := Returns 100; sysfs_rx := Raises |} in
  let r := sample_run default_config "eth0" [p; p; p; p; p; p] default_state in
  Forall (fun p => vnstat_installed p = false) [p; p; p; p; p; p]
  /\ default 0 (vnstat_failures r.1.2) = 6
  /\ Forall not_vnstat_read r.2
  /\ VNSTAT_FAILURE_LIMIT default_config < default 0 (vnstat_failures r.1.2).
Proof.
  intros p r.
  assert (Hps : Forall (fun p => vnstat_installed p = false) [p; p; p; p; p; p])
    by (repeat constructor).
  destruct (vnstat_absent_counts_as_failure default_config "eth0"
              [p; p; p; p; p; p] default_state Hps) as (H1 & H2 & H3).
  split; [exact Hps|]. split; [exact H1|]. split; [exact H2|].
  apply H3; [simpl; lia | simpl; lia].
Defined.

(** ** The cycle reset *)

Section CycleReset.
Variables (cfg : Config) (env : Env) (cycle : Cycle) (t : Z).

Lemma rollover_due_spec s :
  rollover_due cycle t s = true
  <-> (cycle_end cycle < t \/ cycle_start_ts s <> cycle_start cycle).
Proof.
  unfold rollover_due. rewrite orb_true_iff, Z.ltb_lt, negb_true_iff, Z.eqb_neq.
  reflexivity.
Qed.

Lemma fresh_state_idempotent s :
  fresh_state cycle (fresh_state cycle s) = fresh_state cycle s.
Proof. reflexivity. Qed.

Lemma release_run i m :
  mem_of (release env i m) = m
  /\ (tc_oserror env i = false -> result_of (release env i m) = Done tt)
  /\ (is_blocked (state m) = false -> is_limiting (state m) = false ->
      release env i m = ret tt m).
Proof.
  destruct (is_blocked (state m)) eqn:Eb, (is_limiting (state m)) eqn:El,
    (default false (tc_initialized m !! i)) eqn:Etc, (tc_oserror env i) eqn:Eos;
    unfold release, bind, get_state, get_tc_initialized, unblock_network,
      disable_tc_limit, emit, ret, raise;
    repeat (simpl; rewrite ?Eb, ?El, ?Etc, ?Eos);
    repeat split; intros; congruence.
Qed.

Lemma release_all_mem l : forall m, mem_of (for_each l (release env) m) = m.
Proof.
  induction l as [|i l IH]; intros m; [reflexivity|].
  cbn [for_each]. unfold bind.
  destruct (release_run i m) as (Hm & _ & _).
  destruct (result_of (release env i m)); simpl; [|exact Hm].
  rewrite IH. exact Hm.
Qed.

Lemma release_all_done l : forall m,
  (forall i, i ∈ l -> tc_oserror env i = false) ->
  result_of (for_each l (release env) m) = Done tt.
Proof.
  induction l as [|i l IH]; intros m Hl; [reflexivity|].
  cbn [for_each]. unfold bind.
  destruct (release_run i m) as (Hm & Hd & _).
  rewrite Hd by (apply Hl; left). simpl.
  apply IH. intros j Hj. apply Hl. right. exact Hj.
Qed.

Lemma release_all_idle l : forall m,
  is_blocked (state m) = false -> is_limiting (state m) = false ->
  for_each l (release env) m = ret tt m.
Proof.
  induction l as [|i l IH]; intros m Hb Hl; [reflexivity|].
  cbn [for_each]. unfold bind.
  destruct (release_run i m) as (_ & _ & Hidle).
  rewrite (Hidle Hb Hl). simpl. rewrite (IH m Hb Hl). reflexivity.
Qed.

(** The handler does nothing when the trigger is off. *)
Lemma cycle_reset_idle m :
  rollover_due cycle t (state m) = false ->
  cycle_reset cfg env cycle t m = ret tt m.
Proof.
  intros H. unfold cycle_reset, bind, get_state. simpl. rewrite H. reflexivity.
Qed.

(** When the trigger is on, the handler either completes with the fresh
    record or raises and leaves the memory as it was. *)
Lemma cycle_reset_fires m :
  rollover_due cycle t (state m) = true ->
  let r := cycle_reset cfg env cycle t m in
  (result_of r = Done tt
   /\ mem_of r = {| state := fresh_state cycle (state m);
                    tc_initialized := tc_initialized m |})
  \/ (result_of r = Raised /\ mem_of r = m).
Proof.
  intros H. cbv zeta. unfold cycle_reset, bind, get_state. simpl. rewrite H.
  pose proof (release_all_mem (detected_interfaces (state m)) m) as Hm.
  destruct (result_of (for_each _ (release env) m)) as [[]|]; simpl.
  - left. rewrite Hm. unfold send_telegram.
    destruct (TELEGRAM_ENABLED cfg), (telegram_ready cfg); simpl; auto.
  - right. auto.
Qed.

Lemma cycle_reset_completes m :
  rollover_due cycle t (state m) = true ->
  tc_spawns env (state m) ->
  result_of (cycle_reset cfg env cycle t m) = Done tt.
Proof.
  intros H Hs. unfold cycle_reset, bind, get_state. simpl. rewrite H.
  rewrite (release_all_done _ m Hs). simpl.
  unfold send_telegram.
  destruct (TELEGRAM_ENABLED cfg), (telegram_ready cfg); reflexivity.
Qed.

End CycleReset.

(** The reset of lines 613-643 when [tc] can be spawned.  It triggers
    exactly when the clock is past the cycle end or the stored cycle start
    differs from the computed one.  Without the trigger nothing happens.
    With it, and with [tc] runnable for the tracked interfaces, the handler
    completes and the state is a fresh record: both flags off (NORMAL),
    [last_rate_kbps] and both failure counters zero, [cycle_start_ts] the
    computed start, while the four notification timestamps, the interface
    list and the version read as before. *)
Theorem cycle_reset_effect (cfg : Config) (env : Env) (cycle : Cycle)
    (t : Z) (m : Mem) :
  let s := state m in
  let r := cycle_reset cfg env cycle t m in
  (rollover_due cycle t s = true
   <-> (cycle_end cycle < t \/ cycle_start_ts s <> cycle_start cycle))
  /\ (rollover_due cycle t s = false ->
      r = {| mem_of := m; trace_of := []; result_of := Done tt |})
  /\ (rollover_due cycle t s = true -> tc_spawns env s ->
      let s' := state (mem_of r) in
      result_of r = Done tt
      /\ tc_initialized (mem_of r) = tc_initialized m
      /\ control_state s' = NORMAL
      /\ is_limiting s' = false /\ is_blocked s' = false
      /\ last_rate_kbps s' = 0%Q
      /\ vnstat_failures s' = Some 0 /\ sysfs_failures s' = Some 0
      /\ cycle_start_ts s' = cycle_start cycle
      /\ default 0%Q (last_daily_report s') = default 0%Q (last_daily_report s)
      /\ default 0%Q (last_event_notification s')
         = default 0%Q (last_event_notification s)
      /\ default 0%Q (last_status_notification s')
         = default 0%Q (last_status_notification s)
      /\ default 0%Q (last_failure_notification s')
         = default 0%Q (last_failure_notification s)
      /\ detected_interfaces s' = detected_interfaces s
      /\ default 1 (version s') = default 1 (version s)).
Proof.
  intros s r. split; [apply rollover_due_spec|]. split.
  - intros H. apply cycle_reset_idle. exact H.
  - intros H Hs.
    pose proof (cycle_reset_completes cfg env cycle t m H Hs) as Hd.
    pose proof (cycle_reset_fires cfg env cycle t m H) as Hf.
    cbv zeta in Hf. fold r in Hd, Hf.
    destruct Hf as [[_ Hm]|[Hr _]]; [|congruence].
    cbv zeta. rewrite Hm. simpl. repeat split. exact Hd.
Qed.

Lemma cycle_reset_effect_witness :
  let cycle := {| cycle_start := 1672531200; cycle_end := 1675209599 |} in
  let env := {| interfaces := []; tc_found := true; tc_oserror := fun _ => false;
                tz := 0;
                clock_cycle := midnight 2023 1 5; clock_tick := 1672876800;
                clock_report_hour := 0; clock_report := 0%Q;
                clock_report_sent := 0%Q;
                report_probe := fun _ => {| vnstat_installed := false;
                                            vnstat_read := Raises;
                                            sysfs_tx := Raises; sysfs_rx := Raises |};
                probe := fun _ => {| vnstat_installed := false;
                                     vnstat_read := Raises;
                                     sysfs_tx := Raises; sysfs_rx := Raises |} |} in
  let s := set_is_blocked true (set_detected_interfaces ["eth0"] default_state) in
  let m := {| state := s; tc_initialized := ∅ |} in
  let r := cycle_reset default_config env cycle 1672876800 m in
  rollover_due cycle 1672876800 s = true
  /\ tc_spawns env s
  /\ result_of r = Done tt
  /\ control_state (state (mem_of r)) = NORMAL
  /\ cycle_start_ts (state (mem_of r)) = 1672531200
  /\ detected_interfaces (state (mem_of r)) = ["eth0"].
Proof.
  intros cycle env s m r.
  assert (Hdue : rollover_due cycle 1672876800 s = true) by reflexivity.
  assert (Hsp : tc_spawns env s) by (intros i _; reflexivity).
  destruct (cycle_reset_effect default_config env cycle 1672876800 m)
    as (_ & _ & H).
  destruct (H Hdue Hsp) as (H1 & _ & H3 & _ & _ & _ & _ & _ & H9 & _ & _ & _ & _ & H14 & _).
  repeat split; assumption.
Defined.

(** C6 (defect of the code).  The reset does not always replace the state
    when it triggers.  The script starts in January with [tc] working and a saved state that is
    limiting; at the tick of 2023-02-01 00:00:00 the trigger is on, but
    spawning [tc] raises ([OSError]: the program was removed, or the process
    cannot be started).  [disable_tc_limit], called at line 621 before the
    state literal of line 630, catches only [CalledProcessError], which
    [check=False] never raises, so the error leaves the handler: the reset
    and the whole tick raise, and the state is the old one, still limiting
    and with January's cycle start. *)
Theorem cycle_reset_raises_before_replacing :
  let p := {| vnstat_installed := true; vnstat_read := Returns (950 * 1024 ^ 3);
              sysfs_tx := Raises; sysfs_rx := Raises |} in
  let host oserror now tick_time :=
    {| interfaces := ["eth0"]; tc_found := true; tc_oserror := fun _ => oserror;
       tz := 0; clock_cycle := now; clock_tick := tick_time;
       clock_report_hour := 0; clock_report := 0%Q; clock_report_sent := 0%Q;
       report_probe := fun _ => p; probe := fun _ => p |} in
  let january := {| cycle_start := 1672531200; cycle_end := 1675209599 |} in
  let saved := set_is_limiting true
                 (set_detected_interfaces ["eth0"] (fresh_state january default_state)) in
  let boot := host false (midnight 2023 1 31) 1675123200 in
  let m := mem_of (startup default_config boot "eth0"
                     {| state := load_state (Some saved); tc_initialized := ∅ |}) in
  let rollover := host true (midnight 2023 2 1) 1675209600 in
  let cycle := get_cycle_timestamps default_config (tz rollover) (clock_cycle rollover) in
  let r := cycle_reset default_config rollover cycle (clock_tick rollover) m in
  tc_initialized m !! "eth0" = Some true
  /\ cycle_start cycle = 1675209600
  /\ rollover_due cycle (clock_tick rollover) (state m) = true
  /\ result_of r = Raised
  /\ state (mem_of r) = state m
  /\ is_limiting (state (mem_of r)) = true
  /\ cycle_start_ts (state (mem_of r)) = 1672531200
  /\ result_of (tick default_config rollover m) = Raised
  /\ state (mem_of (tick default_config rollover m)) = state m.
Proof.
  intros p host january saved boot m rollover cycle r.
  assert (Htc : tc_initialized m !! "eth0" = Some true) by (vm_compute; reflexivity).
  assert (Hc : cycle_start cycle = 1675209600) by (vm_compute; reflexivity).
  assert (Hdue : rollover_due cycle (clock_tick rollover) (state m) = true)
    by (vm_compute; reflexivity).
  assert (Hr : result_of r = Raised) by (vm_compute; reflexivity).
  assert (Hs : state (mem_of r) = state m) by (vm_compute; reflexivity).
  assert (Ht : result_of (tick default_config rollover m) = Raised)
    by (vm_compute; reflexivity).
  assert (Hts : state (mem_of (tick default_config rollover m)) = state m)
    by (vm_compute; reflexivity).
  assert (Hl : is_limiting (state (mem_of r)) = true) by (vm_compute; reflexivity).
  assert (Hold : cycle_start_ts (state (mem_of r)) = 1672531200)
    by (vm_compute; reflexivity).
  split; [exact Htc|]. split; [exact Hc|]. split; [exact Hdue|].
  split; [exact Hr|]. split; [exact Hs|]. split; [exact Hl|].
  split; [exact Hold|]. split; [exact Ht | exact Hts].
Qed.

(** C7. The reset is idempotent: run twice in a row with the same cycle and
    clock it leaves the memory the first run left; if the first run
    completed, the second completes too, changes nothing and issues no
    enforcement call. *)
Theorem cycle_reset_idempotent (cfg : Config) (env : Env) (cycle : Cycle)
    (t : Z) (m : Mem) :
  let once := cycle_reset cfg env cycle t in
  mem_of (bind once (fun _ => once) m) = mem_of (once m)
  /\ (result_of (once m) = Done tt ->
      mem_of (once (mem_of (once m))) = mem_of (once m)
      /\ result_of (once (mem_of (once m))) = Done tt
      /\ Forall no_enforcement (trace_of (once (mem_of (once m))))).
Proof.
  intros once.
  assert (Hsecond : result_of (once m) = Done tt ->
      mem_of (once (mem_of (once m))) = mem_of (once m)
      /\ result_of (once (mem_of (once m))) = Done tt
      /\ Forall no_enforcement (trace_of (once (mem_of (once m))))).
  { intros Hd. unfold once in *.
    destruct (rollover_due cycle t (state m)) eqn:Hdue.
    - pose proof (cycle_reset_fires cfg env cycle t m Hdue) as Hf.
      cbv zeta in Hf. destruct Hf as [[_ Hm]|[Hr _]]; [|congruence].
      rewrite Hm.
      set (m1 := {| state := fresh_state cycle (state m);
                    tc_initialized := tc_initialized m |}).
      destruct (rollover_due cycle t (state m1)) eqn:Hdue1.
      + unfold cycle_reset, bind, get_state. simpl in *. rewrite Hdue1.
        rewrite (release_all_idle env (detected_interfaces (state m)) m1)
          by reflexivity.
        simpl. unfold send_telegram.
        destruct (TELEGRAM_ENABLED cfg), (telegram_ready cfg); simpl;
          repeat split; repeat constructor.
      + rewrite (cycle_reset_idle cfg env cycle t m1 Hdue1).
        unfold ret. cbn [mem_of result_of trace_of].
        split; [reflexivity | split; [reflexivity | constructor]].
    - pose proof (cycle_reset_idle cfg env cycle t m Hdue) as E.
      rewrite E. unfold ret. cbn [mem_of result_of trace_of].
      rewrite E. unfold ret. cbn [mem_of result_of trace_of].
      split; [reflexivity | split; [reflexivity | constructor]]. }
  split; [|exact Hsecond].
  unfold bind. destruct (result_of (once m)) as [[]|] eqn:Hr; simpl.
  - apply Hsecond. reflexivity.
  - reflexivity.
Qed.

Lemma cycle_reset_idempotent_witness :
  let cycle := {| cycle_start := 1672531200; cycle_end := 1675209599 |} in
  let env := {| interfaces := []; tc_found := true; tc_oserror := fun _ => false;
                tz := 0;
                clock_cycle := midnight 2023 1 5; clock_tick := 1672876800;
                clock_report_hour := 0; clock_report := 0%Q;
                clock_report_sent := 0%Q;
                report_probe := fun _ => {| vnstat_installed := false;
                                            vnstat_read := Raises;
                                            sysfs_tx := Raises; sysfs_rx := Raises |};
                probe := fun _ => {| vnstat_installed := false;
                                     vnstat_read := Raises;
                                     sysfs_tx := Raises; sysfs_rx := Raises |} |} in
  let s := set_is_blocked true (set_detected_interfaces ["eth0"] default_state) in
  let m := {| state := s; tc_initialized := ∅ |} in
  let once := cycle_reset default_config env cycle 1672876800 in
  result_of (once m) = Done tt
  /\ mem_of (once (mem_of (once m))) = mem_of (once m)
  /\ result_of (once (mem_of (once m))) = Done tt.
Proof.
  intros cycle env s m once.
  assert (Hd : result_of (once m) = Done tt) by reflexivity.
  destruct (cycle_reset_idempotent default_config env cycle 1672876800 m)
    as [_ H].
  destruct (H Hd) as (H1 & H2 & _).
  repeat split; assumption.
Defined.

(** ** Ticks in the blocked state *)

Section BlockedTicks.
Variable cfg : Config.
Variables (b0 : bool) (r0 : Q) (c0 : Z).

Local Abbreviation quiet := (inv (blocked_with b0 r0 c0) no_enforcement).

Lemma blocked_with_same_control s s' :
  same_control s s' -> blocked_with b0 r0 c0 s -> blocked_with b0 r0 c0 s'.
Proof.
  intros (H1 & H2 & H3 & H4 & _) (G1 & G2 & G3 & G4).
  unfold blocked_with. rewrite H1, H2, H3, H4. auto.
Qed.

Lemma is_read_no_enforcement e : is_read e -> no_enforcement e.
Proof. destruct e; simpl; intros H; try contradiction; reflexivity. Qed.

Lemma quiet_sample p i : quiet (sample cfg p i).
Proof.
  intros m Hm. unfold sample.
  pose proof (get_current_bytes_frame cfg p i (state m)) as [H1 H2].
  destruct (get_current_bytes cfg p i (state m)) as [[v s'] t]. simpl in *.
  split.
  - eapply blocked_with_same_control; eauto.
  - eapply Forall_impl; [exact H2 | apply is_read_no_enforcement].
Qed.

Lemma quiet_setup_tc env i : quiet (setup_tc env i).
Proof.
  unfold setup_tc. apply inv_if; [apply inv_raise|].
  apply inv_bind; [apply inv_emit; reflexivity | intros; apply inv_ret].
Qed.

Lemma quiet_init_tc env i : quiet (init_tc env i).
Proof.
  unfold init_tc. apply inv_if.
  - apply inv_bind; [apply quiet_setup_tc | intros; apply inv_set_tc_initialized].
  - apply inv_set_tc_initialized.
Qed.

Lemma quiet_detect_new_interfaces env : quiet (detect_new_interfaces env).
Proof.
  unfold detect_new_interfaces. apply inv_for_each. intros iface.
  apply inv_bind; [apply inv_get_state|].
  intros s. apply inv_if; [apply inv_ret|].
  apply inv_bind; [|intros; apply quiet_init_tc].
  apply inv_modify_state. intros s' Hs'. exact Hs'.
Qed.

Lemma quiet_generate_report : quiet (generate_report cfg).
Proof. unfold generate_report. apply inv_if; [apply inv_raise | apply inv_ret]. Qed.

Lemma quiet_daily_report env : quiet (daily_report cfg env).
Proof.
  unfold daily_report.
  apply inv_bind; [apply inv_get_state|].
  intros s. apply inv_if; [|apply inv_ret].
  apply inv_bind.
  - apply inv_for_each. intros i.
    apply inv_bind; [apply quiet_sample | intros; apply quiet_generate_report].
  - intros _. apply inv_bind; [apply inv_send_telegram; reflexivity|].
    intros sent. apply inv_if; [|apply inv_ret].
    apply inv_modify_state. intros s' Hs'. exact Hs'.
Qed.

Lemma quiet_sample_all pr l : quiet (sample_all cfg pr l).
Proof.
  induction l as [|i l IH]; simpl.
  - apply inv_ret.
  - apply inv_bind; [apply quiet_sample|]. intros v.
    apply inv_bind; [exact IH | intros; apply inv_ret].
Qed.

Lemma quiet_cycle_reset env cycle t :
  (cycle_end cycle <? t) || negb (c0 =? cycle_start cycle) = false ->
  quiet (cycle_reset cfg env cycle t).
Proof.
  intros Hno m Hm. rewrite cycle_reset_idle.
  - split; [exact Hm | constructor].
  - unfold rollover_due. destruct Hm as (_ & _ & _ & G4). rewrite G4. exact Hno.
Qed.

Lemma quiet_control env t : quiet (control cfg env t).
Proof.
  unfold control.
  apply inv_bind; [apply inv_get_state|].
  intros s. apply inv_bind; [apply quiet_sample_all|].
  intros total. apply inv_if; [apply inv_raise|].
  intros m Hm. pose proof Hm as (G1 & G2 & G3 & G4).
  unfold bind, block_check, get_state, save_state, sleep, emit. simpl.
  rewrite G1. simpl. rewrite G1. simpl.
  split; [exact Hm | repeat constructor].
Qed.

Lemma quiet_tick env : in_cycle cfg env c0 -> quiet (tick cfg env).
Proof.
  unfold in_cycle, tick.
  generalize (get_cycle_timestamps cfg (tz env) (clock_cycle env)).
  intros cycle [Hend Hstart].
  apply inv_bind; [apply quiet_detect_new_interfaces|]. intros _.
  apply inv_bind.
  { apply quiet_cycle_reset. apply orb_false_iff. split.
    - apply Z.ltb_ge. exact Hend.
    - apply negb_false_iff, Z.eqb_eq. exact Hstart. }
  intros _.
  apply inv_bind; [apply quiet_daily_report|]. intros _.
  apply quiet_control.
Qed.

(** The handler of lines 757-775 issues no enforcement call and keeps the
    memory. *)
Lemma on_error_quiet m n :
  Forall no_enforcement (on_error cfg m n).1
  /\ forall l', (on_error cfg m n).2 = Continue l' -> mem l' = m.
Proof.
  unfold on_error, send_telegram.
  destruct ((n + 1) mod 3 =? 0), (TELEGRAM_ENABLED cfg), (telegram_ready cfg),
    (MAX_CONSECUTIVE_FAILURES cfg <=? n + 1); simpl;
    (split; [repeat constructor | intros l' E; inversion E; reflexivity]).
Qed.

Lemma loop_iteration_quiet env l :
  blocked_with b0 r0 c0 (state (mem l)) -> in_cycle cfg env c0 ->
  Forall no_enforcement (loop_iteration cfg env l).1
  /\ forall l', (loop_iteration cfg env l).2 = Continue l' ->
       blocked_with b0 r0 c0 (state (mem l')).
Proof.
  intros Hb Hc. unfold loop_iteration.
  destruct (quiet_tick env Hc (mem l) Hb) as [H1 H2].
  destruct (result_of (tick cfg env (mem l))) as [[]|].
  - simpl. split; [exact H2|]. intros l' E. inversion E. simpl. exact H1.
  - pose proof (on_error_quiet (mem_of (tick cfg env (mem l)))
                  (consecutive_failures l)) as [H3 H4].
    destruct (on_error cfg _ _) as [t flow]. simpl in *. split.
    + apply Forall_app. split; assumption.
    + intros l' E. rewrite (H4 l' E). exact H1.
Qed.

Lemma run_loop_quiet envs : forall l,
  blocked_with b0 r0 c0 (state (mem l)) ->
  Forall (fun env => in_cycle cfg env c0) envs ->
  Forall no_enforcement (run_loop cfg envs l).1
  /\ forall l', (run_loop cfg envs l).2 = Continue l' ->
       blocked_with b0 r0 c0 (state (mem l')).
Proof.
  induction envs as [|env envs IH]; intros l Hb Henvs.
  - simpl. split; [constructor|]. intros l' E. inversion E. subst. exact Hb.
  - apply Forall_cons in Henvs as [Hc Henvs].
    destruct (loop_iteration_quiet env l Hb Hc) as [H1 H2].
    cbn [run_loop].
    destruct (loop_iteration cfg env l) as [t [l1|status]]; simpl in *.
    + specialize (IH l1 (H2 l1 eq_refl) Henvs).
      destruct (run_loop cfg envs l1) as [t' flow]. simpl in *.
      destruct IH as [H3 H4]. split; [apply Forall_app; split; assumption|].
      exact H4.
    + split; [exact H1|]. intros l' E. discriminate.
Qed.

End BlockedTicks.

(** ** Entering the blocked state *)

Section BlockEntry.
Variable cfg : Config.

(** The sampling pass completes and leaves the control fields alone. *)
Lemma sample_all_run pr l : forall m,
  exists total s' t,
    sample_all cfg pr l m
    = {| mem_of := {| state := s'; tc_initialized := tc_initialized m |};
         trace_of := t; result_of := Done total |}
    /\ same_control (state m) s' /\ Forall is_read t.
Proof.
  induction l as [|i l IH]; intros m.
  - exists 0, (state m), []. destruct m. simpl.
    repeat split; constructor.
  - cbn [sample_all]. unfold bind, sample.
    pose proof (get_current_bytes_frame cfg (pr i) i (state m)) as [H1 H2].
    destruct (get_current_bytes cfg (pr i) i (state m)) as [[v s1] t1].
    simpl in H1, H2. cbn [result_of mem_of trace_of].
    destruct (IH {| state := s1; tc_initialized := tc_initialized m |})
      as (total & s2 & t2 & E & H3 & H4).
    rewrite E. cbn [result_of mem_of trace_of tc_initialized ret].
    exists (v + total), s2, (t1 ++ t2 ++ []). split; [reflexivity|].
    split.
    + destruct H1 as (A1 & A2 & A3 & A4 & A5).
      destruct H3 as (B1 & B2 & B3 & B4 & B5). simpl in *.
      unfold same_control. rewrite B1, B2, B3, B4, B5. auto.
    + apply Forall_app. split; [exact H2|].
      apply Forall_app. split; [exact H4 | constructor].
Qed.

Lemma block_all l m :
  for_each l block_network m
  = {| mem_of := m; trace_of := map BlockNetwork l; result_of := Done tt |}.
Proof.
  revert m. induction l as [|i l IH]; intros m; [reflexivity|].
  cbn [for_each]. unfold bind, block_network, emit. simpl.
  rewrite IH. reflexivity.
Qed.

(** Lines 685-700 once the readings are summed. *)
Lemma control_blocks env t m total s' tr :
  sample_all cfg (probe env) (detected_interfaces (state m)) m
  = {| mem_of := {| state := s'; tc_initialized := tc_initialized m |};
       trace_of := tr; result_of := Done total |} ->
  same_control (state m) s' ->
  Qeq_bool (TOTAL_QUOTA_GB cfg) 0 = false ->
  (remaining_gb cfg total <= HARD_LIMIT_GB cfg)%Q ->
  let r := control cfg env t m in
  result_of r = Done tt
  /\ is_blocked (state (mem_of r)) = true
  /\ is_limiting (state (mem_of r)) = is_limiting (state m)
  /\ (is_blocked (state m) = false ->
      trace_of r
      = tr ++ (map BlockNetwork (detected_interfaces (state m))
               ++ (if telegram_ready cfg then [Telegram BlockNotice] else []))
           ++ [SaveState (set_is_blocked true s');
               Sleep (UPDATE_INTERVAL_SEC cfg)]).
Proof.
  intros E (A1 & A2 & A3 & A4 & A5) Hq Hrem. cbv zeta.
  apply Qle_bool_iff in Hrem.
  unfold control, block_check, save_state, sleep.
  unfold bind, get_state, modify_state, send_telegram, emit, ret.
  cbn [result_of mem_of trace_of]. rewrite E.
  cbn [result_of mem_of trace_of]. rewrite Hq.
  generalize dependent (remaining_gb cfg total). intros rem Hrem.
  generalize (used_percent cfg total). intros used.
  cbn [result_of mem_of trace_of state tc_initialized].
  destruct (is_blocked s') eqn:Eb.
  - cbn [negb andb result_of mem_of trace_of state]. rewrite Eb.
    cbn [result_of mem_of trace_of state].
    repeat split; try congruence.
  - cbn [negb andb]. rewrite Hrem.
    cbn [result_of mem_of trace_of state tc_initialized].
    rewrite block_all.
    cbn [result_of mem_of trace_of state tc_initialized].
    destruct (telegram_ready cfg);
      cbn [result_of mem_of trace_of state tc_initialized is_blocked
           set_is_blocked is_limiting];
      rewrite A5; repeat split; try assumption;
      intros _; rewrite ?app_nil_r, ?app_nil_l; reflexivity.
Qed.

End BlockEntry.

(** C1. Once [is_blocked] is set, no run of ticks of the same billing cycle
    leaves the blocked state, whatever the readings and whether ticks
    complete or raise: the state stays BLOCKED, the limiting flag and the
    last rate are untouched and no enforcement call is issued (the limiting
    logic is skipped).  The control pass enters BLOCKED from any state as
    soon as the remaining quota is at most [HARD_LIMIT_GB], and on entry
    calls [block_network] for every tracked interface.  A tick that clears
    [is_blocked] is a tick in which the cycle reset triggered. *)
Theorem blocked_until_rollover (cfg : Config) :
  (forall envs l,
     is_blocked (state (mem l)) = true ->
     Forall (fun env => in_cycle cfg env (cycle_start_ts (state (mem l)))) envs ->
     let r := run_loop cfg envs l in
     Forall no_enforcement r.1
     /\ forall l', r.2 = Continue l' ->
          control_state (state (mem l')) = BLOCKED
          /\ is_limiting (state (mem l')) = is_limiting (state (mem l))
          /\ last_rate_kbps (state (mem l')) = last_rate_kbps (state (mem l)))
  /\ (forall env t m,
     Qeq_bool (TOTAL_QUOTA_GB cfg) 0 = false ->
     exists total,
       result_of (sample_all cfg (probe env) (detected_interfaces (state m)) m)
       = Done total
       /\ ((remaining_gb cfg total <= HARD_LIMIT_GB cfg)%Q ->
           let r := control cfg env t m in
           result_of r = Done tt
           /\ control_state (state (mem_of r)) = BLOCKED
           /\ (is_blocked (state m) = false ->
               forall i, i ∈ detected_interfaces (state m) ->
                         BlockNetwork i ∈ trace_of r)))
  /\ (forall env m,
     is_blocked (state m) = true ->
     is_blocked (state (mem_of (tick cfg env m))) = false ->
     ~ in_cycle cfg env (cycle_start_ts (state m))).
Proof.
  split; [|split].
  - intros envs l Hb Henvs r.
    assert (Hbw : blocked_with (is_limiting (state (mem l)))
                    (last_rate_kbps (state (mem l)))
                    (cycle_start_ts (state (mem l))) (state (mem l)))
      by (repeat split; assumption).
    destruct (run_loop_quiet cfg _ _ _ envs l Hbw Henvs) as [H1 H2].
    split; [exact H1|]. intros l' E.
    destruct (H2 l' E) as (G1 & G2 & G3 & _).
    unfold control_state. rewrite G1. auto.
  - intros env t m Hq.
    destruct (sample_all_run cfg (probe env) (detected_interfaces (state m)) m)
      as (total & s' & tr & E & Hsame & _).
    exists total. split; [rewrite E; reflexivity|].
    intros Hrem.
    destruct (control_blocks cfg env t m total s' tr E Hsame Hq Hrem)
      as (H1 & H2 & _ & H4).
    cbv zeta. split; [exact H1|]. split.
    + unfold control_state. rewrite H2. reflexivity.
    + intros Hnb i Hi. rewrite (H4 Hnb).
      apply elem_of_app. right. apply elem_of_app. left.
      apply elem_of_app. left. apply list_elem_of_fmap. exists i. auto.
  - intros env m Hb Hun Hc.
    assert (Hbw : blocked_with (is_limiting (state m)) (last_rate_kbps (state m))
                    (cycle_start_ts (state m)) (state m))
      by (repeat split; assumption).
    destruct (quiet_tick cfg _ _ _ env Hc m Hbw) as [(G1 & _) _].
    congruence.
Qed.

Lemma blocked_until_rollover_witness :
  let p b := {| vnstat_installed := true; vnstat_read := Returns b;
                sysfs_tx := Raises; sysfs_rx := Raises |} in
  let env d b := {| interfaces := ["eth0"]; tc_found := true;
                    tc_oserror := fun _ => false; tz := 0;
                    clock_cycle := midnight 2023 1 d;
                    clock_tick := 1672531200 + (d - 1) * 86400;
                    clock_report_hour := 0; clock_report := 0%Q;
                    clock_report_sent := 0%Q;
                    report_probe := fun _ => p b; probe := fun _ => p b |} in
  let s := set_is_blocked true
             (set_detected_interfaces ["eth0"]
                (fresh_state {| cycle_start := 1672531200;
                                cycle_end := 1675209599 |} default_state)) in
  let l := {| mem := {| state := s; tc_initialized := ∅ |};
              consecutive_failures := 0 |} in
  let m := {| state := set_detected_interfaces ["eth0"] default_state;
              tc_initialized := ∅ |} in
  (forall l', (run_loop default_config [env 28 (1000 * 1024 ^ 3); env 29 0] l).2
              = Continue l' ->
     control_state (state (mem l')) = BLOCKED)
  /\ (exists total,
        (remaining_gb default_config total <= HARD_LIMIT_GB default_config)%Q
        /\ BlockNetwork "eth0"
           ∈ trace_of (control default_config (env 28 (1000 * 1024 ^ 3)) 1 m)).
Proof.
  intros p env s l m.
  destruct (blocked_until_rollover default_config) as (Hsticky & Hentry & _).
  split.
  - intros l' E.
    assert (Hb : is_blocked (state (mem l)) = true) by reflexivity.
    assert (Hc : Forall (fun e => in_cycle default_config e
                                    (cycle_start_ts (state (mem l))))
                        [env 28 (1000 * 1024 ^ 3); env 29 0]).
    { repeat constructor; try (apply Z.leb_le; vm_compute; reflexivity);
        vm_compute; reflexivity. }
    destruct (Hsticky _ l Hb Hc) as [_ H]. apply (H l' E).
  - destruct (Hentry (env 28 (1000 * 1024 ^ 3)) 1 m eq_refl) as (total & E & H).
    exists total.
    assert (Et : total = 1000 * 1024 ^ 3).
    { vm_compute in E. injection E as E. symmetry. exact E. }
    assert (Hrem : (remaining_gb default_config total
                    <= HARD_LIMIT_GB default_config)%Q).
    { rewrite Et. vm_compute. discriminate. }
    split; [exact Hrem|].
    destruct (H Hrem) as (_ & _ & Hblock).
    apply Hblock; [reflexivity | apply list_elem_of_In; left; reflexivity].
Defined.

(** ** Where a tick sleeps *)

Ltac inv_step :=
  first [ apply inv_ret | apply inv_raise | apply inv_get_state
        | apply inv_get_tc_initialized | apply inv_set_tc_initialized
        | apply inv_send_telegram | apply inv_disable_tc_limit
        | apply inv_update_tc_limit | apply inv_emit | apply inv_modify_state
        | apply inv_for_each | apply inv_if | apply inv_bind ].

Ltac inv_auto := repeat (intros; inv_step); intros; try exact I; auto.

Section Pacing.
Variable cfg : Config.

Local Abbreviation calm := (inv (fun _ => True) not_sleep).

Lemma calm_sample p i : calm (sample cfg p i).
Proof.
  intros m _. unfold sample.
  pose proof (get_current_bytes_frame cfg p i (state m)) as [_ H2].
  destruct (get_current_bytes cfg p i (state m)) as [[v s'] t]. simpl in *.
  split; [exact I|].
  eapply Forall_impl; [exact H2|]. intros [] H; simpl in *; auto.
Qed.

Lemma calm_sample_all pr l : calm (sample_all cfg pr l).
Proof.
  induction l as [|i l IH]; simpl; [apply inv_ret|].
  apply inv_bind; [apply calm_sample|]. intros v.
  apply inv_bind; [exact IH | intros; apply inv_ret].
Qed.

Lemma calm_detect_new_interfaces env : calm (detect_new_interfaces env).
Proof. unfold detect_new_interfaces, init_tc, setup_tc. inv_auto. Qed.

Lemma calm_cycle_reset env cycle t : calm (cycle_reset cfg env cycle t).
Proof. unfold cycle_reset, release, unblock_network, put_state. inv_auto. Qed.

Lemma calm_daily_report env : calm (daily_report cfg env).
Proof.
  unfold daily_report, generate_report.
  apply inv_bind; [apply inv_get_state|]. intros s.
  apply inv_if; [|apply inv_ret].
  apply inv_bind.
  - apply inv_for_each. intros i.
    apply inv_bind; [apply calm_sample|]. inv_auto.
  - inv_auto.
Qed.

Lemma calm_block_check rem : calm (block_check cfg rem).
Proof. unfold block_check, block_network. inv_auto. Qed.

Lemma calm_limit_control env used rem t :
  calm (limit_control cfg env used rem t).
Proof. unfold limit_control. inv_auto. Qed.

Lemma calm_save_state : calm save_state.
Proof. unfold save_state. inv_auto. Qed.

Lemma paced_sleep u : paced u (sleep u).
Proof. intros m. simpl. exists []. split; [reflexivity | constructor]. Qed.

Lemma paced_raise u : paced u raise.
Proof. intros m. simpl. constructor. Qed.

Lemma paced_if u (b : bool) c1 c2 :
  paced u c1 -> paced u c2 -> paced u (if b then c1 else c2).
Proof. destruct b; auto. Qed.

Lemma paced_bind {A} u (c : M A) (k : A -> M unit) :
  calm c -> (forall a, paced u (k a)) -> paced u (bind c k).
Proof.
  intros Hc Hk m. unfold bind.
  destruct (Hc m I) as [_ H1].
  destruct (result_of (c m)) as [a|]; simpl; [|exact H1].
  specialize (Hk a (mem_of (c m))).
  destruct (result_of (k a (mem_of (c m)))).
  - destruct Hk as (t' & E & H2). exists (trace_of (c m) ++ t').
    rewrite E, app_assoc. split; [reflexivity|].
    apply Forall_app. split; assumption.
  - apply Forall_app. split; assumption.
Qed.

Lemma paced_control env t : paced (UPDATE_INTERVAL_SEC cfg) (control cfg env t).
Proof.
  unfold control.
  apply paced_bind; [apply inv_get_state|]. intros s.
  apply paced_bind; [apply calm_sample_all|]. intros total.
  apply paced_if; [apply paced_raise|].
  apply paced_bind; [apply calm_block_check|]. intros _.
  apply paced_bind; [apply inv_get_state|]. intros s'.
  apply paced_if.
  - apply paced_bind; [apply calm_save_state | intros; apply paced_sleep].
  - apply paced_bind; [apply calm_limit_control|]. intros _.
    apply paced_bind; [apply calm_save_state | intros; apply paced_sleep].
Qed.

Lemma paced_tick env : paced (UPDATE_INTERVAL_SEC cfg) (tick cfg env).
Proof.
  unfold tick.
  generalize (get_cycle_timestamps cfg (tz env) (clock_cycle env)).
  intros cycle.
  apply paced_bind; [apply calm_detect_new_interfaces|]. intros _.
  apply paced_bind; [apply calm_cycle_reset|]. intros _.
  apply paced_bind; [apply calm_daily_report|]. intros _.
  apply paced_control.
Qed.

End Pacing.

(** C8. The supervisor around a tick.  A tick that completes has slept the
    poll interval as its last step and resets the failure counter to zero.
    A tick that raises has not slept; the counter grows by one; when
    Telegram is enabled and configured a notification goes out if the new
    count is a multiple of three, and none goes out otherwise; if the new
    count reaches [MAX_CONSECUTIVE_FAILURES] the process exits with status
    1, after a final notification when Telegram is enabled and configured;
    otherwise it sleeps [min(600, 2^count)] seconds and goes on with the
    new count. *)
Theorem supervisor_policy (cfg : Config) (env : Env) (l : Loop) :
  let r := tick cfg env (mem l) in
  let n := consecutive_failures l + 1 in
  let third :=
    if (n mod 3 =? 0) && telegram_ready cfg
    then [Telegram (LoopErrorNotice n)] else [] in
  let final := if telegram_ready cfg then [Telegram FatalNotice] else [] in
  (forall u, result_of r = Done u ->
     loop_iteration cfg env l
     = (trace_of r, Continue {| mem := mem_of r; consecutive_failures := 0 |})
     /\ exists t', trace_of r = t' ++ [Sleep (UPDATE_INTERVAL_SEC cfg)]
                   /\ Forall not_sleep t')
  /\ (result_of r = Raised ->
      Forall not_sleep (trace_of r)
      /\ (MAX_CONSECUTIVE_FAILURES cfg <= n ->
          exists status,
            loop_iteration cfg env l = (trace_of r ++ third ++ final, Exit status)
            /\ status <> 0)
      /\ (n < MAX_CONSECUTIVE_FAILURES cfg ->
          loop_iteration cfg env l
          = (trace_of r ++ third ++ [Sleep (Z.min 600 (2 ^ n))],
             Continue {| mem := mem_of r; consecutive_failures := n |}))).
Proof.
  intros r n third final.
  pose proof (paced_tick cfg env (mem l)) as Hp. fold r in Hp.
  assert (Hthird :
    (if (n mod 3 =? 0) && TELEGRAM_ENABLED cfg
     then trace_of (send_telegram cfg (LoopErrorNotice n) (mem_of r))
     else []) = third).
  { unfold third, send_telegram, telegram_ready.
    destruct (n mod 3 =? 0), (TELEGRAM_ENABLED cfg),
      (negb (String.eqb (TELEGRAM_BOT_TOKEN cfg) "")),
      (negb (String.eqb (TELEGRAM_CHAT_ID cfg) "")); reflexivity. }
  assert (Hfinal : trace_of (send_telegram cfg FatalNotice (mem_of r)) = final).
  { unfold final, send_telegram. destruct (telegram_ready cfg); reflexivity. }
  split.
  - intros u Hu. rewrite Hu in Hp. split; [|exact Hp].
    unfold loop_iteration. fold r. rewrite Hu. reflexivity.
  - intros Hr. rewrite Hr in Hp. split; [exact Hp|]. split.
    + intros Hmax. exists 1. split; [|discriminate].
      unfold loop_iteration, on_error. fold r. rewrite Hr. fold n.
      rewrite Hthird, Hfinal.
      destruct (Z.leb_spec (MAX_CONSECUTIVE_FAILURES cfg) n); [reflexivity | lia].
    + intros Hlt.
      unfold loop_iteration, on_error. fold r. rewrite Hr. fold n.
      rewrite Hthird.
      destruct (Z.leb_spec (MAX_CONSECUTIVE_FAILURES cfg) n); [lia | reflexivity].
Qed.

Lemma supervisor_policy_witness :
  let cfg := with_telegram_enabled default_config in
  let p := {| vnstat_installed := false; vnstat_read := Raises;
              sysfs_tx := Raises; sysfs_rx := Raises |} in
  let env := {| interfaces := ["eth1"]; tc_found := true;
                tc_oserror := fun _ => true; tz := 0;
                clock_cycle := midnight 2023 1 5; clock_tick := 1672876800;
                clock_report_hour := 0; clock_report := 0%Q;
                clock_report_sent := 0%Q;
                report_probe := fun _ => p; probe := fun _ => p |} in
  let m := {| state := set_detected_interfaces ["eth0"] default_state;
              tc_initialized := ∅ |} in
  let l k := {| mem := m; consecutive_failures := k |} in
  telegram_ready cfg = true
  /\ result_of (tick cfg env m) = Raised
  /\ (loop_iteration cfg env (l 1)).1 = [Sleep 4]
  /\ (loop_iteration cfg env (l 2)).1 = [Telegram (LoopErrorNotice 3); Sleep 8]
  /\ (exists status,
        loop_iteration cfg env (l 9) = ([Telegram FatalNotice], Exit status)
        /\ status <> 0).
Proof.
  intros cfg p env m l.
  assert (Hready : telegram_ready cfg = true) by reflexivity.
  assert (Hr : result_of (tick cfg env m) = Raised) by reflexivity.
  split; [exact Hready|]. split; [exact Hr|].
  split; [|split].
  - destruct (supervisor_policy cfg env (l 1)) as [_ H].
    destruct (H Hr) as (_ & _ & Hgo).
    rewrite Hgo by (simpl; lia). reflexivity.
  - destruct (supervisor_policy cfg env (l 2)) as [_ H].
    destruct (H Hr) as (_ & _ & Hgo).
    rewrite Hgo by (simpl; lia). reflexivity.
  - destruct (supervisor_policy cfg env (l 9)) as [_ H].
    destruct (H Hr) as (_ & Hstop & _).
    destruct Hstop as (status & Hstop & Hne); [simpl; lia|].
    exists status. rewrite Hstop. split; [reflexivity | exact Hne].
Defined.

(** C8 as the specification states it fails with the script's own
    configuration, where [TELEGRAM_ENABLED] is off (lines 65 and 762): the
    third consecutive failure sends no notification and only sleeps 8
    seconds, and the tenth exits with status 1 without a final
    notification. *)
Lemma supervisor_silent_without_telegram :
  let p := {| vnstat_installed := false; vnstat_read := Raises;
              sysfs_tx := Raises; sysfs_rx := Raises |} in
  let env := {| interfaces := ["eth1"]; tc_found := true;
                tc_oserror := fun _ => true; tz := 0;
                clock_cycle := midnight 2023 1 5; clock_tick := 1672876800;
                clock_report_hour := 0; clock_report := 0%Q;
                clock_report_sent := 0%Q;
                report_probe := fun _ => p; probe := fun _ => p |} in
  let m := {| state := set_detected_interfaces ["eth0"] default_state;
              tc_initialized := ∅ |} in
  let l k := {| mem := m; consecutive_failures := k |} in
  result_of (tick default_config env m) = Raised
  /\ MAX_CONSECUTIVE_FAILURES default_config = 10
  /\ loop_iteration default_config env (l 2)
     = ([Sleep 8], Continue {| mem := mem_of (tick default_config env m);
                               consecutive_failures := 3 |})
  /\ loop_iteration default_config env (l 9) = ([], Exit 1).
Proof.
  intros p env m l. repeat split; vm_compute; reflexivity.
Qed.

(** ** Blocked while limiting *)

Lemma block_check_keeps_limiting cfg rem m :
  let r := block_check cfg rem m in
  is_limiting (state (mem_of r)) = is_limiting (state m)
  /\ Forall no_tc_change (trace_of r).
Proof.
  cbv zeta. unfold block_check, bind, get_state, modify_state, send_telegram,
    emit, ret.
  cbn [result_of mem_of trace_of].
  destruct (negb (is_blocked (state m)) && Qle_bool rem (HARD_LIMIT_GB cfg));
    [|split; [reflexivity | constructor]].
  cbn [result_of mem_of trace_of state tc_initialized].
  rewrite block_all.
  destruct (telegram_ready cfg); simpl; (split; [reflexivity|]);
    rewrite ?app_nil_r; try (apply Forall_app; split);
    try (apply Forall_forall; intros e He; apply list_elem_of_fmap in He;
         destruct He as (i & -> & _); exact I);
    repeat constructor.
Qed.

(** C9. Both flags can be set at once.  On the January host, a tick at
    905 GB used turns limiting on and applies a rate with [tc]; the next
    tick at 999.5 GB used sets [is_blocked], saves a state with both flags
    set, calls [block_network] and never calls [disable_tc_limit].  In
    general the block check leaves [is_limiting] as it was and changes no
    [tc] rate, and from a state with both flags set no tick of the same
    cycle issues an enforcement call or clears either flag. *)
Theorem blocked_and_limiting_together :
  (exists t l' rate,
     run_loop default_config
       [january_host 26 (905 * 1024 ^ 3); january_host 27 (9995 * 1024 ^ 3 / 10)]
       january_boot = (t, Continue l')
     /\ is_blocked (state (mem l')) = true
     /\ is_limiting (state (mem l')) = true
     /\ UpdateTcLimit "eth0" rate ∈ t
     /\ BlockNetwork "eth0" ∈ t
     /\ SaveState (state (mem l')) ∈ t
     /\ Forall (fun e => e <> DisableTcLimit "eth0") t)
  /\ (forall cfg rem m,
        let r := block_check cfg rem m in
        is_limiting (state (mem_of r)) = is_limiting (state m)
        /\ Forall no_tc_change (trace_of r))
  /\ (forall cfg envs l,
        is_blocked (state (mem l)) = true ->
        is_limiting (state (mem l)) = true ->
        Forall (fun env => in_cycle cfg env (cycle_start_ts (state (mem l)))) envs ->
        Forall no_enforcement (run_loop cfg envs l).1
        /\ forall l', (run_loop cfg envs l).2 = Continue l' ->
             is_blocked (state (mem l')) = true
             /\ is_limiting (state (mem l')) = true).
Proof.
  split; [|split].
  - eexists. eexists. eexists. split; [vm_compute; reflexivity|].
    split; [reflexivity|]. split; [reflexivity|].
    split; [apply list_elem_of_In; simpl; auto 10|].
    split; [apply list_elem_of_In; simpl; auto 10|].
    split; [apply list_elem_of_In; simpl; auto 10|].
    repeat constructor; discriminate.
  - intros cfg rem m. apply block_check_keeps_limiting.
  - intros cfg envs l Hb Hl Henvs.
    assert (Hbw : blocked_with true (last_rate_kbps (state (mem l)))
                    (cycle_start_ts (state (mem l))) (state (mem l)))
      by (repeat split; assumption).
    destruct (run_loop_quiet cfg _ _ _ envs l Hbw Henvs) as [H1 H2].
    split; [exact H1|]. intros l' E.
    destruct (H2 l' E) as (G1 & G2 & _). auto.
Qed.

Lemma blocked_and_limiting_together_witness :
  let s := set_is_blocked true
             (set_is_limiting true
                (set_detected_interfaces ["eth0"]
                   (fresh_state {| cycle_start := 1672531200;
                                   cycle_end := 1675209599 |} default_state))) in
  let l := {| mem := {| state := s; tc_initialized := {["eth0" := true]} |};
              consecutive_failures := 0 |} in
  let envs := [january_host 28 0; january_host 29 (500 * 1024 ^ 3)] in
  Forall (fun env => in_cycle default_config env (cycle_start_ts s)) envs
  /\ Forall no_enforcement (run_loop default_config envs l).1
  /\ forall l', (run_loop default_config envs l).2 = Continue l' ->
       is_blocked (state (mem l')) = true /\ is_limiting (state (mem l')) = true.
Proof.
  intros s l envs.
  assert (Hc : Forall (fun env => in_cycle default_config env (cycle_start_ts s)) envs).
  { repeat constructor; try (apply Z.leb_le; vm_compute; reflexivity);
      vm_compute; reflexivity. }
  destruct blocked_and_limiting_together as (_ & _ & H).
  split; [exact Hc|].
  apply (H default_config envs l); [reflexivity | reflexivity | exact Hc].
Defined.

(** ** The billing cycle with a late anchor day *)

(** C3 (defect of the code).  With [CYCLE_START_DAY = 31] and the clock at
    2023-07-31 12:00:00 on a UTC host, [get_cycle_timestamps] returns the
    window from 2023-07-31 00:00:00 to 2023-09-29 23:59:59: adding 32 days
    to the start passes all of August.  The window does contain the clock
    reading, but the cycle the same function computes on 2023-08-31 starts
    on that day, inside the window, and one second after the window's end
    (2023-09-30 00:00:00) the function reports a cycle that started on
    2023-08-31: the end is not one second before the next cycle's start. *)
Theorem late_anchor_cycle_overshoots :
  let cfg := with_cycle_start_day 31 default_config in
  let at_time y m d h := {| year := y; month := m; day := d;
                            hour := h; minute := 0; second := 0 |} in
  let now := at_time 2023 7 31 12 in
  let c := get_cycle_timestamps cfg 0 now in
  cycle_dates cfg now
  = (midnight 2023 7 31,
     {| year := 2023; month := 9; day := 29;
        hour := 23; minute := 59; second := 59 |})
  /\ cycle_start c <= timestamp 0 now <= cycle_end c
  /\ cycle_start (get_cycle_timestamps cfg 0 (at_time 2023 8 31 0))
     = timestamp 0 (midnight 2023 8 31)
  /\ cycle_start (get_cycle_timestamps cfg 0 (at_time 2023 8 31 0)) < cycle_end c
  /\ cycle_end c + 1 = timestamp 0 (midnight 2023 9 30)
  /\ cycle_start (get_cycle_timestamps cfg 0 (midnight 2023 9 30))
     = timestamp 0 (midnight 2023 8 31)
  /\ cycle_end c + 1
     <> cycle_start (get_cycle_timestamps cfg 0 (midnight 2023 9 30)).
Proof.
  cbv zeta. repeat split; try (vm_compute; reflexivity);
    try (vm_compute; discriminate).
Qed.

(** For anchor days 1 to 27 the windows are consistent on every day of
    2023 and of the leap year 2024; anchor days 28 to 31 have days on which
    they are not. *)
Lemma early_anchor_windows_2023_2024 :
  forallb (fun a =>
    forallb (window_consistent a) (days_of_year 2023 ++ days_of_year 2024))
    [1; 2; 3; 4; 5; 6; 7; 8; 9; 10; 11; 12; 13; 14; 15; 16; 17; 18; 19; 20;
     21; 22; 23; 24; 25; 26; 27] = true
  /\ map (fun a => forallb (window_consistent a) (days_of_year 2023))
         [28; 29; 30; 31] = [false; false; false; false].
Proof. split; vm_compute; reflexivity. Qed.

(** The timestamps are those of naive datetimes read in the host's zone:
    with the clock read in UTC on a host eight hours east of UTC, the
    default anchor day and the clock at 2023-01-31 20:00:00 UTC, the
    reported end of the cycle is already four hours in the past. *)
Lemma utc_clock_on_eastern_host :
  let now := {| year := 2023; month := 1; day := 31;
                hour := 20; minute := 0; second := 0 |} in
  let c := get_cycle_timestamps default_config 28800 now in
  cycle_end c + 14401 = timestamp 0 now
  /\ rollover_due c (timestamp 0 now)
       (fresh_state c default_state) = true.
Proof. split; vm_compute; reflexivity. Qed.

(** ** The billing cycle in general *)

Lemma isleap_spec y : isleap y = true <-> (y mod 4 = 0 /\ (y mod 100 <> 0 \/ y mod 400 = 0)).
Proof.
  unfold isleap. rewrite andb_true_iff, orb_true_iff, negb_true_iff, !Z.eqb_eq, Z.eqb_neq. tauto.
Qed.

Lemma monthrange_bounds y m : 28 <= monthrange y m <= 31.
Proof.
  unfold monthrange. destruct (m =? 2); [destruct (isleap y); lia|].
  destruct ((m =? 4) || (m =? 6) || (m =? 9) || (m =? 11)); lia.
Qed.

Lemma month_cases m : 1 <= m <= 12 ->
  m = 1 \/ m = 2 \/ m = 3 \/ m = 4 \/ m = 5 \/ m = 6 \/ m = 7 \/ m = 8 \/ m = 9 \/ m = 10 \/ m = 11 \/ m = 12.
Proof. lia. Qed.

Lemma month_boundary y m :
  1 <= m <= 12 ->
  days_from_civil (fst (next_month y m)) (snd (next_month y m)) 1
  = days_from_civil y m (monthrange y m) + 1.
Proof.
  intros Hm. unfold next_month, monthrange, days_from_civil.
  pose proof (isleap_spec y) as Hl.
  destruct (isleap y);
    [ assert (El : y mod 4 = 0 /\ (y mod 100 <> 0 \/ y mod 400 = 0)) by (apply Hl; reflexivity)
    | assert (El : ~ (y mod 4 = 0 /\ (y mod 100 <> 0 \/ y mod 400 = 0)))
        by (intros H; apply Hl in H; discriminate) ];
    clear Hl; apply month_cases in Hm;
    repeat (destruct Hm as [->|Hm]); try subst m; simpl;
    Z.to_euclidean_division_equations; lia.
Qed.

Lemma days_from_civil_day y m d k :
  days_from_civil y m (d + k) = days_from_civil y m d + k.
Proof. unfold days_from_civil. lia. Qed.

Lemma with_day_same dt : with_day dt (day dt) = dt.
Proof. destruct dt; reflexivity. Qed.

Lemma add_days_within n : forall dt,
  day dt + Z.of_nat n <= monthrange (year dt) (month dt) ->
  add_days n dt = with_day dt (day dt + Z.of_nat n).
Proof.
  induction n as [|n IH]; intros dt H.
  - simpl. rewrite Z.add_0_r. symmetry. apply with_day_same.
  - change (add_days (S n) dt) with (next_day (add_days n dt)).
    rewrite IH by lia. unfold next_day, with_day. simpl.
    destruct (Z.ltb_spec (day dt + Z.of_nat n) (monthrange (year dt) (month dt))); [|lia].
    f_equal. lia.
Qed.

Lemma next_day_last dt :
  day dt = monthrange (year dt) (month dt) -> next_day dt = first_of_next dt.
Proof.
  intros H. unfold next_day, first_of_next, next_month.
  rewrite H, Z.ltb_irrefl. destruct (month dt =? 12); reflexivity.
Qed.

Lemma add_days_cross n dt :
  day dt <= monthrange (year dt) (month dt) ->
  monthrange (year dt) (month dt) < day dt + Z.of_nat n ->
  add_days n dt
  = add_days (Z.to_nat (Z.of_nat n - (monthrange (year dt) (month dt) - day dt) - 1))
             (first_of_next dt).
Proof.
  intros H1 H2.
  set (L := monthrange (year dt) (month dt)) in *.
  set (a := Z.to_nat (L - day dt)).
  set (b := Z.to_nat (Z.of_nat n - (L - day dt) - 1)).
  assert (En : n = (b + S a)%nat) by lia.
  rewrite En. unfold add_days. rewrite Nat.iter_add.
  f_equal. change (Nat.iter (S a) next_day dt) with (next_day (add_days a dt)).
  rewrite add_days_within by (fold L; lia).
  rewrite next_day_last.
  - unfold first_of_next, with_day. reflexivity.
  - simpl. fold L. lia.
Qed.

Lemma first_of_next_month_valid dt :
  1 <= month dt <= 12 -> 1 <= month (first_of_next dt) <= 12.
Proof.
  intros H. unfold first_of_next, next_month. destruct (Z.eqb_spec (month dt) 12); simpl; lia.
Qed.

(** Thirty-two days after a valid date: in the next month, or in the one
    after when the next month is too short. *)
Lemma add_days_32 dt :
  valid_date dt ->
  let f := first_of_next dt in
  let r := day dt + 32 - monthrange (year dt) (month dt) in
  add_days 32 dt =
    if r <=? monthrange (year f) (month f) then with_day f r
    else with_day (first_of_next f) (r - monthrange (year f) (month f)).
Proof.
  intros [Hm Hd] f r.
  pose proof (monthrange_bounds (year dt) (month dt)) as HL.
  pose proof (monthrange_bounds (year f) (month f)) as HL1.
  pose proof (monthrange_bounds (year (first_of_next f)) (month (first_of_next f))) as HL2.
  rewrite add_days_cross by lia.
  fold f. change (Z.of_nat 32) with 32.
  assert (Hf : day f = 1) by reflexivity.
  destruct (Z.leb_spec r (monthrange (year f) (month f))) as [Hr|Hr].
  - rewrite add_days_within by (unfold r in Hr; lia).
    f_equal. unfold r. lia.
  - rewrite add_days_cross by (unfold r in Hr; lia).
    assert (Hff : day (first_of_next f) = 1) by reflexivity.
    rewrite add_days_within by (unfold r in Hr; lia).
    f_equal. unfold r. lia.
Qed.



Lemma anchor_bounds cfg : 1 <= anchor cfg <= 31.
Proof. unfold anchor. lia. Qed.

Lemma dfc_with_day dt d : dfc (with_day dt d) = dfc (with_day dt 1) + d - 1.
Proof.
  unfold dfc, with_day. simpl.
  replace d with (1 + (d - 1)) at 1 by lia. rewrite days_from_civil_day. lia.
Qed.

Lemma dfc_as_with_day dt : dfc dt = dfc (with_day dt 1) + day dt - 1.
Proof. rewrite <- dfc_with_day, with_day_same. reflexivity. Qed.

Lemma dfc_first_of_next dt :
  1 <= month dt <= 12 ->
  dfc (first_of_next dt) = dfc (with_day dt 1) + monthrange (year dt) (month dt).
Proof.
  intros Hm. unfold dfc at 1, first_of_next. simpl.
  rewrite month_boundary by exact Hm.
  change (days_from_civil (year dt) (month dt) (monthrange (year dt) (month dt)))
    with (dfc (with_day dt (monthrange (year dt) (month dt)))).
  rewrite dfc_with_day. lia.
Qed.

Lemma replace_or_clamp dt a :
  1 <= a ->
  match replace_day dt a with
  | Some d => d
  | None =>
      {| year := year dt; month := month dt;
         day := monthrange (year dt) (month dt);
         hour := hour dt; minute := minute dt; second := second dt |}
  end = clamp_day dt a.
Proof.
  intros Ha. unfold replace_day, clamp_day, with_day.
  destruct (Z.leb_spec 1 a); [|lia].
  destruct (Z.leb_spec a (monthrange (year dt) (month dt))); simpl; f_equal; lia.
Qed.

Lemma prev_day_dfc dt :
  valid_date dt -> dfc (prev_day dt) = dfc dt - 1.
Proof.
  intros [Hm Hd]. unfold prev_day.
  destruct (Z.ltb_spec 1 (day dt)).
  - unfold dfc. simpl.
    replace (day dt) with ((day dt - 1) + 1) at 2 by lia.
    rewrite days_from_civil_day. lia.
  - assert (Hd1 : day dt = 1) by lia.
    destruct (Z.eqb_spec (month dt) 1) as [E|E].
    + unfold dfc. simpl. rewrite E, Hd1.
      pose proof (month_boundary (year dt - 1) 12 ltac:(lia)) as Hb.
      unfold next_month in Hb. simpl in Hb.
      replace (year dt - 1 + 1) with (year dt) in Hb by lia.
      change (monthrange (year dt - 1) 12) with 31 in Hb. lia.
    + unfold dfc. simpl. rewrite Hd1.
      pose proof (month_boundary (year dt) (month dt - 1) ltac:(lia)) as Hb.
      unfold next_month in Hb.
      destruct (Z.eqb_spec (month dt - 1) 12); [lia|]. simpl in Hb.
      replace (month dt - 1 + 1) with (month dt) in Hb by lia. lia.
Qed.

Lemma timestamp_sub_second_midnight tz dt :
  valid_date dt -> hour dt = 0 -> minute dt = 0 -> second dt = 0 ->
  timestamp tz (sub_second dt) = timestamp tz dt - 1.
Proof.
  intros Hv Hh Hmi Hs. unfold sub_second. rewrite Hs, Hmi, Hh. simpl.
  pose proof (prev_day_dfc dt Hv) as Hp. unfold dfc in Hp.
  unfold timestamp. simpl. rewrite Hp, Hh, Hmi, Hs. lia.
Qed.

Lemma add_days_time n dt :
  hour (add_days n dt) = hour dt /\ minute (add_days n dt) = minute dt
  /\ second (add_days n dt) = second dt.
Proof.
  induction n as [|n IH]; [auto|].
  change (add_days (S n) dt) with (next_day (add_days n dt)).
  unfold next_day.
  destruct (_ <? _); [|destruct (_ =? _)]; simpl; exact IH.
Qed.

Lemma clamp_day_midnight dt a n :
  hour dt = 0 -> minute dt = 0 -> second dt = 0 ->
  hour (clamp_day (add_days n dt) a) = 0
  /\ minute (clamp_day (add_days n dt) a) = 0
  /\ second (clamp_day (add_days n dt) a) = 0.
Proof.
  intros Hh Hm Hs. destruct (add_days_time n dt) as (E1 & E2 & E3).
  unfold clamp_day, with_day. cbn [hour minute second].
  rewrite E1, E2, E3. auto.
Qed.

Lemma prev_next_month y m :
  1 <= m <= 12 ->
  1 <= snd (prev_month y m) <= 12
  /\ next_month (fst (prev_month y m)) (snd (prev_month y m)) = (y, m).
Proof.
  intros Hm. unfold prev_month, next_month.
  destruct (Z.eqb_spec (m - 1) 0); simpl.
  - split; [lia|]. f_equal; lia.
  - destruct (Z.eqb_spec (m - 1) 12); [lia|]. split; [lia|]. f_equal; lia.
Qed.

(** The start date chosen by lines 274-295. *)
Lemma cycle_dates_start cfg now :
  valid_date now ->
  (fst (cycle_dates cfg now)) =
    if anchor cfg <=? day now then midnight (year now) (month now) (anchor cfg)
    else midnight (fst (prev_month (year now) (month now)))
                  (snd (prev_month (year now) (month now)))
                  (Z.min (anchor cfg)
                     (monthrange (fst (prev_month (year now) (month now)))
                                 (snd (prev_month (year now) (month now))))).
Proof.
  intros [Hm Hd]. pose proof (anchor_bounds cfg) as Ha.
  unfold cycle_dates. fold (anchor cfg). cbn [fst].
  destruct (Z.leb_spec (anchor cfg) (day now)) as [H|H].
  - unfold datetime_ymd.
    destruct (Z.leb_spec 1 (anchor cfg)); [|lia].
    destruct (Z.leb_spec (anchor cfg) (monthrange (year now) (month now))); [|lia].
    reflexivity.
  - unfold prev_month.
    destruct (month now - 1 =? 0); cbn [fst snd]; unfold datetime_ymd;
      (destruct (Z.leb_spec 1 (anchor cfg)); [|lia]);
      match goal with |- context [anchor cfg <=? ?L] =>
        destruct (Z.leb_spec (anchor cfg) L) end;
      cbn [andb]; f_equal; lia.
Qed.

(** The end date of lines 298-306 in terms of the start date. *)
Lemma cycle_dates_end cfg now :
  (snd (cycle_dates cfg now))
  = sub_second (clamp_day (add_days 32 (fst (cycle_dates cfg now))) (anchor cfg)).
Proof.
  pose proof (anchor_bounds cfg) as Ha.
  unfold cycle_dates. fold (anchor cfg). cbn [fst snd].
  rewrite replace_or_clamp by lia. reflexivity.
Qed.

Lemma valid_with_day dt d :
  1 <= month dt <= 12 -> 1 <= d <= monthrange (year dt) (month dt) ->
  valid_date (with_day dt d).
Proof. intros. split; simpl; assumption. Qed.

(** The next start of lines 298-304, from a valid start date. *)
Lemma next_start_cases s a :
  valid_date s -> 1 <= a <= 31 ->
  let f := first_of_next s in
  let ff := first_of_next f in
  let n := clamp_day (add_days 32 s) a in
  valid_date n
  /\ ((day s + 32 - monthrange (year s) (month s) <= monthrange (year f) (month f)
       /\ n = with_day f (Z.min a (monthrange (year f) (month f))))
      \/ (monthrange (year f) (month f) < day s + 32 - monthrange (year s) (month s)
          /\ n = with_day ff (Z.min a (monthrange (year ff) (month ff))))).
Proof.
  intros Hv Ha f ff n. pose proof Hv as [Hm Hd].
  pose proof (first_of_next_month_valid s Hm) as Hmf. fold f in Hmf.
  pose proof (first_of_next_month_valid f Hmf) as Hmff. fold ff in Hmff.
  pose proof (monthrange_bounds (year f) (month f)) as HLf.
  pose proof (monthrange_bounds (year ff) (month ff)) as HLff.
  unfold n. rewrite (add_days_32 s Hv). fold f. fold ff.
  destruct (Z.leb_spec (day s + 32 - monthrange (year s) (month s))
              (monthrange (year f) (month f))) as [Hr|Hr].
  - unfold clamp_day, with_day. cbn [year month hour minute second day].
    split; [split; cbn [year month day]; [exact Hmf | lia]|].
    left. split; [exact Hr | reflexivity].
  - unfold clamp_day, with_day. cbn [year month hour minute second day].
    split; [split; cbn [year month day]; [exact Hmff | lia]|].
    right. split; [exact Hr | reflexivity].
Qed.

Lemma get_cycle_timestamps_fields cfg tz now :
  cycle_start (get_cycle_timestamps cfg tz now) = timestamp tz (fst (cycle_dates cfg now))
  /\ cycle_end (get_cycle_timestamps cfg tz now) = timestamp tz (snd (cycle_dates cfg now)).
Proof.
  unfold get_cycle_timestamps. destruct (cycle_dates cfg now). split; reflexivity.
Qed.

Lemma timestamp_dfc tz dt :
  timestamp tz dt = dfc dt * 86400 + hour dt * 3600 + minute dt * 60 + second dt - tz.
Proof. reflexivity. Qed.

(** X1. For every anchor day (also one outside 1-31, which line 271
    clamps) and every existing date and time of day, the window of
    [get_cycle_timestamps] contains the clock reading it was computed
    from, both read in the same zone. *)
Theorem cycle_contains_clock cfg tz now :
  valid_date now -> valid_time now ->
  let c := get_cycle_timestamps cfg tz now in
  cycle_start c <= timestamp tz now <= cycle_end c.
Proof.
  intros Hv Ht c. pose proof Hv as [Hm Hd]. destruct Ht as (Hh & Hmi & Hs).
  pose proof (anchor_bounds cfg) as Ha.
  destruct (get_cycle_timestamps_fields cfg tz now) as [Es Ee].
  fold c in Es, Ee. rewrite Es, Ee, cycle_dates_end.
  pose proof (cycle_dates_start cfg now Hv) as Hstart.
  set (s := fst (cycle_dates cfg now)) in *.
  pose proof (monthrange_bounds (year now) (month now)) as HL.
  pose proof (dfc_as_with_day now) as Hnow.
  assert (Hfacts : valid_date s /\ hour s = 0 /\ minute s = 0 /\ second s = 0
                   /\ dfc s <= dfc now
                   /\ dfc now + 1 <= dfc (clamp_day (add_days 32 s) (anchor cfg))
                   /\ valid_date (clamp_day (add_days 32 s) (anchor cfg))).
  { destruct (Z.leb_spec (anchor cfg) (day now)) as [Hge|Hlt].
    - assert (Hvs : valid_date s) by (rewrite Hstart; split; simpl; lia).
      destruct (next_start_cases s (anchor cfg) Hvs Ha) as [Hvn Hn].
      assert (Hs1 : with_day s 1 = with_day (midnight (year now) (month now) 1) 1)
        by (rewrite Hstart; reflexivity).
      assert (Hb : dfc (with_day s 1) = dfc (with_day now 1))
        by (rewrite Hstart; reflexivity).
      assert (Hds : dfc s = dfc (with_day now 1) + anchor cfg - 1).
      { rewrite (dfc_as_with_day s), Hb. rewrite Hstart. simpl. lia. }
      assert (Hms : 1 <= month s <= 12) by (rewrite Hstart; exact Hm).
      assert (HLs : monthrange (year s) (month s) = monthrange (year now) (month now))
        by (rewrite Hstart; reflexivity).
      pose proof (dfc_first_of_next s Hms) as Hf. rewrite Hb, HLs in Hf.
      pose proof (first_of_next_month_valid s Hms) as Hmf.
      pose proof (dfc_first_of_next (first_of_next s) Hmf) as Hff.
      rewrite with_day_same in Hff by reflexivity.
      pose proof (monthrange_bounds (year (first_of_next s)) (month (first_of_next s))) as HLf.
      pose proof (monthrange_bounds (year (first_of_next (first_of_next s)))
                    (month (first_of_next (first_of_next s)))) as HLff.
      repeat split; try (rewrite Hstart; reflexivity); try apply Hvs; try apply Hvn; try lia.
      destruct Hn as [[_ ->]|[_ ->]]; rewrite dfc_with_day.
      + change (with_day (first_of_next s) 1) with (first_of_next s). lia.
      + change (with_day (first_of_next (first_of_next s)) 1)
          with (first_of_next (first_of_next s)). lia.
    - destruct (prev_next_month (year now) (month now) Hm) as [Hpm Hnext].
      set (py := fst (prev_month (year now) (month now))) in *.
      set (pm := snd (prev_month (year now) (month now))) in *.
      pose proof (monthrange_bounds py pm) as HLp.
      assert (Hvs : valid_date s) by (rewrite Hstart; split; simpl; lia).
      destruct (next_start_cases s (anchor cfg) Hvs Ha) as [Hvn Hn].
      assert (Hms : 1 <= month s <= 12) by (rewrite Hstart; exact Hpm).
      assert (Hfs : first_of_next s = with_day (midnight (year now) (month now) 1) 1).
      { rewrite Hstart. unfold first_of_next. simpl. rewrite Hnext. reflexivity. }
      pose proof (dfc_first_of_next s Hms) as Hf.
      assert (HLs : monthrange (year s) (month s) = monthrange py pm)
        by (rewrite Hstart; reflexivity).
      assert (Hdays : day s = Z.min (anchor cfg) (monthrange py pm))
        by (rewrite Hstart; reflexivity).
      assert (Hfb : dfc (first_of_next s) = dfc (with_day now 1))
        by (rewrite Hfs; reflexivity).
      assert (HLf : monthrange (year (first_of_next s)) (month (first_of_next s))
                    = monthrange (year now) (month now))
        by (rewrite Hfs; reflexivity).
      pose proof (first_of_next_month_valid s Hms) as Hmf.
      pose proof (dfc_first_of_next (first_of_next s) Hmf) as Hff.
      rewrite with_day_same in Hff by reflexivity.
      pose proof (monthrange_bounds (year (first_of_next (first_of_next s)))
                    (month (first_of_next (first_of_next s)))) as HLff.
      pose proof (dfc_as_with_day s) as Hds.
      repeat split; try (rewrite Hstart; reflexivity); try apply Hvs; try apply Hvn; try lia.
      destruct Hn as [[Hr ->]|[_ ->]]; rewrite dfc_with_day.
      + change (with_day (first_of_next s) 1) with (first_of_next s). lia.
      + change (with_day (first_of_next (first_of_next s)) 1)
          with (first_of_next (first_of_next s)). lia. }
  destruct Hfacts as (Hvs & Hsh & Hsm & Hss & Hle & Hlt & Hvn).
  destruct (clamp_day_midnight s (anchor cfg) 32 Hsh Hsm Hss) as (Hnh & Hnm & Hns).
  rewrite timestamp_sub_second_midnight; [| exact Hvn | exact Hnh | exact Hnm | exact Hns].
  rewrite !timestamp_dfc. rewrite Hsh, Hsm, Hss, Hnh, Hnm, Hns. lia.
Qed.

Lemma consecutive_months y m :
  1 <= m <= 12 ->
  59 <= monthrange y m
        + monthrange (fst (next_month y m)) (snd (next_month y m)).
Proof.
  intros Hm. apply month_cases in Hm.
  repeat (destruct Hm as [->|Hm]); try subst m;
    unfold next_month, monthrange; simpl;
    repeat match goal with |- context [isleap ?x] => destruct (isleap x) end; lia.
Qed.

Lemma cycle_contains_clock_witness :
  let now := {| year := 2023; month := 4; day := 30;
                hour := 15; minute := 30; second := 45 |} in
  let c := get_cycle_timestamps (with_cycle_start_day 31 default_config) 3600 now in
  valid_date now /\ valid_time now
  /\ cycle_start c <= timestamp 3600 now <= cycle_end c.
Proof.
  intros now c.
  assert (Hd : valid_date now) by (repeat split; vm_compute; discriminate).
  assert (Ht : valid_time now) by (repeat split; vm_compute; discriminate).
  split; [exact Hd|]. split; [exact Ht|].
  exact (cycle_contains_clock (with_cycle_start_day 31 default_config) 3600 now Hd Ht).
Defined.

(** X2. With an anchor day of at most 27 the cycle starts on the anchor
    day at midnight, ends one second before the anchor day of the following
    month, and the cycle computed at that following instant starts exactly
    there: consecutive windows are contiguous. *)
Theorem early_anchor_cycle cfg tz now :
  valid_date now -> anchor cfg <= 27 ->
  let c := get_cycle_timestamps cfg tz now in
  let s := fst (cycle_dates cfg now) in
  let n := with_day (first_of_next s) (anchor cfg) in
  day s = anchor cfg /\ hour s = 0 /\ minute s = 0 /\ second s = 0
  /\ cycle_end c + 1 = timestamp tz n
  /\ cycle_start (get_cycle_timestamps cfg tz n) = cycle_end c + 1.
Proof.
  intros Hv Ha27 c s n. pose proof Hv as [Hm Hd].
  pose proof (anchor_bounds cfg) as Ha.
  destruct (get_cycle_timestamps_fields cfg tz now) as [_ Ee]. fold c in Ee.
  pose proof (cycle_dates_start cfg now Hv) as Hstart. fold s in Hstart.
  pose proof (monthrange_bounds (year now) (month now)) as HL.
  destruct (prev_next_month (year now) (month now) Hm) as [Hpm _].
  pose proof (monthrange_bounds (fst (prev_month (year now) (month now)))
                (snd (prev_month (year now) (month now)))) as HLp.
  assert (Hs : valid_date s /\ day s = anchor cfg /\ hour s = 0
               /\ minute s = 0 /\ second s = 0).
  { destruct (Z.leb_spec (anchor cfg) (day now)); rewrite Hstart.
    - repeat split; simpl; lia.
    - rewrite Z.min_l by lia. repeat split; simpl; lia. }
  destruct Hs as (Hvs & Hds & Hsh & Hsm & Hss). pose proof Hvs as [Hms _].
  pose proof (first_of_next_month_valid s Hms) as Hmf.
  pose proof (monthrange_bounds (year (first_of_next s)) (month (first_of_next s))) as HLf.
  pose proof (monthrange_bounds (year s) (month s)) as HLs.
  pose proof (consecutive_months (year s) (month s) Hms) as Hcons.
  change (fst (next_month (year s) (month s))) with (year (first_of_next s)) in Hcons.
  change (snd (next_month (year s) (month s))) with (month (first_of_next s)) in Hcons.
  destruct (next_start_cases s (anchor cfg) Hvs Ha) as [Hvn [[_ Hn]|[Hr _]]]; [|lia].
  rewrite Z.min_l in Hn by lia. fold n in Hn.
  assert (Hvn' : valid_date n) by (rewrite <- Hn; exact Hvn).
  assert (Hnt : hour n = 0 /\ minute n = 0 /\ second n = 0).
  { unfold n, first_of_next. simpl. auto. }
  destruct Hnt as (Hnh & Hnm & Hns).
  assert (Hend : cycle_end c + 1 = timestamp tz n).
  { rewrite Ee, cycle_dates_end. fold s. rewrite Hn.
    rewrite timestamp_sub_second_midnight by assumption. lia. }
  repeat split; try assumption.
  rewrite Hend. clearbody c s.
  destruct (get_cycle_timestamps_fields cfg tz n) as [Es _]. rewrite Es.
  rewrite (cycle_dates_start cfg n Hvn').
  assert (Hdn : day n = anchor cfg) by reflexivity.
  rewrite Hdn, Z.leb_refl. f_equal.
  unfold midnight, n, with_day, first_of_next. cbn [year month day hour minute second].
  rewrite Hsh, Hsm, Hss. reflexivity.
Qed.

Lemma early_anchor_cycle_witness :
  let cfg := with_cycle_start_day 15 default_config in
  let now := {| year := 2024; month := 2; day := 3;
                hour := 9; minute := 0; second := 0 |} in
  let c := get_cycle_timestamps cfg 0 now in
  valid_date now /\ anchor cfg <= 27
  /\ cycle_end c + 1 = timestamp 0 (midnight 2024 2 15)
  /\ cycle_start (get_cycle_timestamps cfg 0 (midnight 2024 2 15)) = cycle_end c + 1.
Proof.
  intros cfg now c.
  assert (Hd : valid_date now) by (repeat split; vm_compute; discriminate).
  assert (Ha : anchor cfg <= 27) by (vm_compute; discriminate).
  destruct (early_anchor_cycle cfg 0 now Hd Ha) as (_ & _ & _ & _ & H1 & H2).
  split; [exact Hd|]. split; [exact Ha|]. split; [exact H1 | exact H2].
Defined.

(** * Further properties of the loop and its helpers *)

Section Keeps.
Variable J : Mem -> Prop.
Variable P : event -> Prop.

Lemma keeps_ret {A} (a : A) : keeps J P (ret a).
Proof. intros m Hm. split; [exact Hm | constructor]. Qed.

Lemma keeps_raise {A} : keeps J P (@raise A).
Proof. intros m Hm. split; [exact Hm | constructor]. Qed.

Lemma keeps_bind {A B} (c : M A) (k : A -> M B) :
  keeps J P c -> (forall a, keeps J P (k a)) -> keeps J P (bind c k).
Proof.
  intros Hc Hk m Hm. unfold bind.
  destruct (Hc m Hm) as [H1 H2].
  destruct (result_of (c m)) as [a|]; simpl.
  - destruct (Hk a _ H1) as [H3 H4]. split; [exact H3|].
    apply Forall_app. split; assumption.
  - split; assumption.
Qed.

(** Reading the state: the continuation is run on the value read. *)
Lemma keeps_get_state {A} (k : State -> M A) :
  (forall m, J m -> J (mem_of (k (state m) m)) /\ Forall P (trace_of (k (state m) m))) ->
  keeps J P (bind get_state k).
Proof. intros Hk m Hm. unfold bind, get_state. simpl. apply Hk. exact Hm. Qed.

Lemma keeps_get_tc_initialized {A} (k : gmap string bool -> M A) :
  (forall m, J m -> J (mem_of (k (tc_initialized m) m))
                    /\ Forall P (trace_of (k (tc_initialized m) m))) ->
  keeps J P (bind get_tc_initialized k).
Proof. intros Hk m Hm. unfold bind, get_tc_initialized. simpl. apply Hk. exact Hm. Qed.

Lemma keeps_emit e : P e -> keeps J P (emit e).
Proof. intros He m Hm. split; [exact Hm | repeat constructor; exact He]. Qed.

Lemma keeps_modify_state f :
  (forall m, J m -> J {| state := f (state m); tc_initialized := tc_initialized m |}) ->
  keeps J P (modify_state f).
Proof. intros Hf m Hm. split; [apply Hf; exact Hm | constructor]. Qed.

Lemma keeps_put_state s :
  (forall m, J m -> J {| state := s; tc_initialized := tc_initialized m |}) ->
  keeps J P (put_state s).
Proof. intros Hf m Hm. split; [apply Hf; exact Hm | constructor]. Qed.

Lemma keeps_set_tc_initialized i b :
  (forall m, J m -> J {| state := state m;
                         tc_initialized := <[i := b]> (tc_initialized m) |}) ->
  keeps J P (set_tc_initialized i b).
Proof. intros Hf m Hm. split; [apply Hf; exact Hm | constructor]. Qed.

Lemma keeps_for_each {X} (l : list X) (body : X -> M unit) :
  (forall x, keeps J P (body x)) -> keeps J P (for_each l body).
Proof.
  intros Hb. induction l as [|x l IH]; simpl.
  - apply keeps_ret.
  - apply keeps_bind; [apply Hb | intros _; exact IH].
Qed.

Lemma keeps_if {A} (b : bool) (c1 c2 : M A) :
  keeps J P c1 -> keeps J P c2 -> keeps J P (if b then c1 else c2).
Proof. destruct b; auto. Qed.

Lemma keeps_send_telegram cfg n : P (Telegram n) -> keeps J P (send_telegram cfg n).
Proof.
  intros Hn. unfold send_telegram. apply keeps_if.
  - apply keeps_bind; [apply keeps_emit; exact Hn | intros; apply keeps_ret].
  - apply keeps_ret.
Qed.

End Keeps.

Lemma get_current_bytes_counters_only cfg p i s :
  counters_only s (get_current_bytes cfg p i s).1.2.
Proof.
  unfold get_current_bytes, sysfs_fallback.
  destruct (vnstat_installed p), (get_vnstat_data p), (get_sysfs_data cfg p);
    simpl; repeat split.
Qed.

Lemma keeps_sample J P cfg p i :
  (forall m s', J m -> counters_only (state m) s' ->
                J {| state := s'; tc_initialized := tc_initialized m |}) ->
  (forall e, is_read e -> P e) ->
  keeps J P (sample cfg p i).
Proof.
  intros HJ HP m Hm. unfold sample.
  pose proof (get_current_bytes_counters_only cfg p i (state m)) as H1.
  pose proof (get_current_bytes_frame cfg p i (state m)) as [_ H2].
  destruct (get_current_bytes cfg p i (state m)) as [[v s'] t]. simpl in *.
  split; [apply HJ; assumption|].
  eapply Forall_impl; [exact H2 | exact HP].
Qed.

Section TcLess.
Variable cfg : Config.
Variable i : string.

Local Abbreviation untouched := (keeps (tc_less i) (no_tc_for i)).

Lemma tc_less_state m s' :
  tc_less i m -> detected_interfaces s' = detected_interfaces (state m) ->
  tc_less i {| state := s'; tc_initialized := tc_initialized m |}.
Proof. intros [H1 H2] E. split; simpl; [rewrite E; exact H1 | exact H2]. Qed.

Lemma untouched_sample p j : untouched (sample cfg p j).
Proof.
  apply keeps_sample.
  - intros m s' Hm Hc. apply tc_less_state; [exact Hm|].
    destruct Hc as (_ & _ & _ & _ & _ & _ & _ & _ & _ & E). exact E.
  - intros [] H; simpl in *; auto.
Qed.

Lemma untouched_sample_all pr l : untouched (sample_all cfg pr l).
Proof.
  induction l as [|j l IH]; simpl; [apply keeps_ret|].
  apply keeps_bind; [apply untouched_sample|]. intros v.
  apply keeps_bind; [exact IH | intros; apply keeps_ret].
Qed.

Lemma untouched_modify f :
  (forall s, detected_interfaces (f s) = detected_interfaces s) ->
  untouched (modify_state f).
Proof. intros Hf. apply keeps_modify_state. intros m Hm. apply tc_less_state; auto. Qed.

(** Setting up [tc] for another interface. *)
Lemma untouched_init_tc env j : j <> i -> untouched (init_tc env j).
Proof.
  intros Hj. unfold init_tc, setup_tc.
  assert (Hset : forall b, untouched (set_tc_initialized j b)).
  { intros b. apply keeps_set_tc_initialized. intros m [H1 H2]. split; simpl.
    - exact H1.
    - rewrite lookup_insert_ne by exact Hj. exact H2. }
  apply keeps_if; [|apply Hset].
  apply keeps_bind; [|intros; apply Hset].
  apply keeps_if; [apply keeps_raise|].
  apply keeps_bind; [apply keeps_emit; exact Hj | intros; apply keeps_ret].
Qed.

Lemma untouched_detect_new_interfaces env : untouched (detect_new_interfaces env).
Proof.
  unfold detect_new_interfaces. apply keeps_for_each. intros iface.
  apply keeps_get_state. intros m Hm.
  destruct (bool_decide (iface ∈ detected_interfaces (state m))) eqn:E.
  - apply keeps_ret. exact Hm.
  - apply bool_decide_eq_false in E.
    assert (Hne : iface <> i) by (intros ->; apply E; apply Hm).
    apply keeps_bind; [|intros; apply untouched_init_tc; exact Hne|exact Hm].
    apply keeps_modify_state. intros m' [H1 H2]. split; simpl; [|exact H2].
    apply elem_of_app. left. exact H1.
Qed.

Lemma untouched_disable_tc_limit env j : j <> i -> untouched (disable_tc_limit env j).
Proof.
  intros Hj. unfold disable_tc_limit. apply keeps_if; [apply keeps_raise|].
  apply keeps_bind; [apply keeps_emit; exact Hj | intros; apply keeps_ret].
Qed.

Lemma untouched_update_tc_limit env r j : j <> i -> untouched (update_tc_limit env j r).
Proof.
  intros Hj. unfold update_tc_limit. apply keeps_if; [apply keeps_raise|].
  apply keeps_bind; [apply keeps_emit; exact Hj | intros; apply keeps_ret].
Qed.

(** The loops that restore the physical rate (lines 732-734, 742-744). *)
Lemma untouched_disable_all env l :
  untouched (for_each l (fun interface =>
    tc <- get_tc_initialized ;;
    if default false (tc !! interface)
    then (_ <- disable_tc_limit env interface ;; ret tt)
    else ret tt)).
Proof.
  apply keeps_for_each. intros j.
  apply keeps_get_tc_initialized. intros m Hm.
  destruct (default false (tc_initialized m !! j)) eqn:E; [|apply keeps_ret; exact Hm].
  assert (Hne : j <> i) by (intros ->; destruct Hm as [_ H]; congruence).
  apply keeps_bind;
    [apply untouched_disable_tc_limit; exact Hne | intros; apply keeps_ret | exact Hm].
Qed.

Lemma untouched_release env j : untouched (release env j).
Proof.
  unfold release. apply keeps_get_state. intros m Hm.
  apply keeps_bind; [|intros _|exact Hm].
  { apply keeps_if; [apply keeps_emit; exact I | apply keeps_ret]. }
  apply keeps_get_state. intros m1 Hm1.
  apply keeps_get_tc_initialized; [|exact Hm1]. intros m2 Hm2.
  destruct (is_limiting (state m1)); cbn [andb]; [|apply keeps_ret; exact Hm2].
  destruct (default false (tc_initialized m2 !! j)) eqn:E; [|apply keeps_ret; exact Hm2].
  assert (Hne : j <> i) by (intros ->; destruct Hm2 as [_ H]; congruence).
  apply keeps_bind;
    [apply untouched_disable_tc_limit; exact Hne | intros; apply keeps_ret | exact Hm2].
Qed.

Lemma untouched_cycle_reset env cycle t : untouched (cycle_reset cfg env cycle t).
Proof.
  unfold cycle_reset. apply keeps_get_state. intros m Hm.
  destruct (rollover_due cycle t (state m)); [|apply keeps_ret; exact Hm].
  apply keeps_bind; [apply keeps_for_each; intros j; apply untouched_release | |exact Hm].
  intros _. apply keeps_bind.
  { apply keeps_if; [|apply keeps_ret].
    apply keeps_bind; [apply keeps_send_telegram; exact I | intros; apply keeps_ret]. }
  intros _. apply keeps_get_state. intros m1 Hm1.
  apply keeps_put_state; [|exact Hm1].
  intros m2 Hm2. split; simpl; [apply Hm1 | apply Hm2].
Qed.

Lemma untouched_daily_report env : untouched (daily_report cfg env).
Proof.
  unfold daily_report, generate_report. apply keeps_get_state. intros m Hm.
  destruct (should_send_daily_report cfg env (state m)); [|apply keeps_ret; exact Hm].
  apply keeps_bind; [| |exact Hm].
  - apply keeps_for_each. intros j.
    apply keeps_bind; [apply untouched_sample|]. intros _.
    apply keeps_if; [apply keeps_raise | apply keeps_ret].
  - intros _. apply keeps_bind; [apply keeps_send_telegram; exact I|].
    intros sent. apply keeps_if; [|apply keeps_ret].
    apply untouched_modify. reflexivity.
Qed.

Lemma untouched_block_check rem : untouched (block_check cfg rem).
Proof.
  unfold block_check, block_network. apply keeps_get_state. intros m Hm.
  destruct (negb (is_blocked (state m)) && Qle_bool rem (HARD_LIMIT_GB cfg));
    [|apply keeps_ret; exact Hm].
  apply keeps_bind; [apply untouched_modify; reflexivity | |exact Hm].
  intros _. apply keeps_bind.
  { apply keeps_for_each. intros j. apply keeps_emit. exact I. }
  intros _. apply keeps_bind; [apply keeps_send_telegram; exact I | intros; apply keeps_ret].
Qed.

Lemma untouched_limit_control env used rem t :
  untouched (limit_control cfg env used rem t).
Proof.
  unfold limit_control. apply keeps_get_state. intros m Hm.
  apply keeps_bind; [| |exact Hm].
  { apply keeps_if; [|apply keeps_ret].
    apply keeps_bind; [apply untouched_modify; reflexivity|]. intros _.
    apply keeps_bind; [apply keeps_send_telegram; exact I | intros; apply keeps_ret]. }
  intros _. apply keeps_get_state. intros m1 Hm1.
  destruct (is_limiting (state m1)); [|apply untouched_disable_all; exact Hm1].
  apply keeps_bind; [| |exact Hm1].
  - apply keeps_for_each. intros j.
    apply keeps_get_tc_initialized. intros m2 Hm2.
    destruct (default false (tc_initialized m2 !! j)) eqn:E; [|apply keeps_ret; exact Hm2].
    assert (Hne : j <> i) by (intros ->; destruct Hm2 as [_ H]; congruence).
    apply keeps_bind; [apply untouched_update_tc_limit; exact Hne | |exact Hm2].
    intros ok. apply keeps_if; [apply untouched_modify; reflexivity | apply keeps_ret].
  - intros _. apply keeps_if; [|apply keeps_ret].
    apply keeps_bind; [apply untouched_disable_all|]. intros _.
    apply keeps_bind; [apply untouched_modify; reflexivity|]. intros _.
    apply keeps_bind; [apply keeps_send_telegram; exact I | intros; apply keeps_ret].
Qed.

Lemma untouched_save_state : untouched save_state.
Proof.
  unfold save_state. apply keeps_get_state. intros m Hm.
  apply keeps_emit; [exact I | exact Hm].
Qed.

Lemma untouched_control env t : untouched (control cfg env t).
Proof.
  unfold control, sleep. apply keeps_get_state. intros m Hm.
  apply keeps_bind; [apply untouched_sample_all | |exact Hm].
  intros total. apply keeps_if; [apply keeps_raise|].
  apply keeps_bind; [apply untouched_block_check|]. intros _.
  apply keeps_get_state. intros m1 Hm1.
  destruct (is_blocked (state m1)).
  - apply keeps_bind; [apply untouched_save_state | |exact Hm1].
    intros _. apply keeps_emit. exact I.
  - apply keeps_bind; [apply untouched_limit_control | |exact Hm1].
    intros _. apply keeps_bind; [apply untouched_save_state|].
    intros _. apply keeps_emit. exact I.
Qed.

Lemma untouched_tick env : untouched (tick cfg env).
Proof.
  unfold tick.
  generalize (get_cycle_timestamps cfg (tz env) (clock_cycle env)). intros cycle.
  apply keeps_bind; [apply untouched_detect_new_interfaces|]. intros _.
  apply keeps_bind; [apply untouched_cycle_reset|]. intros _.
  apply keeps_bind; [apply untouched_daily_report|]. intros _.
  apply untouched_control.
Qed.

Lemma on_error_mem m n :
  Forall (no_tc_for i) (on_error cfg m n).1
  /\ forall l', (on_error cfg m n).2 = Continue l' -> mem l' = m.
Proof.
  unfold on_error, send_telegram.
  destruct ((n + 1) mod 3 =? 0), (TELEGRAM_ENABLED cfg), (telegram_ready cfg),
    (MAX_CONSECUTIVE_FAILURES cfg <=? n + 1); simpl;
    (split; [repeat constructor | intros l' E; inversion E; reflexivity]).
Qed.

Lemma untouched_run_loop envs : forall l,
  tc_less i (mem l) ->
  Forall (no_tc_for i) (run_loop cfg envs l).1
  /\ forall l', (run_loop cfg envs l).2 = Continue l' -> tc_less i (mem l').
Proof.
  induction envs as [|env envs IH]; intros l Hl.
  - simpl. split; [constructor|]. intros l' E. inversion E. subst. exact Hl.
  - cbn [run_loop]. unfold loop_iteration.
    destruct (untouched_tick env (mem l) Hl) as [H1 H2].
    destruct (result_of (tick cfg env (mem l))) as [[]|].
    + specialize (IH {| mem := mem_of (tick cfg env (mem l));
                        consecutive_failures := 0 |} H1).
      destruct (run_loop cfg envs _) as [t' flow]. simpl in *.
      destruct IH as [H3 H4]. split; [apply Forall_app; split; assumption | exact H4].
    + pose proof (on_error_mem (mem_of (tick cfg env (mem l)))
                    (consecutive_failures l)) as [H3 H4].
      destruct (on_error cfg _ _) as [t [l1|status]]; simpl in *.
      * assert (Hl1 : tc_less i (mem l1)) by (rewrite (H4 l1 eq_refl); exact H1).
        specialize (IH l1 Hl1).
        destruct (run_loop cfg envs l1) as [t' flow]. simpl in *.
        destruct IH as [H5 H6]. split; [|exact H6].
        apply Forall_app. split; [apply Forall_app; split; assumption | exact H5].
      * split; [apply Forall_app; split; assumption|]. intros l' E. discriminate.
Qed.

End TcLess.

(** ** Completed runs *)

Lemma bind_done {A B} (c : M A) (k : A -> M B) m b :
  result_of (bind c k m) = Done b ->
  exists a, result_of (c m) = Done a
    /\ result_of (k a (mem_of (c m))) = Done b
    /\ mem_of (bind c k m) = mem_of (k a (mem_of (c m)))
    /\ trace_of (bind c k m) = trace_of (c m) ++ trace_of (k a (mem_of (c m))).
Proof.
  unfold bind. destruct (result_of (c m)) as [a|]; simpl; [|discriminate].
  intros H. exists a. auto.
Qed.

Lemma hoare_bind {A B} pre (c : M A) mid (k : A -> M B) post :
  hoare pre c mid -> (forall a, hoare (mid a) (k a) post) ->
  hoare pre (bind c k) post.
Proof.
  intros Hc Hk m Hm b Hb.
  destruct (bind_done c k m b Hb) as (a & Ha & Hb' & Em & _).
  rewrite Em. eapply Hk; [eapply Hc; eassumption | exact Hb'].
Qed.

Lemma hoare_ret {A} (pre : Mem -> Prop) (a : A) : hoare pre (ret a) (fun a' m => a' = a /\ pre m).
Proof. intros m Hm a' E. inversion E. auto. Qed.

Lemma hoare_get_state pre : hoare pre get_state (fun s m => s = state m /\ pre m).
Proof. intros m Hm a E. inversion E. auto. Qed.

Lemma hoare_get_tc_initialized pre :
  hoare pre get_tc_initialized (fun tc m => tc = tc_initialized m /\ pre m).
Proof. intros m Hm a E. inversion E. auto. Qed.

Lemma hoare_conseq {A} (pre pre' : Mem -> Prop) (c : M A) (post post' : A -> Mem -> Prop) :
  (forall m, pre' m -> pre m) -> hoare pre c post ->
  (forall a m, post a m -> post' a m) -> hoare pre' c post'.
Proof. intros H1 Hc H2 m Hm a Ha. apply H2. eapply Hc; eauto. Qed.

Lemma hoare_raise {A} pre (post : A -> Mem -> Prop) : hoare pre raise post.
Proof. intros m _ a E. discriminate. Qed.

Lemma hoare_if {A} pre (b : bool) (c1 c2 : M A) post :
  (b = true -> hoare pre c1 post) -> (b = false -> hoare pre c2 post) ->
  hoare pre (if b then c1 else c2) post.
Proof. destruct b; auto. Qed.

Lemma hoare_inv (J : State -> Prop) P {A} (c : M A) :
  inv J P c -> hoare (fun m => J (state m)) c (fun _ m => J (state m)).
Proof. intros Hc m Hm a _. apply (Hc m Hm). Qed.

Lemma hoare_keeps (J : Mem -> Prop) P {A} (c : M A) :
  keeps J P c -> hoare J c (fun _ m => J m).
Proof. intros Hc m Hm a _. apply (Hc m Hm). Qed.

Lemma hoare_modify_state pre f :
  hoare pre (modify_state f)
    (fun _ m' => exists m, pre m /\ m' = {| state := f (state m);
                                            tc_initialized := tc_initialized m |}).
Proof. intros m Hm a _. exists m. auto. Qed.

(** ** State properties the passes of a tick keep *)

Section StateFrame.
Variable cfg : Config.
Variable J : State -> Prop.
Hypothesis J_counters : forall s s', counters_only s s' -> J s -> J s'.
Hypothesis J_blocked : forall b s, J s -> J (set_is_blocked b s).
Hypothesis J_limiting : forall b s, J s -> J (set_is_limiting b s).
Hypothesis J_rate : forall r s, J s -> J (set_last_rate_kbps r s).

Local Abbreviation framed := (inv J (fun _ => True)).

Lemma framed_sample p i : framed (sample cfg p i).
Proof.
  intros m Hm. unfold sample.
  pose proof (get_current_bytes_counters_only cfg p i (state m)) as H1.
  destruct (get_current_bytes cfg p i (state m)) as [[v s'] t]. simpl in *.
  split; [eapply J_counters; eassumption|].
  apply Forall_forall. auto.
Qed.

Lemma framed_sample_all pr l : framed (sample_all cfg pr l).
Proof.
  induction l as [|i l IH]; simpl; [apply inv_ret|].
  apply inv_bind; [apply framed_sample|]. intros v.
  apply inv_bind; [exact IH | intros; apply inv_ret].
Qed.

Lemma framed_block_check rem : framed (block_check cfg rem).
Proof. unfold block_check, block_network. inv_auto. Qed.

Lemma framed_limit_control env used rem t : framed (limit_control cfg env used rem t).
Proof. unfold limit_control. inv_auto. Qed.

Lemma framed_control env t : framed (control cfg env t).
Proof.
  unfold control, save_state, sleep.
  apply inv_bind; [apply inv_get_state|]. intros s.
  apply inv_bind; [apply framed_sample_all|]. intros total.
  apply inv_if; [apply inv_raise|].
  apply inv_bind; [apply framed_block_check|]. intros _.
  apply inv_bind; [apply inv_get_state|]. intros s'.
  apply inv_if.
  - inv_auto.
  - apply inv_bind; [apply framed_limit_control|]. inv_auto.
Qed.

Lemma framed_daily_report env :
  (forall t s, J s -> J (set_last_daily_report t s)) ->
  framed (daily_report cfg env).
Proof.
  intros J_report. unfold daily_report, generate_report.
  apply inv_bind; [apply inv_get_state|]. intros s.
  apply inv_if; [|apply inv_ret].
  apply inv_bind.
  - apply inv_for_each. intros i.
    apply inv_bind; [apply framed_sample|]. inv_auto.
  - inv_auto.
Qed.

Lemma framed_detect_new_interfaces env :
  (forall l s, J s -> J (set_detected_interfaces l s)) ->
  framed (detect_new_interfaces env).
Proof.
  intros J_detected. unfold detect_new_interfaces, init_tc, setup_tc. inv_auto.
Qed.

End StateFrame.

(** ** The state after a completed tick *)

Lemma cycle_reset_sets_start cfg env cycle t m :
  result_of (cycle_reset cfg env cycle t m) = Done tt ->
  cycle_start_ts (state (mem_of (cycle_reset cfg env cycle t m))) = cycle_start cycle.
Proof.
  intros Hd. destruct (rollover_due cycle t (state m)) eqn:Hdue.
  - pose proof (cycle_reset_fires cfg env cycle t m Hdue) as Hf. cbv zeta in Hf.
    destruct Hf as [[_ Hm]|[Hr _]]; [|congruence]. rewrite Hm. reflexivity.
  - rewrite (cycle_reset_idle cfg env cycle t m Hdue). simpl.
    unfold rollover_due in Hdue. apply orb_false_iff in Hdue as [_ H].
    apply negb_false_iff, Z.eqb_eq in H. exact H.
Qed.

(** X3. After a tick that completes, the cycle start kept in the state is
    the start of the cycle computed in that tick, whatever the state was
    before (lines 607-643). *)
Theorem tick_state_in_cycle cfg env m :
  result_of (tick cfg env m) = Done tt ->
  cycle_start_ts (state (mem_of (tick cfg env m)))
  = cycle_start (get_cycle_timestamps cfg (tz env) (clock_cycle env)).
Proof.
  unfold tick.
  generalize (get_cycle_timestamps cfg (tz env) (clock_cycle env)). intros cycle Hd.
  apply bind_done in Hd as ([] & _ & Hd & -> & _).
  apply bind_done in Hd as ([] & Hreset & Hd & -> & _).
  apply cycle_reset_sets_start in Hreset.
  set (m1 := mem_of (cycle_reset cfg env cycle (clock_tick env)
                       (mem_of (detect_new_interfaces env m)))) in *.
  assert (Hframe : inv (fun s => cycle_start_ts s = cycle_start cycle) (fun _ => True)
                     (daily_report cfg env ;;
                      control cfg env (time_remaining_sec cycle (clock_tick env)))).
  { apply inv_bind.
    - apply framed_daily_report; intros; simpl; auto.
      destruct H as (_ & E & _). congruence.
    - intros _. apply framed_control; intros; simpl; auto.
      destruct H as (_ & E & _). congruence. }
  apply (Hframe m1 Hreset).
Qed.

Lemma tick_state_in_cycle_witness :
  let r := tick default_config (january_host 5 0) (mem january_boot) in
  result_of r = Done tt
  /\ cycle_start_ts (state (mem_of r))
     = cycle_start (get_cycle_timestamps default_config (tz (january_host 5 0))
                      (clock_cycle (january_host 5 0))).
Proof.
  intros r.
  assert (H : result_of r = Done tt) by (vm_compute; reflexivity).
  exact (conj H (tick_state_in_cycle default_config (january_host 5 0)
                   (mem january_boot) H)).
Defined.

(** The block check as a run. *)
Lemma block_check_run cfg rem m :
  let r := block_check cfg rem m in
  result_of r = Done tt
  /\ is_blocked (state (mem_of r))
     = is_blocked (state m) || Qle_bool rem (HARD_LIMIT_GB cfg)
  /\ is_limiting (state (mem_of r)) = is_limiting (state m).
Proof.
  cbv zeta. unfold block_check, bind, get_state, modify_state, send_telegram,
    emit, ret.
  cbn [result_of mem_of trace_of].
  destruct (is_blocked (state m)) eqn:Eb, (Qle_bool rem (HARD_LIMIT_GB cfg)) eqn:Er;
    cbn [negb andb orb result_of mem_of trace_of state tc_initialized];
    rewrite ?block_all; cbn [result_of mem_of trace_of state tc_initialized];
    try (destruct (telegram_ready cfg));
    cbn [result_of mem_of trace_of state tc_initialized is_blocked is_limiting
         set_is_blocked]; auto.
Qed.

(** The limiting pass leaves [is_limiting] equal to the threshold test. *)
Lemma limit_control_sets_flag cfg env used rem t :
  hoare (fun _ => True) (limit_control cfg env used rem t)
        (fun _ m' => is_limiting (state m') = Qle_bool (THRESHOLD_PERCENT cfg) used).
Proof.
  unfold limit_control.
  set (thr := Qle_bool (THRESHOLD_PERCENT cfg) used).
  eapply hoare_bind; [apply hoare_get_state|]. intros s.
  eapply hoare_bind with (mid := fun _ m' => is_limiting (state m') = is_limiting s || thr).
  { intros m [-> _] a _.
    unfold bind, modify_state, send_telegram, emit, ret.
    destruct (is_limiting (state m)) eqn:El, thr; cbn [negb andb orb];
      try (destruct (telegram_ready cfg)); simpl; auto. }
  intros _. eapply hoare_bind; [apply hoare_get_state|]. intros s1.
  assert (Hdis : forall b l,
    inv (fun s => is_limiting s = b) (fun _ => True)
      (for_each l (fun interface =>
         tc <- get_tc_initialized ;;
         if default false (tc !! interface)
         then (_ <- disable_tc_limit env interface ;; ret tt)
         else ret tt))) by (intros; inv_auto).
  apply hoare_if; intros El.
  - eapply hoare_bind
      with (mid := fun _ m' => is_limiting (state m') = true /\ (is_limiting s || thr = true)).
    { intros m [-> H] a _. split; [|congruence].
      assert (Hupd : inv (fun s => is_limiting s = true) (fun _ => True)
        (for_each (detected_interfaces (state m)) (fun interface =>
           tc <- get_tc_initialized ;;
           if default false (tc !! interface) then
             ok <- update_tc_limit env interface (target_rate_kbps cfg rem t) ;;
             (if ok then modify_state (set_last_rate_kbps (target_rate_kbps cfg rem t))
              else ret tt)
           else ret tt))) by inv_auto.
      apply (Hupd m El). }
    intros _. destruct thr eqn:Ethr; cbn [negb].
    + intros m [H _] a Ha. inversion Ha. simpl. exact H.
    + intros m [H _] a Ha.
      apply bind_done in Ha as ([] & _ & Ha & -> & _).
      unfold bind, modify_state, send_telegram, emit, ret.
      destruct (telegram_ready cfg); reflexivity.
  - intros m [-> H] a _.
    assert (Ethr : thr = false) by (destruct (is_limiting s), thr; simpl in *; congruence).
    rewrite Ethr. apply (Hdis false _ m El).
Qed.

Lemma limit_control_keeps_unblocked cfg env used rem t m :
  is_blocked (state m) = false ->
  is_blocked (state (mem_of (limit_control cfg env used rem t m))) = false.
Proof.
  intros H.
  apply (framed_limit_control cfg (fun s => is_blocked s = false)); auto.
Qed.

Lemma bind_get_state {A} (k : State -> M A) m :
  bind get_state k m = k (state m) m.
Proof. unfold bind, get_state. simpl. destruct (k (state m) m); reflexivity. Qed.

Lemma bind_run_done {A B} (c : M A) (k : A -> M B) m m1 tr a :
  c m = {| mem_of := m1; trace_of := tr; result_of := Done a |} ->
  bind c k m
  = {| mem_of := mem_of (k a m1); trace_of := tr ++ trace_of (k a m1);
       result_of := result_of (k a m1) |}.
Proof. intros E. unfold bind. rewrite E. reflexivity. Qed.

Lemma bind_mem_done {A B} (c : M A) (k : A -> M B) m a :
  result_of (c m) = Done a ->
  mem_of (bind c k m) = mem_of (k a (mem_of (c m)))
  /\ result_of (bind c k m) = result_of (k a (mem_of (c m))).
Proof. intros E. unfold bind. rewrite E. auto. Qed.

Lemma save_sleep_run u m :
  (save_state ;; sleep u) m
  = {| mem_of := m; trace_of := [SaveState (state m); Sleep u]; result_of := Done tt |}.
Proof. reflexivity. Qed.

(** X4. The control pass of a tick, with a quota that is not zero: summing
    the counters never raises; if the pass completes, the block flag is the
    old flag or [remaining_gb <= HARD_LIMIT_GB]; while blocked the limiting
    flag is left as it was, and otherwise it is exactly
    [used_percent >= THRESHOLD_PERCENT] (lines 668-749). *)
Theorem control_transition cfg env t m :
  Qeq_bool (TOTAL_QUOTA_GB cfg) 0 = false ->
  exists total,
    result_of (sample_all cfg (probe env) (detected_interfaces (state m)) m) = Done total
    /\ (result_of (control cfg env t m) = Done tt ->
        let s' := state (mem_of (control cfg env t m)) in
        is_blocked s'
        = is_blocked (state m)
          || Qle_bool (remaining_gb cfg total) (HARD_LIMIT_GB cfg)
        /\ (is_blocked s' = true -> is_limiting s' = is_limiting (state m))
        /\ (is_blocked s' = false ->
            is_limiting s' = Qle_bool (THRESHOLD_PERCENT cfg) (used_percent cfg total))).
Proof.
  intros Hq.
  destruct (sample_all_run cfg (probe env) (detected_interfaces (state m)) m)
    as (total & s1 & tr & E & (A1 & A2 & _) & _).
  exists total. split; [rewrite E; reflexivity|].
  cbv zeta. unfold control. rewrite bind_get_state.
  rewrite (bind_run_done _ _ _ _ _ _ E). cbn [result_of mem_of]. rewrite Hq.
  set (m1 := {| state := s1; tc_initialized := tc_initialized m |}).
  set (rem := remaining_gb cfg total). set (used := used_percent cfg total).
  pose proof (block_check_run cfg rem m1) as HB. cbv zeta in HB.
  destruct HB as (B1 & B2 & B3).
  change (state m1) with s1 in B2, B3. rewrite A1 in B2. rewrite A2 in B3.
  destruct (bind_mem_done (block_check cfg rem)
              (fun _ => s <- get_state ;;
                 if is_blocked s then save_state ;; sleep (UPDATE_INTERVAL_SEC cfg)
                 else limit_control cfg env used rem t ;;
                      save_state ;; sleep (UPDATE_INTERVAL_SEC cfg)) m1 tt B1)
    as [Em Er].
  rewrite Em, Er. set (m2 := mem_of (block_check cfg rem m1)) in *.
  rewrite bind_get_state.
  destruct (is_blocked (state m2)) eqn:Eb.
  - rewrite save_sleep_run. cbn [result_of mem_of]. intros _.
    rewrite Eb. split; [exact B2|]. split; [intros _; exact B3 | discriminate].
  - intros Hd. apply bind_done in Hd as ([] & Hlim & _ & Em' & _).
    rewrite Em'. rewrite save_sleep_run. cbn [mem_of].
    pose proof (limit_control_sets_flag cfg env used rem t m2 I tt Hlim) as Hflag.
    pose proof (limit_control_keeps_unblocked cfg env used rem t m2 Eb) as Hub.
    rewrite Hub. split; [exact B2|]. split; [discriminate | intros _; exact Hflag].
Qed.

Lemma control_transition_witness :
  let env := january_host 5 (999 * 1024 ^ 3) in
  let r := control default_config env 86400 (mem january_boot) in
  Qeq_bool (TOTAL_QUOTA_GB default_config) 0 = false
  /\ result_of r = Done tt
  /\ is_blocked (state (mem_of r)) = true
  /\ is_limiting (state (mem_of r)) = false.
Proof.
  intros env r.
  assert (Hq : Qeq_bool (TOTAL_QUOTA_GB default_config) 0 = false) by reflexivity.
  assert (Hd : result_of r = Done tt) by (vm_compute; reflexivity).
  destruct (control_transition default_config env 86400 (mem january_boot) Hq)
    as (total & Et & H).
  destruct (H Hd) as (Hb & Hl & _).
  assert (Etotal : total = 999 * 1024 ^ 3).
  { vm_compute in Et. injection Et as <-. reflexivity. }
  subst total.
  assert (Hb' : is_blocked (state (mem_of r)) = true).
  { etransitivity; [exact Hb|]. vm_compute. reflexivity. }
  split; [exact Hq|]. split; [exact Hd|]. split; [exact Hb'|].
  etransitivity; [exact (Hl Hb')|]. vm_compute. reflexivity.
Defined.

(** ** What a tick persists *)

Section Persisting.
Variable cfg : Config.

Local Abbreviation unsaved := (inv (fun _ => True) nothing_saved).

Lemma unsaved_sample p i : unsaved (sample cfg p i).
Proof.
  intros m _. unfold sample.
  pose proof (get_current_bytes_frame cfg p i (state m)) as [_ H2].
  destruct (get_current_bytes cfg p i (state m)) as [[v s'] t]. simpl in *.
  split; [exact I|].
  eapply Forall_impl; [exact H2|]. intros [] H; simpl in *; auto.
Qed.

Lemma unsaved_sample_all pr l : unsaved (sample_all cfg pr l).
Proof.
  induction l as [|i l IH]; simpl; [apply inv_ret|].
  apply inv_bind; [apply unsaved_sample|]. intros v.
  apply inv_bind; [exact IH | intros; apply inv_ret].
Qed.

Lemma unsaved_detect_new_interfaces env : unsaved (detect_new_interfaces env).
Proof. unfold detect_new_interfaces, init_tc, setup_tc. inv_auto. Qed.

Lemma unsaved_cycle_reset env cycle t : unsaved (cycle_reset cfg env cycle t).
Proof. unfold cycle_reset, release, unblock_network, put_state. inv_auto. Qed.

Lemma unsaved_daily_report env : unsaved (daily_report cfg env).
Proof.
  unfold daily_report, generate_report.
  apply inv_bind; [apply inv_get_state|]. intros s.
  apply inv_if; [|apply inv_ret].
  apply inv_bind.
  - apply inv_for_each. intros i.
    apply inv_bind; [apply unsaved_sample|]. inv_auto.
  - inv_auto.
Qed.

Lemma unsaved_block_check rem : unsaved (block_check cfg rem).
Proof. unfold block_check, block_network. inv_auto. Qed.

Lemma unsaved_limit_control env used rem t : unsaved (limit_control cfg env used rem t).
Proof. unfold limit_control. inv_auto. Qed.

Lemma persists_save_sleep u : persists_last u (save_state ;; sleep u).
Proof.
  intros m. rewrite save_sleep_run. simpl. exists []. split; [reflexivity | constructor].
Qed.

Lemma persists_raise u : persists_last u raise.
Proof. intros m. simpl. constructor. Qed.

Lemma persists_if u (b : bool) c1 c2 :
  persists_last u c1 -> persists_last u c2 -> persists_last u (if b then c1 else c2).
Proof. destruct b; auto. Qed.

Lemma persists_bind {A} u (c : M A) (k : A -> M unit) :
  unsaved c -> (forall a, persists_last u (k a)) -> persists_last u (bind c k).
Proof.
  intros Hc Hk m. unfold bind.
  destruct (Hc m I) as [_ H1].
  destruct (result_of (c m)) as [a|]; simpl; [|exact H1].
  specialize (Hk a (mem_of (c m))).
  destruct (result_of (k a (mem_of (c m)))).
  - destruct Hk as (t' & E & H2). exists (trace_of (c m) ++ t').
    rewrite E, app_assoc. split; [reflexivity|].
    apply Forall_app. split; assumption.
  - apply Forall_app. split; assumption.
Qed.

Lemma persists_control env t : persists_last (UPDATE_INTERVAL_SEC cfg) (control cfg env t).
Proof.
  unfold control.
  apply persists_bind; [apply inv_get_state|]. intros s.
  apply persists_bind; [apply unsaved_sample_all|]. intros total.
  apply persists_if; [apply persists_raise|].
  apply persists_bind; [apply unsaved_block_check|]. intros _.
  apply persists_bind; [apply inv_get_state|]. intros s'.
  apply persists_if; [apply persists_save_sleep|].
  apply persists_bind; [apply unsaved_limit_control|]. intros _.
  apply persists_save_sleep.
Qed.

End Persisting.

(** X5. A tick that completes ends by saving the state it leaves and then
    sleeping [UPDATE_INTERVAL_SEC] seconds, and saves nothing before that;
    a tick that raises saves nothing (lines 586-752, [save_state]). *)
Theorem tick_persists_final_state cfg env m :
  let r := tick cfg env m in
  match result_of r with
  | Done _ =>
      exists before,
        trace_of r
        = before ++ [SaveState (state (mem_of r)); Sleep (UPDATE_INTERVAL_SEC cfg)]
        /\ Forall nothing_saved before
  | Raised => Forall nothing_saved (trace_of r)
  end.
Proof.
  revert m. change (persists_last (UPDATE_INTERVAL_SEC cfg) (tick cfg env)).
  unfold tick.
  generalize (get_cycle_timestamps cfg (tz env) (clock_cycle env)). intros cycle.
  apply persists_bind; [apply unsaved_detect_new_interfaces|]. intros _.
  apply persists_bind; [apply unsaved_cycle_reset|]. intros _.
  apply persists_bind; [apply unsaved_daily_report|]. intros _.
  apply persists_control.
Qed.

(** ** Interface detection and start-up *)

Lemma detect_new_interfaces_track env :
  detect_new_interfaces env = for_each (interfaces env) (track env).
Proof. reflexivity. Qed.

Lemma track_run env iface m :
  (iface ∈ detected_interfaces (state m) -> track env iface m = ret tt m)
  /\ (iface ∉ detected_interfaces (state m) ->
      state (mem_of (track env iface m))
      = set_detected_interfaces (detected_interfaces (state m) ++ [iface]) (state m)).
Proof.
  unfold track. rewrite bind_get_state. split; intros H.
  - rewrite (bool_decide_eq_true_2 _ H). reflexivity.
  - rewrite (bool_decide_eq_false_2 _ H).
    unfold bind, modify_state, init_tc, setup_tc, set_tc_initialized, emit, ret, raise.
    cbn [result_of mem_of trace_of].
    destruct (tc_found env), (tc_oserror env iface); reflexivity.
Qed.

Lemma set_detected_same s :
  set_detected_interfaces (detected_interfaces s) s = s.
Proof. destruct s; reflexivity. Qed.

(** X6. Interface detection only appends to the tracked list: the new names
    are host interfaces that were not tracked, each added once, no other
    field of the state changes, and after a detection that completes every
    host interface is tracked (lines 590-605). *)
Theorem detect_new_interfaces_grows env m :
  let r := detect_new_interfaces env m in
  exists added,
    state (mem_of r)
    = set_detected_interfaces (detected_interfaces (state m) ++ added) (state m)
    /\ NoDup added
    /\ (forall x, x ∈ added -> x ∈ interfaces env /\ x ∉ detected_interfaces (state m))
    /\ (result_of r = Done tt ->
        forall x, x ∈ interfaces env -> x ∈ detected_interfaces (state (mem_of r))).
Proof.
  cbv zeta. rewrite detect_new_interfaces_track.
  generalize (interfaces env) as l. intros l. revert m.
  induction l as [|x l IH]; intros m.
  - exists []. simpl. rewrite app_nil_r, set_detected_same.
    split; [reflexivity|]. split; [constructor|].
    split; [intros y Hy; inversion Hy | intros _ y Hy; inversion Hy].
  - cbn [for_each].
    destruct (track_run env x m) as [Hin Hnew].
    destruct (decide (x ∈ detected_interfaces (state m))) as [Hx|Hx].
    + rewrite (bind_run_done _ _ _ m [] tt (Hin Hx)). cbn [mem_of result_of].
      destruct (IH m) as (added & E & Hnd & Hadd & Hall).
      exists added. split; [exact E|]. split; [exact Hnd|]. split.
      * intros y Hy. destruct (Hadd y Hy). split; [right|]; assumption.
      * intros Hd y Hy. apply elem_of_cons in Hy as [->|Hy]; [|apply Hall; assumption].
        rewrite E. cbn [detected_interfaces set_detected_interfaces]. apply elem_of_app. left. exact Hx.
    + specialize (Hnew Hx). unfold bind.
      destruct (result_of (track env x m)) as [[]|] eqn:Er; cbn [mem_of result_of].
      * destruct (IH (mem_of (track env x m))) as (added & E & Hnd & Hadd & Hall).
        rewrite Hnew in E, Hadd. cbn [detected_interfaces set_detected_interfaces] in E, Hadd.
        exists (x :: added). split; [|split; [|split]].
        -- rewrite E. rewrite <- app_assoc. reflexivity.
        -- constructor; [|exact Hnd]. intros Hxa. destruct (Hadd x Hxa) as [_ Hn].
           apply Hn. apply elem_of_app. right. left.
        -- intros y Hy. apply elem_of_cons in Hy as [->|Hy].
           ++ split; [left | exact Hx].
           ++ destruct (Hadd y Hy) as [H1 H2]. split; [right; exact H1|].
              intros Hc. apply H2. apply elem_of_app. left. exact Hc.
        -- intros Hd y Hy. apply elem_of_cons in Hy as [->|Hy]; [|apply Hall; assumption].
           rewrite E. cbn [detected_interfaces set_detected_interfaces]. apply elem_of_app. left. apply elem_of_app. right. left.
      * exists [x]. rewrite Hnew. split; [reflexivity|].
        split; [apply NoDup_singleton|]. split; [|discriminate].
        intros y Hy. apply list_elem_of_singleton in Hy as ->. split; [left | exact Hx].
Qed.

Lemma init_tc_run env i m :
  state (mem_of (init_tc env i m)) = state m
  /\ (result_of (init_tc env i m) = Done tt ->
      tc_initialized (mem_of (init_tc env i m))
      = <[i := tc_found env]> (tc_initialized m))
  /\ (tc_found env = false -> result_of (init_tc env i m) = Done tt).
Proof.
  unfold init_tc, setup_tc, bind, set_tc_initialized, emit, ret, raise.
  destruct (tc_found env), (tc_oserror env i); simpl; repeat split; congruence.
Qed.

Lemma init_all_run env l : forall m,
  let r := for_each l (init_tc env) m in
  state (mem_of r) = state m
  /\ (result_of r = Done tt ->
      (forall i, i ∈ l -> tc_initialized (mem_of r) !! i = Some (tc_found env))
      /\ (forall j, j ∉ l -> tc_initialized (mem_of r) !! j = tc_initialized m !! j)).
Proof.
  induction l as [|x l IH]; intros m; cbv zeta.
  - simpl. split; [reflexivity|]. intros _. split; [intros i Hi; inversion Hi | reflexivity].
  - cbn [for_each]. destruct (init_tc_run env x m) as (Hs & Htc & _).
    unfold bind. destruct (result_of (init_tc env x m)) as [[]|]; cbn [mem_of result_of].
    + specialize (IH (mem_of (init_tc env x m))). cbv zeta in IH.
      destruct IH as [IHs IHd]. split; [congruence|].
      intros Hd. destruct (IHd Hd) as [Hin Hout]. specialize (Htc eq_refl). split.
      * intros i Hi. destruct (decide (i ∈ l)) as [Hil|Hil]; [apply Hin; exact Hil|].
        apply elem_of_cons in Hi as [->|Hi]; [|contradiction].
        rewrite (Hout x Hil), Htc. apply lookup_insert_eq.
      * intros j Hj. apply not_elem_of_cons in Hj as [Hjx Hjl].
        rewrite (Hout j Hjl), Htc. apply lookup_insert_ne. congruence.
    + split; [exact Hs | discriminate].
Qed.

Lemma notify_mem cfg n m :
  mem_of ((if TELEGRAM_ENABLED cfg
           then (_ <- send_telegram cfg n ;; ret tt) else ret tt) m) = m.
Proof.
  unfold send_telegram, bind, emit, ret.
  destruct (TELEGRAM_ENABLED cfg), (telegram_ready cfg); reflexivity.
Qed.

Lemma startup_mem cfg env main_interface m :
  let tracked := match detected_interfaces (state m) with
                 | [] => [main_interface]
                 | l => l
                 end in
  let m1 := {| state := set_detected_interfaces tracked (state m);
               tc_initialized := tc_initialized m |} in
  mem_of (startup cfg env main_interface m) = mem_of (for_each tracked (init_tc env) m1)
  /\ (result_of (startup cfg env main_interface m) = Done tt ->
      result_of (for_each tracked (init_tc env) m1) = Done tt).
Proof.
  intros tracked m1. unfold startup. rewrite bind_get_state.
  assert (E1 : (match detected_interfaces (state m) with
                | [] => modify_state (set_detected_interfaces [main_interface])
                | _ => ret tt
                end) m = {| mem_of := m1; trace_of := []; result_of := Done tt |}).
  { unfold m1, tracked. destruct m as [s tc]. simpl.
    destruct (detected_interfaces s) eqn:E; simpl.
    - reflexivity.
    - rewrite <- E, set_detected_same. reflexivity. }
  rewrite (bind_run_done _ _ _ _ _ _ E1). cbn [mem_of result_of trace_of].
  rewrite bind_get_state.
  change (detected_interfaces (state m1)) with tracked.
  destruct (result_of (for_each tracked (init_tc env) m1)) as [[]|] eqn:Er.
  - destruct (bind_mem_done (for_each tracked (init_tc env))
      (fun _ => if TELEGRAM_ENABLED cfg
                then (_ <- send_telegram cfg StartedNotice ;; ret tt) else ret tt)
      m1 tt Er) as [Em _].
    rewrite Em, notify_mem. split; [reflexivity | intros _; reflexivity].
  - unfold bind. rewrite Er. cbn [mem_of result_of]. split; [reflexivity | discriminate].
Qed.

(** X7. Start-up tracks the saved interface list, or the default interface
    alone when the saved list is empty, and changes nothing else in the
    state; when it completes, every tracked interface has a [tc_initialized]
    entry, which tells whether [tc] was found (lines 560-583). *)
Theorem startup_tracks_and_initialises cfg env main_interface m :
  let r := startup cfg env main_interface m in
  let tracked := match detected_interfaces (state m) with
                 | [] => [main_interface]
                 | l => l
                 end in
  state (mem_of r) = set_detected_interfaces tracked (state m)
  /\ tracked <> []
  /\ (result_of r = Done tt ->
      forall i, i ∈ tracked -> tc_initialized (mem_of r) !! i = Some (tc_found env)).
Proof.
  intros r tracked.
  destruct (startup_mem cfg env main_interface m) as [Em Hr].
  fold tracked in Em, Hr. fold r in Em, Hr.
  set (m1 := {| state := set_detected_interfaces tracked (state m);
                tc_initialized := tc_initialized m |}) in *.
  destruct (init_all_run env tracked m1) as [Hs Hd].
  rewrite Em. split; [exact Hs|]. split.
  - unfold tracked. destruct (detected_interfaces (state m)); discriminate.
  - intros Hdone. exact (proj1 (Hd (Hr Hdone))).
Qed.

(** ** The daily report while Telegram is not configured *)

Section ReportWithoutTelegram.
Variable cfg : Config.
Hypothesis not_ready : telegram_ready cfg = false.
Variable x : Q.

Local Abbreviation steady := (inv (last_report_is x) (fun _ => True)).

Lemma last_report_counters s s' :
  counters_only s s' -> last_report_is x s -> last_report_is x s'.
Proof.
  intros (_ & _ & _ & _ & _ & E & _) H. unfold last_report_is in *. rewrite E. exact H.
Qed.

Ltac steady_setter :=
  first [ apply last_report_counters
        | let s := fresh "s" in let H := fresh "H" in
          intros ? s H; destruct s; exact H ].

Lemma steady_daily_report env : steady (daily_report cfg env).
Proof.
  unfold daily_report, generate_report.
  apply inv_bind; [apply inv_get_state|]. intros s.
  apply inv_if; [|apply inv_ret].
  apply inv_bind.
  - apply inv_for_each. intros i.
    apply inv_bind; [apply framed_sample; apply last_report_counters|]. inv_auto.
  - intros _ m Hm. unfold send_telegram. rewrite not_ready.
    split; [exact Hm | constructor].
Qed.

Lemma steady_cycle_reset env cycle t : steady (cycle_reset cfg env cycle t).
Proof.
  intros m Hm. destruct (rollover_due cycle t (state m)) eqn:Hdue.
  - pose proof (cycle_reset_fires cfg env cycle t m Hdue) as Hf. cbv zeta in Hf.
    split; [|apply Forall_forall; auto].
    destruct Hf as [[_ E]|[_ E]]; rewrite E; [exact Hm | exact Hm].
  - rewrite (cycle_reset_idle cfg env cycle t m Hdue). split; [exact Hm | constructor].
Qed.

Lemma steady_tick env : steady (tick cfg env).
Proof.
  unfold tick.
  generalize (get_cycle_timestamps cfg (tz env) (clock_cycle env)). intros cycle.
  apply inv_bind; [apply framed_detect_new_interfaces; steady_setter|].
  intros _. apply inv_bind; [apply steady_cycle_reset|]. intros _.
  apply inv_bind; [apply steady_daily_report|]. intros _.
  apply framed_control; steady_setter.
Qed.

Lemma steady_run_loop envs : forall l,
  last_report_is x (state (mem l)) ->
  forall l', (run_loop cfg envs l).2 = Continue l' -> last_report_is x (state (mem l')).
Proof.
  induction envs as [|env envs IH]; intros l Hl l'.
  - simpl. intros E. inversion E. subst. exact Hl.
  - cbn [run_loop]. unfold loop_iteration.
    destruct (steady_tick env (mem l) Hl) as [H1 _].
    destruct (result_of (tick cfg env (mem l))) as [[]|].
    + specialize (IH {| mem := mem_of (tick cfg env (mem l));
                        consecutive_failures := 0 |} H1 l').
      destruct (run_loop cfg envs _) as [t' flow]. exact IH.
    + pose proof (on_error_quiet cfg (mem_of (tick cfg env (mem l)))
                    (consecutive_failures l)) as [_ H4].
      destruct (on_error cfg _ _) as [t [l1|status]]; simpl in *; [|discriminate].
      assert (Hl1 : last_report_is x (state (mem l1))) by (rewrite (H4 l1 eq_refl); exact H1).
      specialize (IH l1 Hl1 l').
      destruct (run_loop cfg envs l1) as [t' flow]. exact IH.
Qed.

End ReportWithoutTelegram.

(** X9. While Telegram is not fully configured, the time of the last daily
    report never changes, through any number of ticks and cycle resets; so
    whether the report pass runs depends on the clock alone
    (lines 482-500, 645-666, [send_telegram]). *)
Theorem report_timestamp_without_telegram cfg envs l l' :
  telegram_ready cfg = false ->
  (run_loop cfg envs l).2 = Continue l' ->
  default 0%Q (last_daily_report (state (mem l')))
  = default 0%Q (last_daily_report (state (mem l)))
  /\ forall env, should_send_daily_report cfg env (state (mem l'))
                 = should_send_daily_report cfg env (state (mem l)).
Proof.
  intros Hnr E.
  assert (H : default 0%Q (last_daily_report (state (mem l')))
              = default 0%Q (last_daily_report (state (mem l)))).
  { apply (steady_run_loop cfg Hnr _ envs l eq_refl l' E). }
  split; [exact H|]. intros env. unfold should_send_daily_report. rewrite H. reflexivity.
Qed.

Lemma report_timestamp_without_telegram_witness :
  let l' := {| mem := mem_of (tick default_config (january_host 5 0) (mem january_boot));
               consecutive_failures := 0 |} in
  telegram_ready default_config = false
  /\ (run_loop default_config [january_host 5 0] january_boot).2 = Continue l'
  /\ default 0%Q (last_daily_report (state (mem l')))
     = default 0%Q (last_daily_report (state (mem january_boot))).
Proof.
  intros l'.
  assert (H1 : telegram_ready default_config = false) by reflexivity.
  assert (H2 : (run_loop default_config [january_host 5 0] january_boot).2 = Continue l')
    by (vm_compute; reflexivity).
  split; [exact H1|]. split; [exact H2|].
  exact (proj1 (report_timestamp_without_telegram default_config [january_host 5 0]
                  january_boot l' H1 H2)).
Defined.

(** ** No exit before the failure limit *)

(** X10. The loop does not exit while the failures counted so far plus the
    ticks still to run stay below [MAX_CONSECUTIVE_FAILURES]; the counter
    stays between zero and that sum (lines 586-588, 749-775). *)
Theorem no_exit_before_limit cfg envs : forall l,
  0 <= consecutive_failures l ->
  consecutive_failures l + Z.of_nat (length envs) < MAX_CONSECUTIVE_FAILURES cfg ->
  exists l', (run_loop cfg envs l).2 = Continue l'
    /\ 0 <= consecutive_failures l'
       <= consecutive_failures l + Z.of_nat (length envs).
Proof.
  induction envs as [|env envs IH]; intros l H0 Hlt.
  - exists l. simpl. split; [reflexivity | lia].
  - cbn [run_loop length] in *. unfold loop_iteration.
    destruct (result_of (tick cfg env (mem l))) as [[]|].
    + destruct (IH {| mem := mem_of (tick cfg env (mem l)); consecutive_failures := 0 |})
        as (l' & E & Hb); [simpl; lia | simpl; lia|].
      destruct (run_loop cfg envs _) as [t' flow]. simpl in *.
      exists l'. split; [exact E | lia].
    + unfold on_error.
      destruct (Z.leb_spec (MAX_CONSECUTIVE_FAILURES cfg) (consecutive_failures l + 1)); [lia|].
      destruct (IH {| mem := mem_of (tick cfg env (mem l));
                      consecutive_failures := consecutive_failures l + 1 |})
        as (l' & E & Hb); [simpl; lia | simpl; lia|].
      destruct (run_loop cfg envs _) as [t' flow]. simpl in *.
      exists l'. split; [exact E | lia].
Qed.

Lemma no_exit_before_limit_witness :
  0 <= consecutive_failures january_boot
  /\ consecutive_failures january_boot + Z.of_nat (length [january_host 5 0])
     < MAX_CONSECUTIVE_FAILURES default_config
  /\ exists l', (run_loop default_config [january_host 5 0] january_boot).2 = Continue l'.
Proof.
  assert (H1 : 0 <= consecutive_failures january_boot) by (vm_compute; discriminate).
  assert (H2 : consecutive_failures january_boot + Z.of_nat (length [january_host 5 0])
               < MAX_CONSECUTIVE_FAILURES default_config) by (vm_compute; reflexivity).
  split; [exact H1|]. split; [exact H2|].
  destruct (no_exit_before_limit default_config [january_host 5 0] january_boot H1 H2)
    as (l' & E & _).
  exists l'. exact E.
Defined.

(** ** Start-up without [tc] *)

Lemma init_all_without_tc env l : tc_found env = false -> forall m,
  result_of (for_each l (init_tc env) m) = Done tt
  /\ trace_of (for_each l (init_tc env) m) = [].
Proof.
  intros Hnf. induction l as [|x l IH]; intros m; [split; reflexivity|].
  cbn [for_each].
  assert (Ex : init_tc env x m
               = {| mem_of := {| state := state m;
                                 tc_initialized := <[x:=false]> (tc_initialized m) |};
                    trace_of := []; result_of := Done tt |}).
  { unfold init_tc. rewrite Hnf. reflexivity. }
  rewrite (bind_run_done _ _ _ _ _ _ Ex). cbn [result_of trace_of app].
  apply IH.
Qed.

(** X8. If [tc] is not found at start-up, start-up completes and no [tc]
    command is ever run for an interface tracked at that moment, through
    any number of later ticks, also when [tc] becomes available and the
    limiting flag is set (lines 565-577, 590-605, 721-744). *)
Theorem tc_missing_never_limited cfg env0 main_interface m0 envs :
  tc_found env0 = false ->
  let r := startup cfg env0 main_interface m0 in
  result_of r = Done tt
  /\ forall i, i ∈ detected_interfaces (state (mem_of r)) ->
       Forall (no_tc_for i)
         (trace_of r ++ (run_loop cfg envs {| mem := mem_of r; consecutive_failures := 0 |}).1).
Proof.
  intros Hnf. cbv zeta.
  destruct (startup_mem cfg env0 main_interface m0) as [Em Hr].
  set (tracked := match detected_interfaces (state m0) with
                  | [] => [main_interface] | l => l end) in *.
  set (m1 := {| state := set_detected_interfaces tracked (state m0);
                tc_initialized := tc_initialized m0 |}) in *.
  destruct (init_all_run env0 tracked m1) as [Hs' Hd'].
  assert (Hs : state (mem_of (startup cfg env0 main_interface m0))
               = set_detected_interfaces tracked (state m0))
    by (rewrite Em; exact Hs').
  assert (Htc : result_of (startup cfg env0 main_interface m0) = Done tt ->
                forall i, i ∈ tracked ->
                  tc_initialized (mem_of (startup cfg env0 main_interface m0)) !! i
                  = Some (tc_found env0)).
  { intros Hdone. rewrite Em. exact (proj1 (Hd' (Hr Hdone))). }
  clear Em Hr Hs' Hd' m1. unfold tracked in Hs, Htc. clear tracked.
  assert (Hrun : result_of (startup cfg env0 main_interface m0) = Done tt
                 /\ Forall (fun e => exists n, e = Telegram n)
                      (trace_of (startup cfg env0 main_interface m0))).
  { unfold startup. rewrite bind_get_state.
    assert (E1 : exists m1, (match detected_interfaces (state m0) with
                  | [] => modify_state (set_detected_interfaces [main_interface])
                  | _ => ret tt
                  end) m0 = {| mem_of := m1; trace_of := []; result_of := Done tt |}).
    { destruct (detected_interfaces (state m0)); eexists; reflexivity. }
    destruct E1 as [m1 E1]. rewrite (bind_run_done _ _ _ _ _ _ E1).
    cbn [mem_of result_of trace_of]. rewrite bind_get_state.
    destruct (init_all_without_tc env0 (detected_interfaces (state m1)) Hnf m1) as [Ed Et].
    unfold send_telegram, bind, emit, ret. rewrite !Ed, !Et.
    destruct (TELEGRAM_ENABLED cfg), (telegram_ready cfg);
      cbn [mem_of result_of trace_of app]; rewrite ?Et;
      (split; [reflexivity | repeat constructor; eauto]). }
  destruct Hrun as [Hd Ht]. split; [exact Hd|].
  intros i Hi. apply Forall_app. split.
  - eapply Forall_impl; [exact Ht|]. intros e [n ->]. exact I.
  - apply untouched_run_loop. unfold tc_less. cbn [mem]. split; [exact Hi|].
    rewrite Hs in Hi.
    assert (Hi' : i ∈ match detected_interfaces (state m0) with
                      | [] => [main_interface] | l => l end).
    { destruct (state m0); exact Hi. }
    rewrite (Htc Hd i Hi'), Hnf. reflexivity.
Qed.

Lemma tc_missing_never_limited_witness :
  let p := {| vnstat_installed := true; vnstat_read := Returns (950 * 1024 ^ 3);
              sysfs_tx := Raises; sysfs_rx := Raises |} in
  let env0 := {| interfaces := ["eth0"]; tc_found := false;
                 tc_oserror := fun _ => false; tz := 0;
                 clock_cycle := midnight 2023 1 1; clock_tick := 1672531200;
                 clock_report_hour := 0; clock_report := 0%Q;
                 clock_report_sent := 0%Q;
                 report_probe := fun _ => p; probe := fun _ => p |} in
  let r := startup default_config env0 "eth0"
             {| state := load_state None; tc_initialized := ∅ |} in
  tc_found env0 = false
  /\ Forall (no_tc_for "eth0")
       (trace_of r
        ++ (run_loop default_config [january_host 5 (950 * 1024 ^ 3)]
              {| mem := mem_of r; consecutive_failures := 0 |}).1).
Proof.
  intros p env0 r.
  assert (H : tc_found env0 = false) by reflexivity.
  split; [exact H|].
  apply (proj2 (tc_missing_never_limited default_config env0 "eth0"
                  {| state := load_state None; tc_initialized := ∅ |}
                  [january_host 5 (950 * 1024 ^ 3)] H) "eth0").
  vm_compute. apply list_elem_of_here.
Defined.

(** ** Rate budget *)

Lemma py_max_floor_free (a b : Q) : (a <= b)%Q -> (py_max a b == b)%Q.
Proof. intros H. rewrite py_max_spec. apply Q.max_r. exact H. Qed.

Lemma rate_bytes cfg r t :
  1 <= t ->
  (target_rate_bps cfg r t * inject_Z t / 8
   == safe_remaining_gb cfg r * GiB * SAFETY_FACTOR cfg)%Q.
Proof.
  intros Ht. unfold target_rate_bps. cbv zeta.
  pose proof (inject_Z_pos t Ht) as Hp.
  field. intros H. rewrite H in Hp. apply (Qlt_irrefl 0). exact Hp.
Qed.

(** X11. With a safety factor between 0 and 1, and when the floor
    [MIN_RATE_KBPS] does not bind, sending at the target rate for the whole
    remaining time moves at most the safe remainder; if the remainder still
    exceeds the buffer, the cycle ends with at least the buffer unused
    (lines 711-718). *)
Theorem rate_stays_within_budget cfg total t :
  (0 <= SAFETY_FACTOR cfg <= 1)%Q -> 1 <= t ->
  let r := remaining_gb cfg total in
  let buffer_gb := (TOTAL_QUOTA_GB cfg * BUFFER_PERCENT cfg / 100)%Q in
  (MIN_RATE_KBPS cfg <= target_rate_bps cfg r t / 1000)%Q ->
  let bytes := (target_rate_kbps cfg r t * 1000 * inject_Z t / 8)%Q in
  (bytes <= safe_remaining_gb cfg r * GiB)%Q
  /\ ((buffer_gb <= r)%Q ->
      (inject_Z total + bytes <= (TOTAL_QUOTA_GB cfg - buffer_gb) * GiB)%Q).
Proof.
  intros [Hsf0 Hsf1] Ht r buffer_gb Hfloor bytes.
  assert (Eb : (bytes == safe_remaining_gb cfg r * GiB * SAFETY_FACTOR cfg)%Q).
  { unfold bytes, target_rate_kbps. rewrite (py_max_floor_free _ _ Hfloor).
    rewrite <- (rate_bytes cfg r t Ht). field. }
  pose proof (safe_remaining_gb_nonneg cfg r) as Hs.
  pose proof GiB_pos as Hg.
  assert (Hsg : (0 <= safe_remaining_gb cfg r * GiB)%Q).
  { apply Qmult_le_0_compat; [exact Hs | apply Qlt_le_weak, Hg]. }
  assert (H1 : (bytes <= safe_remaining_gb cfg r * GiB)%Q).
  { rewrite Eb. generalize dependent (safe_remaining_gb cfg r * GiB)%Q.
    intros x _ Hx. nra. }
  split; [exact H1|].
  intros Hbuf.
  assert (Es : (safe_remaining_gb cfg r == r - buffer_gb)%Q).
  { unfold safe_remaining_gb. fold buffer_gb. rewrite py_max_spec. apply Q.max_r. lra. }
  rewrite Es in H1.
  assert (Et : (inject_Z total + (r - buffer_gb) * GiB
                == (TOTAL_QUOTA_GB cfg - buffer_gb) * GiB)%Q).
  { unfold r, remaining_gb, total_gb_used. field. intros H. rewrite H in Hg.
    apply (Qlt_irrefl 0). exact Hg. }
  rewrite <- Et. lra.
Qed.

Lemma rate_stays_within_budget_witness :
  let total := 950 * 1024 ^ 3 in
  let r := remaining_gb default_config total in
  let bytes := (target_rate_kbps default_config r 86400 * 1000 * inject_Z 86400 / 8)%Q in
  (0 <= SAFETY_FACTOR default_config <= 1)%Q /\ 1 <= 86400
  /\ (MIN_RATE_KBPS default_config <= target_rate_bps default_config r 86400 / 1000)%Q
  /\ (bytes <= safe_remaining_gb default_config r * GiB)%Q.
Proof.
  intros total r bytes.
  assert (H1 : (0 <= SAFETY_FACTOR default_config <= 1)%Q)
    by (split; vm_compute; discriminate).
  assert (H2 : 1 <= 86400) by lia.
  assert (H3 : (MIN_RATE_KBPS default_config
                <= target_rate_bps default_config r 86400 / 1000)%Q)
    by (vm_compute; discriminate).
  split; [exact H1|]. split; [exact H2|]. split; [exact H3|].
  exact (proj1 (rate_stays_within_budget default_config total 86400 H1 H2 H3)).
Defined.

(** ** The integer handed to [tc] *)

(** X12. The whole number of kbit written into the [tc] command is the
    target rate rounded down, and it is at least every whole number that is
    at most [MIN_RATE_KBPS]: with a floor of 1 or more the command never
    asks for a rate of zero (lines 340-348, 718). *)
Theorem tc_rate_arg_bounds cfg r t (k : Z) :
  0 <= k -> (inject_Z k <= MIN_RATE_KBPS cfg)%Q ->
  let rate := target_rate_kbps cfg r t in
  k <= tc_rate_arg rate
  /\ (inject_Z (tc_rate_arg rate) <= rate)%Q
  /\ (rate < inject_Z (tc_rate_arg rate) + 1)%Q.
Proof.
  intros Hk Hmin rate.
  assert (Hrate : (inject_Z k <= rate)%Q).
  { eapply Qle_trans; [exact Hmin | apply py_max_lower_l]. }
  unfold tc_rate_arg. destruct rate as [a b]. unfold Qle, Qlt in *. simpl in *.
  assert (Ha : 0 <= a) by nia.
  rewrite Z.quot_div_nonneg by lia.
  pose proof (Z.div_mod a (Z.pos b) ltac:(lia)) as Hdm.
  pose proof (Z.mod_pos_bound a (Z.pos b) ltac:(lia)) as Hmb.
  split; [apply Z.div_le_lower_bound; lia|]. split; nia.
Qed.

Lemma tc_rate_arg_bounds_witness :
  0 <= 256 /\ (inject_Z 256 <= MIN_RATE_KBPS default_config)%Q
  /\ 256 <= tc_rate_arg (target_rate_kbps default_config 50 86400).
Proof.
  assert (H1 : 0 <= 256) by lia.
  assert (H2 : (inject_Z 256 <= MIN_RATE_KBPS default_config)%Q)
    by (vm_compute; discriminate).
  split; [exact H1|]. split; [exact H2|].
  exact (proj1 (tc_rate_arg_bounds default_config 50 86400 256 H1 H2)).
Defined.

(** ** The firewall rules *)

Section Firewall.
Import Iptables.

Lemma occurrences_app r t u :
  occurrences r (t ++ u) = (occurrences r t + occurrences r u)%nat.
Proof.
  induction t as [|x t IH]; [reflexivity|]. simpl.
  destruct (decide (x = r)); rewrite IH; reflexivity.
Qed.

Lemma occurrences_same r : occurrences r [r] = 1%nat.
Proof. simpl. rewrite decide_True by reflexivity. reflexivity. Qed.

Lemma occurrences_other q r : q <> r -> occurrences r [q] = 0%nat.
Proof. intros H. simpl. rewrite decide_False by exact H. reflexivity. Qed.

Lemma occurrences_zero r t : occurrences r t = 0%nat <-> r ∉ t.
Proof.
  induction t as [|x t IH]; [split; [intros _ H; inversion H | reflexivity]|].
  simpl. rewrite not_elem_of_cons.
  destruct (decide (x = r)) as [->|Hne].
  - split; [discriminate | intros [H _]; congruence].
  - rewrite IH. split; [intros H; split; [congruence | exact H] | intros [_ H]; exact H].
Qed.

Lemma occurrences_le_length r t : (occurrences r t <= length t)%nat.
Proof.
  induction t as [|x t IH]; simpl; [lia|]. destruct (decide (x = r)); lia.
Qed.

Lemma without_absent r t : r ∉ t -> without r t = t.
Proof.
  induction t as [|x t IH]; [reflexivity|]. intros H.
  apply not_elem_of_cons in H as [H1 H2]. simpl.
  rewrite decide_False by congruence. rewrite IH by exact H2. reflexivity.
Qed.

Lemma without_same r : without r [r] = [].
Proof. simpl. rewrite decide_True by reflexivity. reflexivity. Qed.

Lemma without_other q r : q <> r -> without r [q] = [q].
Proof. intros H. simpl. rewrite decide_False by exact H. reflexivity. Qed.

Lemma without_app r t u : without r (t ++ u) = without r t ++ without r u.
Proof.
  induction t as [|x t IH]; [reflexivity|]. simpl.
  destruct (decide (x = r)); rewrite IH; reflexivity.
Qed.

Lemma without_comm q r t : without q (without r t) = without r (without q t).
Proof.
  induction t as [|x t IH]; [reflexivity|]. simpl.
  destruct (decide (x = r)), (decide (x = q)); simpl;
    rewrite ?decide_True, ?decide_False by assumption; rewrite IH; reflexivity.
Qed.

Lemma occurrences_without q r t :
  q <> r -> occurrences q (without r t) = occurrences q t.
Proof.
  intros Hq. induction t as [|x t IH]; [reflexivity|]. simpl.
  destruct (decide (x = r)) as [->|Hr]; simpl.
  - rewrite decide_False by congruence. exact IH.
  - destruct (decide (x = q)); rewrite IH; reflexivity.
Qed.

Lemma check_spec r t : check r t = true <-> r ∈ t.
Proof. unfold check. apply bool_decide_eq_true. Qed.

Lemma check_false r t : check r t = false <-> r ∉ t.
Proof. unfold check. apply bool_decide_eq_false. Qed.

Lemma delete_none r t : delete r t = None <-> r ∉ t.
Proof.
  induction t as [|x t IH]; simpl.
  - split; [intros _ H; inversion H | reflexivity].
  - rewrite not_elem_of_cons. destruct (decide (x = r)) as [->|Hne].
    + split; [discriminate | intros [H _]; congruence].
    + destruct (delete r t) as [t''|].
      * split; [discriminate|]. intros [_ H]. apply IH in H. discriminate.
      * split; [|reflexivity]. intros _. split; [congruence | apply IH; reflexivity].
Qed.

Lemma delete_some r t t' :
  delete r t = Some t' ->
  length t = S (length t')
  /\ occurrences r t = S (occurrences r t')
  /\ (forall q, q <> r -> occurrences q t' = occurrences q t)
  /\ without r t' = without r t.
Proof.
  revert t'. induction t as [|x t IH]; simpl; intros t' E; [discriminate|].
  destruct (decide (x = r)) as [->|Hne].
  - inversion E; subst. split; [reflexivity|]. split; [reflexivity|]. split; [|reflexivity].
    intros q Hq. rewrite decide_False by congruence. reflexivity.
  - destruct (delete r t) as [t''|] eqn:Ed; [|discriminate]. inversion E; subst.
    destruct (IH t'' eq_refl) as (H1 & H2 & H3 & H4).
    split; [simpl; congruence|].
    split; [simpl; rewrite decide_False by exact Hne; exact H2|]. split.
    + intros q Hq. simpl. rewrite (H3 q Hq). reflexivity.
    + simpl. rewrite decide_False by exact Hne. rewrite H4. reflexivity.
Qed.

(** The delete loop ends, with every copy of the rule gone and the other
    rules as they were. *)
Lemma delete_loop_run r : forall fuel t,
  (occurrences r t < fuel)%nat -> delete_loop fuel r t = Some (without r t).
Proof.
  induction fuel as [|fuel IH]; intros t Hf; [lia|]. simpl.
  destruct (delete r t) as [t'|] eqn:E.
  - destruct (delete_some r t t' E) as (_ & H2 & _ & H4).
    rewrite IH by lia. rewrite H4. reflexivity.
  - apply delete_none in E. rewrite without_absent by exact E. reflexivity.
Qed.

Lemma block_network_shape i t :
  block_network i t
  = t ++ (if check (Drop INPUT i) t then [] else [Drop INPUT i])
      ++ (if check (Drop OUTPUT i) t then [] else [Drop OUTPUT i]).
Proof.
  unfold block_network, append.
  destruct (check (Drop INPUT i) t) eqn:E1.
  - destruct (check (Drop OUTPUT i) t) eqn:E2; simpl; rewrite ?app_nil_r; reflexivity.
  - assert (E : check (Drop OUTPUT i) (t ++ [Drop INPUT i]) = check (Drop OUTPUT i) t).
    { unfold check. apply bool_decide_ext. rewrite elem_of_app, list_elem_of_singleton.
      split; [intros [H|H]; [exact H | discriminate] | auto]. }
    rewrite E. destruct (check (Drop OUTPUT i) t); simpl; rewrite <- ?app_assoc; reflexivity.
Qed.

(** X13. [block_network] only adds rules at the end of the table, and only
    the two DROP rules of the interface; afterwards each of the two is
    present, exactly once if it was absent before, and blocking again
    changes nothing (lines 367-399). *)
Theorem block_network_once i t :
  let t' := block_network i t in
  (exists added, t' = t ++ added
     /\ forall r, r ∈ added -> r = Drop INPUT i \/ r = Drop OUTPUT i)
  /\ occurrences (Drop INPUT i) t' = Nat.max 1 (occurrences (Drop INPUT i) t)
  /\ occurrences (Drop OUTPUT i) t' = Nat.max 1 (occurrences (Drop OUTPUT i) t)
  /\ block_network i t' = t'.
Proof.
  cbv zeta.
  assert (Hin : forall u, check (Drop INPUT i) u = false -> occurrences (Drop INPUT i) u = 0%nat).
  { intros u H. apply occurrences_zero, check_false, H. }
  assert (Hout : forall u, check (Drop OUTPUT i) u = false -> occurrences (Drop OUTPUT i) u = 0%nat).
  { intros u H. apply occurrences_zero, check_false, H. }
  assert (Hpos : forall r u, check r u = true -> (1 <= occurrences r u)%nat).
  { intros r u H. apply check_spec in H.
    destruct (occurrences r u) eqn:E; [|lia]. apply occurrences_zero in E. contradiction. }
  assert (Hchk : check (Drop INPUT i) (block_network i t) = true
                 /\ check (Drop OUTPUT i) (block_network i t) = true).
  { rewrite block_network_shape. split; apply check_spec; rewrite !elem_of_app.
    - destruct (check (Drop INPUT i) t) eqn:E; [left; apply check_spec, E|].
      right; left. apply list_elem_of_singleton. reflexivity.
    - destruct (check (Drop OUTPUT i) t) eqn:E; [left; apply check_spec, E|].
      right; right. apply list_elem_of_singleton. reflexivity. }
  split; [|split; [|split]].
  - rewrite block_network_shape. eexists. split; [reflexivity|].
    intros r Hr. apply elem_of_app in Hr as [Hr|Hr].
    + destruct (check (Drop INPUT i) t); [inversion Hr|].
      apply list_elem_of_singleton in Hr. auto.
    + destruct (check (Drop OUTPUT i) t); [inversion Hr|].
      apply list_elem_of_singleton in Hr. auto.
  - rewrite block_network_shape, !occurrences_app.
    destruct (check (Drop INPUT i) t) eqn:E1;
      [pose proof (Hpos _ _ E1) | rewrite (Hin _ E1)];
      destruct (check (Drop OUTPUT i) t);
      rewrite ?occurrences_same, ?occurrences_other by congruence; simpl; lia.
  - rewrite block_network_shape, !occurrences_app.
    destruct (check (Drop OUTPUT i) t) eqn:E1;
      [pose proof (Hpos _ _ E1) | rewrite (Hout _ E1)];
      destruct (check (Drop INPUT i) t);
      rewrite ?occurrences_same, ?occurrences_other by congruence; simpl; lia.
  - destruct Hchk as [H1 H2]. rewrite (block_network_shape i (block_network i t)), H1, H2.
    simpl. rewrite app_nil_r. reflexivity.
Qed.

Lemma unblock_network_run fuel i t :
  (length t < fuel)%nat ->
  unblock_network fuel i t
  = Some (without (Drop OUTPUT i) (without (Drop INPUT i) t)).
Proof.
  intros Hf. unfold unblock_network.
  rewrite delete_loop_run by (pose proof (occurrences_le_length (Drop INPUT i) t); lia).
  apply delete_loop_run.
  assert (H : forall r u, (length (without r u) <= length u)%nat).
  { intros r u. induction u as [|x u IH]; simpl; [lia|]. destruct (decide (x = r)); simpl; lia. }
  pose proof (occurrences_le_length (Drop OUTPUT i) (without (Drop INPUT i) t)).
  pose proof (H (Drop INPUT i) t). lia.
Qed.

(** X15. On a table without DROP rules for the interface, blocking and
    then unblocking gives back the table as it was (lines 367-445). *)
Theorem unblock_after_block i t :
  Drop INPUT i ∉ t -> Drop OUTPUT i ∉ t ->
  unblock_network (3 + length t) i (block_network i t) = Some t.
Proof.
  intros H1 H2.
  rewrite unblock_network_run.
  - rewrite block_network_shape.
    apply check_false in H1 as E1. apply check_false in H2 as E2. rewrite E1, E2.
    rewrite !without_app, without_same.
    rewrite (without_other (Drop OUTPUT i) (Drop INPUT i)) by congruence.
    rewrite without_same, (without_absent _ _ H1), (without_absent _ _ H2).
    simpl. rewrite app_nil_r. reflexivity.
  - rewrite block_network_shape, !length_app.
    destruct (check (Drop INPUT i) t), (check (Drop OUTPUT i) t); simpl; lia.
Qed.

Lemma unblock_after_block_witness :
  let t := [Other INPUT "-s 10.0.0.0/8 -j ACCEPT"; Drop INPUT "ens3"] in
  (Drop INPUT "eth0" ∉ t) /\ (Drop OUTPUT "eth0" ∉ t)
  /\ unblock_network (3 + length t) "eth0" (block_network "eth0" t) = Some t.
Proof.
  intros t.
  assert (H1 : Drop INPUT "eth0" ∉ t)
    by (apply (bool_decide_unpack _); vm_compute; exact I).
  assert (H2 : Drop OUTPUT "eth0" ∉ t)
    by (apply (bool_decide_unpack _); vm_compute; exact I).
  split; [exact H1|]. split; [exact H2|].
  exact (unblock_after_block "eth0" t H1 H2).
Defined.

Lemma without_gone r t : r ∉ without r t.
Proof.
  induction t as [|x t IH]; simpl; [intros H; inversion H|].
  destruct (decide (x = r)); [exact IH|].
  apply not_elem_of_cons. split; [congruence | exact IH].
Qed.

Lemma without_subset q r t : q ∈ without r t -> q ∈ t.
Proof.
  induction t as [|x t IH]; simpl; [auto|].
  destruct (decide (x = r)); rewrite ?elem_of_cons; [auto|]. intros [H|H]; auto.
Qed.

(** X14. [unblock_network] ends within as many deletions as the table has
    rules, leaves no copy of either DROP rule of the interface, and leaves
    every other rule as often as it was there (lines 410-437). *)
Theorem unblock_network_clears fuel i t :
  (length t < fuel)%nat ->
  exists t', unblock_network fuel i t = Some t'
    /\ (Drop INPUT i ∉ t') /\ (Drop OUTPUT i ∉ t')
    /\ forall q, q <> Drop INPUT i -> q <> Drop OUTPUT i ->
         occurrences q t' = occurrences q t.
Proof.
  intros Hf. eexists. split; [apply unblock_network_run; exact Hf|].
  split; [|split].
  - rewrite without_comm. apply without_gone.
  - apply without_gone.
  - intros q H1 H2. rewrite !occurrences_without by congruence. reflexivity.
Qed.

Lemma unblock_network_clears_witness :
  let t := [Other INPUT "-s 10.0.0.0/8 -j ACCEPT"; Drop INPUT "eth0";
            Drop OUTPUT "eth0"; Drop INPUT "eth0"] in
  (length t < 5)%nat
  /\ exists t', unblock_network 5 "eth0" t = Some t'
       /\ (Drop INPUT "eth0" ∉ t') /\ (Drop OUTPUT "eth0" ∉ t').
Proof.
  intros t.
  assert (H : (length t < 5)%nat) by (vm_compute; lia).
  split; [exact H|].
  destruct (unblock_network_clears 5 "eth0" t H) as (t' & E & H1 & H2 & _).
  exists t'. split; [exact E|]. split; [exact H1 | exact H2].
Defined.

Lemma reset_loop_run i : forall fuel t,
  (occurrences (Drop INPUT i) t < fuel)%nat ->
  exists t', reset_loop fuel i t = Some t'
    /\ (length t' <= length t)%nat
    /\ occurrences (Drop INPUT i) t'
       = (occurrences (Drop INPUT i) t
          - Nat.min (occurrences (Drop INPUT i) t) (S (occurrences (Drop OUTPUT i) t)))%nat
    /\ occurrences (Drop OUTPUT i) t'
       = (occurrences (Drop OUTPUT i) t
          - Nat.min (occurrences (Drop INPUT i) t) (occurrences (Drop OUTPUT i) t))%nat
    /\ forall q, q <> Drop INPUT i -> q <> Drop OUTPUT i ->
         occurrences q t' = occurrences q t.
Proof.
  assert (Hio : Drop OUTPUT i <> Drop INPUT i) by congruence.
  assert (Hoi : Drop INPUT i <> Drop OUTPUT i) by congruence.
  induction fuel as [|fuel IH]; intros t Hf; [lia|]. simpl.
  destruct (delete (Drop INPUT i) t) as [t1|] eqn:E1.
  - destruct (delete_some _ _ _ E1) as (L1 & A1 & B1 & _).
    pose proof (B1 _ Hio) as C1.
    destruct (delete (Drop OUTPUT i) t1) as [t2|] eqn:E2.
    + destruct (delete_some _ _ _ E2) as (L2 & A2 & B2 & _).
      pose proof (B2 _ Hoi) as C2.
      destruct (IH t2) as (t' & E & L & HI & HO & Hq); [lia|].
      exists t'. split; [exact E|]. split; [lia|]. split; [lia|]. split; [lia|].
      intros q Hq1 Hq2. rewrite (Hq q Hq1 Hq2), (B2 q Hq2), (B1 q Hq1). reflexivity.
    + apply delete_none, occurrences_zero in E2.
      exists t1. split; [reflexivity|]. split; [lia|]. split; [lia|]. split; [lia|].
      intros q Hq1 _. apply B1. exact Hq1.
  - apply delete_none, occurrences_zero in E1.
    exists t. split; [reflexivity|]. split; [lia|]. split; [lia|]. split; [lia|]. reflexivity.
Qed.

Lemma force_reset_over_run fuel : forall l t,
  NoDup l -> (length t < fuel)%nat ->
  exists t', force_reset_over fuel l t = Some t'
    /\ (length t' <= length t)%nat
    /\ (forall i, i ∈ l ->
          occurrences (Drop INPUT i) t'
          = (occurrences (Drop INPUT i) t
             - Nat.min (occurrences (Drop INPUT i) t) (S (occurrences (Drop OUTPUT i) t)))%nat
          /\ occurrences (Drop OUTPUT i) t'
             = (occurrences (Drop OUTPUT i) t
                - Nat.min (occurrences (Drop INPUT i) t) (occurrences (Drop OUTPUT i) t))%nat)
    /\ (forall q, (forall i, i ∈ l -> q <> Drop INPUT i /\ q <> Drop OUTPUT i) ->
          occurrences q t' = occurrences q t).
Proof.
  induction l as [|x l IH]; intros t Hnd Hf.
  - exists t. simpl. split; [reflexivity|]. split; [lia|].
    split; [intros i Hi; inversion Hi | reflexivity].
  - apply NoDup_cons in Hnd as [Hx Hnd]. simpl.
    destruct (reset_loop_run x fuel t) as (t1 & E1 & L1 & HI & HO & Hq1).
    { pose proof (occurrences_le_length (Drop INPUT x) t). lia. }
    rewrite E1.
    destruct (IH t1 Hnd) as (t' & E & L & Hl & Hq); [lia|].
    exists t'. split; [exact E|]. split; [lia|]. split.
    + intros i Hi. apply elem_of_cons in Hi as [->|Hi].
      * rewrite !Hq, HI, HO; [split; reflexivity | |];
          intros j Hj; split; intros [= ->]; contradiction.
      * destruct (Hl i Hi) as [H1 H2]. rewrite H1, H2.
        assert (Hne : i <> x) by (intros ->; contradiction).
        rewrite !(Hq1 (Drop INPUT i)), !(Hq1 (Drop OUTPUT i)) by congruence.
        split; reflexivity.
    + intros q Hall. rewrite Hq.
      * apply Hq1; apply (Hall x); left.
      * intros i Hi. apply Hall. right. exact Hi.
Qed.

Lemma possible_interfaces_NoDup : NoDup possible_interfaces.
Proof. apply (bool_decide_unpack _). vm_compute. exact I. Qed.

(** X16. The rule loop of [--force-reset] ends, touches only the DROP rules
    of the five listed interface names, and for each of them deletes INPUT
    and OUTPUT rules in turn until one deletion fails: of [n_in] INPUT and
    [n_out] OUTPUT rules it leaves [n_in - min n_in (n_out + 1)] and
    [n_out - min n_in n_out], so OUTPUT rules survive whenever they
    outnumber the INPUT rules (lines 811-833). *)
Theorem force_reset_rules fuel t :
  (length t < fuel)%nat ->
  exists t', force_reset fuel t = Some t'
    /\ (forall i, i ∈ possible_interfaces ->
          let n_in := occurrences (Drop INPUT i) t in
          let n_out := occurrences (Drop OUTPUT i) t in
          occurrences (Drop INPUT i) t' = (n_in - Nat.min n_in (S n_out))%nat
          /\ occurrences (Drop OUTPUT i) t' = (n_out - Nat.min n_in n_out)%nat)
    /\ (forall q, (forall i, i ∈ possible_interfaces ->
                     q <> Drop INPUT i /\ q <> Drop OUTPUT i) ->
          occurrences q t' = occurrences q t).
Proof.
  intros Hf.
  destruct (force_reset_over_run fuel possible_interfaces t possible_interfaces_NoDup Hf)
    as (t' & E & _ & H1 & H2).
  exists t'. split; [exact E|]. split; [exact H1 | exact H2].
Qed.

Lemma force_reset_rules_witness :
  let t := [Drop OUTPUT "eth0"; Drop INPUT "eth0"; Drop OUTPUT "eth0"] in
  (length t < 5)%nat
  /\ exists t', force_reset 5 t = Some t'
       /\ occurrences (Drop INPUT "eth0") t' = 0%nat
       /\ occurrences (Drop OUTPUT "eth0") t' = 1%nat.
Proof.
  intros t.
  assert (H : (length t < 5)%nat) by (vm_compute; lia).
  split; [exact H|].
  destruct (force_reset_rules 5 t H) as (t' & E & H1 & _).
  assert (Hin : "eth0" ∈ possible_interfaces) by apply list_elem_of_here.
  destruct (H1 "eth0" Hin) as [Hi Ho].
  exists t'. split; [exact E|]. split.
  - etransitivity; [exact Hi|]. vm_compute. reflexivity.
  - etransitivity; [exact Ho|]. vm_compute. reflexivity.
Defined.

(** X17. An interface whose name is not one of the five that
    [--force-reset] lists stays blocked: after [block_network] on it and a
    force reset, both of its DROP rules are still in the table
    (lines 367-399, 811-833). *)
Theorem force_reset_misses_other_interfaces fuel j t :
  j ∉ possible_interfaces ->
  (2 + length t < fuel)%nat ->
  exists t', force_reset fuel (block_network j t) = Some t'
    /\ Drop INPUT j ∈ t' /\ Drop OUTPUT j ∈ t'.
Proof.
  intros Hj Hf.
  assert (Hlen : (length (block_network j t) < fuel)%nat).
  { rewrite block_network_shape, !length_app.
    destruct (check (Drop INPUT j) t), (check (Drop OUTPUT j) t); simpl; lia. }
  destruct (force_reset_over_run fuel possible_interfaces _ possible_interfaces_NoDup Hlen)
    as (t' & E & _ & _ & H2).
  exists t'. split; [exact E|].
  assert (Hpresent : forall r, r ∈ block_network j t -> (forall i, i ∈ possible_interfaces ->
              r <> Drop INPUT i /\ r <> Drop OUTPUT i) -> r ∈ t').
  { intros r Hr Hall. destruct (decide (r ∈ t')) as [H|H]; [exact H|].
    apply occurrences_zero in H. rewrite (H2 r Hall) in H.
    apply occurrences_zero in H. contradiction. }
  assert (Hboth : Drop INPUT j ∈ block_network j t /\ Drop OUTPUT j ∈ block_network j t).
  { rewrite block_network_shape. rewrite !elem_of_app. split.
    - destruct (check (Drop INPUT j) t) eqn:E1; [left; apply check_spec, E1|].
      right; left. apply list_elem_of_singleton. reflexivity.
    - destruct (check (Drop OUTPUT j) t) eqn:E1; [left; apply check_spec, E1|].
      right; right. apply list_elem_of_singleton. reflexivity. }
  destruct Hboth as [Hi Ho].
  split; apply Hpresent; try assumption;
    intros i Hin; split; intros [= ->]; contradiction.
Qed.

Lemma force_reset_misses_other_interfaces_witness :
  ("ens5" ∉ possible_interfaces) /\ (2 + length (@nil rule) < 5)%nat
  /\ exists t', force_reset 5 (block_network "ens5" []) = Some t'
       /\ Drop INPUT "ens5" ∈ t' /\ Drop OUTPUT "ens5" ∈ t'.
Proof.
  assert (H1 : "ens5" ∉ possible_interfaces)
    by (apply (bool_decide_unpack _); vm_compute; exact I).
  assert (H2 : (2 + length (@nil rule) < 5)%nat) by (vm_compute; lia).
  split; [exact H1|]. split; [exact H2|].
  exact (force_reset_misses_other_interfaces 5 "ens5" [] H1 H2).
Defined.

End Firewall.

(** ** The vnstat document *)

Lemma scan_months_leaves cfg y m l r :
  Vnstat.scan_months cfg y m l = Vnstat.Leaves (Returns r) ->
  exists md, md ∈ l /\ Vnstat.in_month y m md
    /\ Vnstat.month_value cfg md = Returns r.
Proof.
  induction l as [|md l IH]; simpl; [discriminate|].
  destruct (Vnstat.date_year md) as [yy|] eqn:Ey; [|discriminate].
  destruct (Z.eqb_spec yy y) as [->|Hy].
  - destruct (Vnstat.date_month md) as [mm|] eqn:Em; [|discriminate].
    destruct (Z.eqb_spec mm m) as [->|Hm].
    + intros [= E]. exists md. split; [left|]. split; [split; assumption | exact E].
    + intros H. destruct (IH H) as (md' & Hin & Hrest). exists md'. split; [right; exact Hin | exact Hrest].
  - intros H. destruct (IH H) as (md' & Hin & Hrest). exists md'. split; [right; exact Hin | exact Hrest].
Qed.

Lemma scan_months_other cfg y m l :
  Forall (Vnstat.other_month y m) l ->
  Vnstat.scan_months cfg y m l = Vnstat.Falls_through.
Proof.
  induction 1 as [|md l (yy & mm & Ey & Em & Hne) _ IH]; [reflexivity|]. simpl.
  rewrite Ey, Em. destruct (Z.eqb_spec yy y) as [->|_]; [|exact IH].
  destruct (Z.eqb_spec mm m) as [->|_]; [|exact IH]. destruct Hne; congruence.
Qed.

Lemma scan_interfaces_absent cfg i y m l :
  Forall (Vnstat.no_record i y m) l ->
  Vnstat.scan_interfaces cfg i y m l = Returns 0.
Proof.
  induction 1 as [|d l (n & En & Hn) _ IH]; [reflexivity|]. simpl.
  rewrite En. destruct (String.eqb_spec n i) as [E|_]; [|exact IH].
  rewrite (scan_months_other cfg y m _ (Hn E)). exact IH.
Qed.

(** X18. When the vnstat document is well formed but holds no entry of the
    clock's calendar month for the interface (the interface is unknown to
    vnstat, or has only entries of other months), the sampler returns 0 as
    the usage, resets the vnstat failure counter and does not read the
    sysfs counters (lines 202-222, 242-251). *)
Theorem no_record_counts_zero cfg p entries i y m s :
  vnstat_installed p = true ->
  vnstat_read p = Vnstat.read cfg (Some entries) i y m ->
  Forall (Vnstat.no_record i y m) entries ->
  get_current_bytes cfg p i s = (0, set_vnstat_failures 0 s, [VnstatRead i]).
Proof.
  intros Hinst Hread Habs. unfold get_current_bytes, get_vnstat_data.
  rewrite Hinst, Hread. simpl. rewrite (scan_interfaces_absent cfg i y m entries Habs).
  reflexivity.
Qed.

Lemma no_record_counts_zero_witness :
  let january := {| Vnstat.date_year := Some 2023; Vnstat.date_month := Some 1;
                    Vnstat.tx := Some 5000; Vnstat.rx := Some 100 |} in
  let entries := [{| Vnstat.name := Some "eth0"; Vnstat.months := [january] |}] in
  let p := {| vnstat_installed := true;
              vnstat_read := Vnstat.read default_config (Some entries) "eth0" 2023 2;
              sysfs_tx := Returns 7; sysfs_rx := Returns 7 |} in
  vnstat_installed p = true
  /\ Forall (Vnstat.no_record "eth0" 2023 2) entries
  /\ get_current_bytes default_config p "eth0" default_state
     = (0, set_vnstat_failures 0 default_state, [VnstatRead "eth0"]).
Proof.
  intros january entries p.
  assert (H1 : vnstat_installed p = true) by reflexivity.
  assert (H2 : vnstat_read p = Vnstat.read default_config (Some entries) "eth0" 2023 2)
    by reflexivity.
  assert (H3 : Forall (Vnstat.no_record "eth0" 2023 2) entries).
  { constructor; [|constructor]. exists "eth0"%string. split; [reflexivity|].
    intros _. constructor; [|constructor]. exists 2023, 1.
    split; [reflexivity|]. split; [reflexivity|]. right. lia. }
  split; [exact H1|]. split; [exact H3|].
  exact (no_record_counts_zero default_config p entries "eth0" 2023 2 default_state
           H1 H2 H3).
Defined.

(** X19. A value that the vnstat reading returns is 0, or 1024 times the
    [tx] figure (plus the [rx] figure when the direction is "both") of an
    entry of the interface dated in the clock's calendar year and month:
    the usage is counted per calendar month (lines 202-222). *)
Theorem vnstat_value_origin cfg doc i y m v :
  Vnstat.read cfg doc i y m = Returns v ->
  v = 0
  \/ exists l d md, doc = Some l /\ d ∈ l /\ Vnstat.name d = Some i
       /\ md ∈ Vnstat.months d /\ Vnstat.in_month y m md
       /\ exists t, Vnstat.tx md = Some t
            /\ ((TRAFFIC_DIRECTION cfg = "both"%string /\
                 exists r, Vnstat.rx md = Some r /\ v = (t + r) * 1024)
                \/ (TRAFFIC_DIRECTION cfg <> "both"%string /\ v = t * 1024)).
Proof.
  destruct doc as [l|]; simpl; [|discriminate].
  induction l as [|d l IH]; simpl.
  - intros [= <-]. left. reflexivity.
  - destruct (Vnstat.name d) as [n|] eqn:En; [|discriminate].
    assert (Hrest : Vnstat.scan_interfaces cfg i y m l = Returns v ->
                    v = 0 \/ exists l0 d0 md, Some (d :: l) = Some l0 /\ d0 ∈ l0
                      /\ Vnstat.name d0 = Some i /\ md ∈ Vnstat.months d0
                      /\ Vnstat.in_month y m md
                      /\ exists t, Vnstat.tx md = Some t
                           /\ ((TRAFFIC_DIRECTION cfg = "both"%string /\
                                exists r, Vnstat.rx md = Some r /\ v = (t + r) * 1024)
                               \/ (TRAFFIC_DIRECTION cfg <> "both"%string /\ v = t * 1024))).
    { intros H. destruct (IH H) as [H0|(l0 & d0 & md & [= <-] & Hd & Hrest)]; [left; exact H0|].
      right. exists (d :: l), d0, md. split; [reflexivity|]. split; [right; exact Hd | exact Hrest]. }
    destruct (String.eqb_spec n i) as [->|Hn]; [|exact Hrest].
    destruct (Vnstat.scan_months cfg y m (Vnstat.months d)) as [|r] eqn:Es; [exact Hrest|].
    intros ->. destruct (scan_months_leaves _ _ _ _ _ Es) as (md & Hin & Hmonth & Hv).
    right. exists (d :: l), d, md. split; [reflexivity|]. split; [left|].
    split; [exact En|]. split; [exact Hin|]. split; [exact Hmonth|].
    unfold Vnstat.month_value in Hv.
    destruct (String.eqb_spec (TRAFFIC_DIRECTION cfg) "both") as [Hd|Hd].
    + destruct (Vnstat.tx md) as [t|]; [|discriminate].
      destruct (Vnstat.rx md) as [r|]; [|discriminate].
      injection Hv as <-. exists t. split; [reflexivity|]. left. split; [exact Hd|].
      exists r. split; reflexivity.
    + destruct (Vnstat.tx md) as [t|]; [|discriminate].
      injection Hv as <-. exists t. split; [reflexivity|]. right. split; [exact Hd | reflexivity].
Qed.

Lemma vnstat_value_origin_witness :
  let january := {| Vnstat.date_year := Some 2023; Vnstat.date_month := Some 1;
                    Vnstat.tx := Some 5000; Vnstat.rx := Some 100 |} in
  let doc := Some [{| Vnstat.name := Some "eth0"; Vnstat.months := [january] |}] in
  Vnstat.read default_config doc "eth0" 2023 1 = Returns 5120000
  /\ (5120000 = 0
      \/ exists l d md, doc = Some l /\ d ∈ l /\ Vnstat.name d = Some "eth0"
           /\ md ∈ Vnstat.months d /\ Vnstat.in_month 2023 1 md
           /\ exists t, Vnstat.tx md = Some t
                /\ ((TRAFFIC_DIRECTION default_config = "both"%string /\
                     exists r, Vnstat.rx md = Some r /\ 5120000 = (t + r) * 1024)
                    \/ (TRAFFIC_DIRECTION default_config <> "both"%string
                        /\ 5120000 = t * 1024))).
Proof.
  intros january doc.
  assert (H : Vnstat.read default_config doc "eth0" 2023 1 = Returns 5120000)
    by reflexivity.
  exact (conj H (vnstat_value_origin default_config doc "eth0" 2023 1 5120000 H)).
Defined.

(** ** The default interface *)

Lemma scan_routes_returned interfaces lines iface :
  DefaultInterface.scan_routes interfaces lines = DefaultInterface.Returned iface ->
  iface ∈ interfaces
  /\ exists line, line ∈ lines
       /\ DefaultInterface.after_dev (DefaultInterface.split line) = Some iface.
Proof.
  induction lines as [|line rest IH]; simpl; [discriminate|].
  assert (Hrest : DefaultInterface.scan_routes interfaces rest
                  = DefaultInterface.Returned iface ->
                  iface ∈ interfaces
                  /\ exists l, l ∈ line :: rest
                       /\ DefaultInterface.after_dev (DefaultInterface.split l) = Some iface).
  { intros H. destruct (IH H) as [H1 (l & Hl & E)]. split; [exact H1|].
    exists l. split; [right; exact Hl | exact E]. }
  destruct (DefaultInterface.contains "dev" line); [|exact Hrest].
  destruct (DefaultInterface.after_dev (DefaultInterface.split line)) as [x|] eqn:E;
    [|discriminate].
  destruct (bool_decide (x ∈ interfaces)) eqn:Hx; [|exact Hrest].
  intros [= ->]. apply bool_decide_eq_true in Hx. split; [exact Hx|].
  exists line. split; [left | exact E].
Qed.

(** X20. The default interface is one of the listed interfaces, or the
    name "eth0" (lines 144-171). *)
Theorem default_interface_is_listed interfaces ip_route :
  let main_interface := DefaultInterface.get_default_interface interfaces ip_route in
  main_interface ∈ interfaces \/ main_interface = "eth0"%string.
Proof.
  cbv zeta. unfold DefaultInterface.get_default_interface.
  destruct ip_route as [[rc lines]|]; [|right; reflexivity].
  assert (Hfall : match interfaces with
                  | first :: _ => first
                  | [] => "eth0"%string
                  end ∈ interfaces
                  \/ match interfaces with
                     | first :: _ => first
                     | [] => "eth0"%string
                     end = "eth0"%string).
  { destruct interfaces; [right; reflexivity | left; left]. }
  destruct ((rc =? 0) && negb (bool_decide (lines = []))); [|exact Hfall].
  destruct (DefaultInterface.scan_routes interfaces lines) as [|iface|] eqn:E;
    [right; reflexivity | | exact Hfall].
  left. apply (scan_routes_returned _ _ _ E).
Qed.
